(** * Ultimate TikTok Video Downloader: download orchestration core

    A shallow embedding of [app.py]: the filename sanitiser, the single-item
    download, the memoised download of App 3, the ZIP assembly and the
    selection / artifact bookkeeping kept in [st.session_state]; first
    along the run in which no call raises, then, in the module [Run],
    with the exceptions of [zipfile] and of the grid that the script does
    not catch. *)

From Stdlib Require Import ZArith NArith List Ascii String Lia.
From Stdlib.Strings Require Import Byte.
From stdpp Require Import base gmap list strings pretty fin_maps.
From Equations Require Import Equations.

Set Default Proof Using "Type".
Local Open Scope N_scope.

(** ** Python values *)

(** A Python [str] is a sequence of Unicode code points; [len] and slicing
    count code points, so a string is a [list N]. *)
Abbreviation pystr := (list N).
Abbreviation bytes := (list byte).

(** An ASCII literal of the source as a Python string. *)
Definition u (s : string) : pystr :=
  (fun a => N_of_ascii a) <$> list_ascii_of_string s.

(** The values found in a yt-dlp info dict that the code reads. *)
Inductive pyval :=
| PyNone
| PyStr (s : pystr)
| PyInt (z : Z).

(** [bool(v)]: None, the empty string and 0 are falsy. *)
Definition truthy (v : pyval) : bool :=
  match v with
  | PyNone => false
  | PyStr s => negb (bool_decide (s = []))
  | PyInt z => negb (bool_decide (z = 0%Z))
  end.

(** [str(v)]. *)
Definition py_str (v : pyval) : pystr :=
  match v with
  | PyNone => u "None"
  | PyStr s => s
  | PyInt z => u (pretty z)
  end.

(** ** Regular expressions used by the sanitiser *)

Module Re.

(** [\s] on a [str] pattern: the code points for which [str.isspace] holds
    (CPython 3.11). *)
Definition is_space (c : N) : bool :=
  ((9 <=? c) && (c <=? 13)) || ((28 <=? c) && (c <=? 32))
  || (c =? 133) || (c =? 160) || (c =? 5760)
  || ((8192 <=? c) && (c <=? 8202))
  || (c =? 8232) || (c =? 8233) || (c =? 8239) || (c =? 8287)
  || (c =? 12288).

(** The two patterns of [sanitize_filename]: a character class [[...]] and
    a character class under [+]. *)
Inductive pattern :=
| Class (cls : N -> bool)
| ClassPlus (cls : N -> bool).

(** Length of the longest prefix of [s] inside [cls] (greedy [+]). *)
Fixpoint span (cls : N -> bool) (s : pystr) : nat :=
  match s with
  | [] => 0%nat
  | c :: t => if cls c then S (span cls t) else 0%nat
  end.

(** A match attempt at the head [c :: t]: [Some k] when the pattern matches
    [c] and [k] further characters, [None] when it does not match here.
    Neither pattern matches the empty string. *)
Definition match_here (p : pattern) (c : N) (t : pystr) : option nat :=
  match p with
  | Class cls => if cls c then Some 0%nat else None
  | ClassPlus cls => if cls c then Some (span cls t) else None
  end.

(** [re.sub(p, repl, s)]: leftmost, non-overlapping matches, each replaced
    by [repl]; unmatched characters are copied. *)
Equations? sub (p : pattern) (repl : pystr) (s : pystr) : pystr
  by wf (length s) lt :=
  sub p repl [] := [];
  sub p repl (c :: t) with match_here p c t => {
    | Some k := repl ++ sub p repl (drop k t);
    | None := c :: sub p repl t }.
Proof. all: rewrite ?length_drop; simpl; lia. Qed.

End Re.

(** ** [sanitize_filename] *)

(** The class of the first pattern: [\s], line feed, carriage return. *)
Definition ws_class (c : N) : bool :=
  Re.is_space c || (c =? 10) || (c =? 13).

(** The class of the second pattern: backslash, slash, star, question
    mark, colon, double quote, less-than, greater-than and vertical bar. *)
Definition illegal_class (c : N) : bool :=
  (c =? 92) || (c =? 47) || (c =? 42) || (c =? 63) || (c =? 58)
  || (c =? 34) || (c =? 60) || (c =? 62) || (c =? 124).

Definition placeholder : pystr := u "untitled_video".

Definition sanitize_filename (name : pyval) : pystr :=
  if negb (truthy name) then placeholder
  else
    let sanitized_name := py_str name in
    let sanitized_name := Re.sub (Re.ClassPlus ws_class) (u "_") sanitized_name in
    let sanitized_name := Re.sub (Re.Class illegal_class) [] sanitized_name in
    if (100 <? length sanitized_name)%nat
    then take 100 sanitized_name ++ u ".."
    else sanitized_name.


(** ** The sanitisation rule as the specification words it

    Section 6: replace runs of whitespace with a single underscore, strip
    the nine listed characters, truncate to 100 characters followed by a
    two-character marker if longer; an empty or absent input yields the
    fixed placeholder. *)

Module Rule.

(** The maximal runs of [s], each tagged with whether it is a whitespace
    run. *)
Fixpoint runs (s : pystr) : list (bool * pystr) :=
  match s with
  | [] => []
  | c :: t =>
      match runs t with
      | (b, r) :: rest =>
          if bool_decide (b = ws_class c) then (b, c :: r) :: rest
          else (ws_class c, [c]) :: (b, r) :: rest
      | [] => [(ws_class c, [c])]
      end
  end.

Definition render_run (br : bool * pystr) : pystr :=
  if br.1 then u "_" else br.2.

Definition underscore_runs (s : pystr) : pystr :=
  concat (render_run <$> runs s).

Definition strip (s : pystr) : pystr :=
  filter (fun c => illegal_class c = false) s.

Definition truncate (s : pystr) : pystr :=
  if (100 <? length s)%nat then take 100 s ++ u ".." else s.

(** [None] is an absent input. *)
Definition sanitize (name : option pystr) : pystr :=
  match name with
  | None | Some [] => placeholder
  | Some s => truncate (strip (underscore_runs s))
  end.

End Rule.

(** ** Descriptors

    A descriptor is the info dict that yt-dlp returns for one video.  The
    code reads its keys with [video['id']], [video.get(key, default)] and
    [video['webpage_url']].  yt-dlp always fills ['id'] with a string and
    ['title'], when present, with a string (so [video['id']] and the slice
    [video.get('title', 'video')[:30]] of the progress text cannot raise);
    the record fixes those two, every other key lives in [video_info]
    and may be missing or hold [None]. *)

Global Instance pyval_eq_dec : EqDecision pyval.
Proof. solve_decision. Defined.

Global Instance pyval_countable : Countable pyval.
Proof.
  refine (inj_countable'
    (fun v => match v with
              | PyNone => inl ()
              | PyStr s => inr (inl s)
              | PyInt z => inr (inr z)
              end)
    (fun x => match x with
              | inl _ => PyNone
              | inr (inl s) => PyStr s
              | inr (inr z) => PyInt z
              end) _).
  by intros [].
Defined.

Record video := Video {
  video_id : pystr;
  video_title : option pystr;
  video_info : gmap string pyval;
}.

Global Instance video_eq_dec : EqDecision video.
Proof. solve_decision. Defined.

Global Instance video_countable : Countable video.
Proof.
  refine (inj_countable'
    (fun v => (video_id v, video_title v, video_info v))
    (fun x => Video x.1.1 x.1.2 x.2) _).
  by intros [].
Defined.

(** [d.get(k, default)] *)
Definition dict_get (d : gmap string pyval) (k : string) (default : pyval) : pyval :=
  match d !! k with
  | Some v => v
  | None => default
  end.

(** ** External collaborators

    [ydl_download t url] stands for [ydl.download([url])] into the fresh
    temporary directory, followed by reading the first file found there,
    at the [t]-th download of the process: [None] when yt-dlp raised or
    left the directory empty, [Some (ext, data)] for a file
    [<id>.<ext>] with content [data].  Two downloads of one URL may
    differ, hence the index.

    [entry_size name data] is the number of bytes that
    [zip_file.writestr(name, data)] adds to the buffer for one member
    (local record, deflated data and central-directory header). *)
Class Env := {
  ydl_download : nat -> pyval -> option (pystr * bytes);
  entry_size : pystr -> bytes -> N;
}.

(** ** The ZIP buffer

    The archive is kept as the list of its members in the order written;
    [writestr] appends a member (a repeated name gives a second member). *)
Abbreviation archive := (list (pystr * bytes)).

(** [zip_buffer.tell()] once the [with zipfile.ZipFile(...)] block has
    closed the archive: [close] writes the central directory and its
    22-byte end record, also when no member was added (mode ["a"] on an
    empty buffer marks the archive as modified). *)
Definition zip_tell `{Env} (zip_file : archive) : N :=
  foldr (fun m n => entry_size m.1 m.2 + n) 22 zip_file.

(** ** Session state

    [st.session_state]: the keys set by [initialize_session_state] that the
    ZIP workflow uses, the two select-all checkboxes, and the toggle of
    each video, stored under the video's id ([toggles]; the ids are
    TikTok's numeric strings and do not collide with the fixed keys). *)
Record session_state := Session {
  video_list : list video;
  toggles : gmap pystr bool;
  select_all_top : bool;
  select_all_bottom : bool;
  zip_bytes : option archive;
  zipped_selection_ids : list pystr;
  zip_filename : option pystr;
  failed_videos : list video;
  download_triggered : bool;
  user_id : pystr;
}.

(** The result of a download: the pair [(video_bytes, final_filename)] or
    [(None, None)]. *)
Abbreviation fetch_result := (option bytes * option pystr)%type.

(** The process: one session, the [st.cache_data] store of
    [get_cached_download_data], and the log of the calls of
    [robust_download_to_memory] (the latest last). *)
Record world := World {
  session : session_state;
  cache : gmap video fetch_result;
  download_log : list video;
}.

Definition with_session (f : session_state -> session_state) (w : world) : world :=
  World (f (session w)) (cache w) (download_log w).

(** Truth value of an optional byte string / string. *)
Definition truthy_bytes (b : option bytes) : bool :=
  match b with
  | Some (_ :: _) => true
  | _ => false
  end.

Definition truthy_name (n : option pystr) : bool :=
  match n with
  | Some (_ :: _) => true
  | _ => false
  end.

(** [if st.session_state.zip_bytes]: the stored bytes are the serialised
    archive, non-empty when their length [zip_tell] is positive. *)
Definition truthy_zip `{Env} (zb : option archive) : bool :=
  match zb with
  | Some a => 0 <? zip_tell a
  | None => false
  end.

(** ** Single-item download *)

(** The name given to a downloaded item. *)
Definition final_filename (video_info0 : video) : pystr :=
  let uploader :=
    sanitize_filename (dict_get (video_info video_info0) "uploader" (PyStr (u "user"))) in
  let title :=
    sanitize_filename
      (match video_title video_info0 with
       | Some t => PyStr t
       | None => PyStr (u "video")
       end) in
  uploader ++ u "_" ++ title ++ u ".mp4".

Definition robust_download_to_memory `{Env} (video_info0 : video) (w : world)
  : fetch_result * world :=
  let name := final_filename video_info0 in
  let w' := World (session w) (cache w) (download_log w ++ [video_info0]) in
  match video_info video_info0 !! "webpage_url" with
  | None => ((None, None), w')
  | Some url =>
      match ydl_download (length (download_log w)) url with
      | None => ((None, None), w')
      | Some (_, video_bytes) => ((Some video_bytes, Some name), w')
      end
  end.

(** Modelled from the spec: the store behind [@st.cache_data]
    (section 4.1, Fetch Cache): the first call for an argument delegates
    to the decorated function, stores the result and returns it; a later
    call with an equal argument returns the stored result without calling
    the function; [st.cache_data.clear()] discards all stored results. *)
Definition get_cached_download_data `{Env} (video_info0 : video) (w : world)
  : fetch_result * world :=
  match cache w !! video_info0 with
  | Some r => (r, w)
  | None =>
      let '(r, w') := robust_download_to_memory video_info0 w in
      (r, World (session w') (<[video_info0 := r]> (cache w')) (download_log w'))
  end.

Definition cache_data_clear (w : world) : world :=
  World (session w) ∅ (download_log w).

(** ** Selection and artifact state *)

Definition invalidate_zip (s : session_state) : session_state :=
  Session (video_list s) (toggles s) (select_all_top s) (select_all_bottom s)
    None [] (zip_filename s) (failed_videos s) (download_triggered s) (user_id s).

(** [st.session_state.get(v['id'])] as a condition. *)
Definition is_on (s : session_state) (v : video) : bool :=
  match toggles s !! video_id v with
  | Some b => b
  | None => false
  end.

(** [[v for v in st.session_state.video_list if st.session_state.get(v['id'])]] *)
Definition selected_videos (s : session_state) : list video :=
  filter (fun v => is_on s v = true) (video_list s).

(** [{v['id'] for v in st.session_state.video_list if st.session_state.get(v['id'])}] *)
Definition selected_ids (s : session_state) : gset pystr :=
  list_to_set (video_id <$> selected_videos s).

Inductive position := top | bottom.

Definition select_all (p : position) (s : session_state) : bool :=
  match p with
  | top => select_all_top s
  | bottom => select_all_bottom s
  end.

Definition toggle_all_selection (p : position) (s : session_state) : session_state :=
  let new_state := select_all p s in
  let toggles' :=
    foldl (fun t video => <[video_id video := new_state]> t) (toggles s) (video_list s) in
  invalidate_zip
    (Session (video_list s) toggles' (select_all_top s) (select_all_bottom s)
       (zip_bytes s) (zipped_selection_ids s) (zip_filename s) (failed_videos s)
       (download_triggered s) (user_id s)).

Definition on_download_click (s : session_state) : session_state :=
  Session (video_list s) (toggles s) (select_all_top s) (select_all_bottom s)
    (zip_bytes s) (zipped_selection_ids s) (zip_filename s) (failed_videos s)
    true (user_id s).

(** ** Batch archive assembly *)

(** One iteration of the loop of [prepare_zip]; the state is the open
    archive, [failed_videos_this_run] and the process.  This is the
    iteration in which [writestr] returns: the archive is opened with
    [allowZip64=False], and [Run.zip_loop] below follows the loop with
    the exceptions that [writestr] then raises. *)
Definition zip_one `{Env} (acc : archive * list video * world) (video0 : video)
  : archive * list video * world :=
  let '(zip_file, failed_videos_this_run, w) := acc in
  let '((video_bytes, filename), w') := robust_download_to_memory video0 w in
  if truthy_bytes video_bytes && truthy_name filename
  then (zip_file ++ [(default [] filename, default [] video_bytes)],
        failed_videos_this_run, w')
  else (zip_file, failed_videos_this_run ++ [video0], w').

(** [prepare_zip] when every [writestr] and the closing of the archive
    return; [Run.prepare_zip] has both outcomes. *)
Definition prepare_zip `{Env} (selected : list video) (user_id0 : pystr) (w : world)
  : world :=
  match selected with
  | [] => w
  | _ :: _ =>
      let '(zip_file, failed_videos_this_run, w1) :=
        foldl zip_one ([], [], w) selected in
      let s := session w1 in
      let s1 :=
        Session (video_list s) (toggles s) (select_all_top s) (select_all_bottom s)
          (zip_bytes s) (zipped_selection_ids s) (zip_filename s)
          failed_videos_this_run (download_triggered s) (user_id s) in
      if 0 <? zip_tell zip_file then
        let successful_ids :=
          video_id <$> filter (fun v => v ∉ failed_videos_this_run) selected in
        World
          (Session (video_list s1) (toggles s1) (select_all_top s1)
             (select_all_bottom s1) (Some zip_file) successful_ids
             (Some (u "tiktok_download_" ++ user_id0 ++ u ".zip"))
             (failed_videos s1) (download_triggered s1) (user_id s1))
          (cache w1) (download_log w1)
      else World (invalidate_zip s1) (cache w1) (download_log w1)
  end.

(** ** One run of the script

    Streamlit reruns the script after each interaction: the widget state
    is updated and the widget's callback runs, then the script body.
    The definitions of this section follow a run to its end, for a text
    field that holds [user_id]; [Run.script_run] below adds the
    exceptions of the action bars and of the grid, and the assignment of
    the text field to [user_id] at each run. *)

Inductive app_choice := app1 | app2 | app3.

Inductive event :=
| ToggleVideo (id : pystr)
| ToggleSelectAll (p : position)
| ClickPrepare (p : position)
| ClickDownloadZip (p : position)
| ClearCache
| Rerun.

Global Instance position_eq_dec : EqDecision position.
Proof. solve_decision. Defined.

(** The toggle of video [id] flips [st.session_state[id]]. *)
Definition flip_toggle (id : pystr) (s : session_state) : session_state :=
  let now := match toggles s !! id with Some b => b | None => false end in
  Session (video_list s) (<[id := negb now]> (toggles s)) (select_all_top s)
    (select_all_bottom s) (zip_bytes s) (zipped_selection_ids s) (zip_filename s)
    (failed_videos s) (download_triggered s) (user_id s).

(** The checkbox at [p] flips [st.session_state['select_all_<p>']]. *)
Definition flip_select_all (p : position) (s : session_state) : session_state :=
  Session (video_list s) (toggles s)
    (match p with top => negb (select_all_top s) | bottom => select_all_top s end)
    (match p with top => select_all_bottom s | bottom => negb (select_all_bottom s) end)
    (zip_bytes s) (zipped_selection_ids s) (zip_filename s)
    (failed_videos s) (download_triggered s) (user_id s).

(** Widget update and callback of an interaction; the sidebar's cache
    button is handled at the head of [main]. *)
Definition on_event (ev : event) (w : world) : world :=
  match ev with
  | ToggleVideo id => with_session (flip_toggle id) w
  | ToggleSelectAll p =>
      with_session (fun s => toggle_all_selection p (flip_select_all p s)) w
  | ClickDownloadZip _ => with_session on_download_click w
  | ClearCache => cache_data_clear w
  | ClickPrepare _ | Rerun => w
  end.

(** The check at the head of [run_app_1], [run_app_2] and [run_app_3]. *)
Definition run_app_check `{Env} (s : session_state) : session_state :=
  if negb (download_triggered s) then
    if truthy_zip (zip_bytes s)
       && negb (bool_decide (selected_ids s = list_to_set (zipped_selection_ids s)))
    then invalidate_zip s
    else s
  else s.

Definition reset_download_triggered (s : session_state) : session_state :=
  Session (video_list s) (toggles s) (select_all_top s) (select_all_bottom s)
    (zip_bytes s) (zipped_selection_ids s) (zip_filename s) (failed_videos s)
    false (user_id s).

(** What a download button hands to the browser: data and file name. *)
Abbreviation offer := (option (archive * option pystr)).

(** The download button of an action bar, rendered under
    [if st.session_state.zip_bytes]. *)
Definition zip_download_button `{Env} (s : session_state) : offer :=
  if truthy_zip (zip_bytes s)
  then match zip_bytes s with
       | Some a => Some (a, zip_filename s)
       | None => None
       end
  else None.

(** [common_action_bar_ui(position)]: the prepare button (disabled for an
    empty selection) runs [prepare_zip] when it was the one clicked; the
    download button is rendered when [zip_bytes] is truthy. *)
Definition common_action_bar_ui `{Env} (p : position) (ev : event) (w : world)
  : offer * world :=
  let selected := selected_videos (session w) in
  let w1 :=
    match ev with
    | ClickPrepare p' =>
        if bool_decide (p' = p) && negb (bool_decide (length selected = 0%nat))
        then prepare_zip selected (user_id (session w)) w
        else w
    | _ => w
    end in
  let s1 := session w1 in
  let offered := zip_download_button s1 in
  let w2 :=
    if download_triggered s1 then with_session reset_download_triggered w1 else w1 in
  (offered, w2).

(** The video grid when every cell renders: only App 3 downloads while
    rendering, through the cached function. *)
Definition render_grid `{Env} (app : app_choice) (w : world) : world :=
  match app with
  | app3 =>
      foldl (fun w0 video0 => (get_cached_download_data video0 w0).2)
        w (video_list (session w))
  | _ => w
  end.

Definition run_app `{Env} (app : app_choice) (ev : event) (w : world)
  : (offer * offer) * world :=
  let w0 := with_session run_app_check w in
  let '(offer_top, w1) := common_action_bar_ui top ev w0 in
  let w2 := render_grid app w1 in
  let '(offer_bottom, w3) := common_action_bar_ui bottom ev w2 in
  ((offer_top, offer_bottom), w3).

(** The part of [main] that follows an interaction, for a chosen app. *)
Definition script_run `{Env} (app : app_choice) (ev : event) (w : world)
  : (offer * offer) * world :=
  let w1 := on_event ev w in
  match video_list (session w1) with
  | [] => ((None, None), w1)
  | _ :: _ => run_app app ev w1
  end.

Definition script_runs `{Env} (app : app_choice) (evs : list event) (w : world)
  : world :=
  foldl (fun w0 ev => (script_run app ev w0).2) w evs.

(** [initialize_session_state()], then a successful "Fetch Videos" for
    [uid] that found [videos]: every toggle is set to [False]. *)
Definition initialize_session_state : session_state :=
  Session [] ∅ false false None [] None [] false [].

Definition fetched (uid : pystr) (videos : list video) : world :=
  World
    (Session videos
       (foldl (fun t video0 => <[video_id video0 := false]> t) ∅ videos)
       false false None [] None [] false uid)
    ∅ [].

(** ** Vocabulary of the statements *)

(** The outcome of each download of a run over [sel], in order. *)
Fixpoint downloads `{Env} (sel : list video) (w : world)
  : list (video * fetch_result) :=
  match sel with
  | [] => []
  | v :: t =>
      let '(r, w') := robust_download_to_memory v w in
      (v, r) :: downloads t w'
  end.

(** The test [if video_bytes and filename] on an outcome. *)
Definition succeeded (o : video * fetch_result) : Prop :=
  truthy_bytes o.2.1 && truthy_name o.2.2 = true.

Global Instance succeeded_dec o : Decision (succeeded o).
Proof. unfold succeeded. apply _. Defined.

Definition fetched_ok `{Env} (sel : list video) (w : world) : list (video * fetch_result) :=
  filter succeeded (downloads sel w).

Definition fetch_failed `{Env} (sel : list video) (w : world) : list video :=
  fst <$> filter (fun o => ¬ succeeded o) (downloads sel w).

(** The member written for a successful outcome. *)
Definition member (o : video * fetch_result) : pystr * bytes :=
  (default [] o.2.2, default [] o.2.1).

(** ** A sample environment

    Three videos of one owner: the first downloads as an MP4 file, the
    download of the second fails, the third downloads as a WebM file. *)
Definition url_a : pyval := PyStr (u "https://www.tiktok.com/@jane/video/1").
Definition url_b : pyval := PyStr (u "https://www.tiktok.com/@jane/video/2").
Definition url_c : pyval := PyStr (u "https://www.tiktok.com/@jane/video/3").

Definition sample_env : Env := {|
  ydl_download := fun _ url =>
    if bool_decide (url = url_a) then Some (u "mp4", [x01; x02; x03])
    else if bool_decide (url = url_c) then Some (u "webm", [x04; x05])
    else None;
  entry_size := fun name data =>
    76 + 2 * N.of_nat (length name) + N.of_nat (length data);
|}.

Definition sample_video (id title : string) (url : pyval) : video :=
  Video (u id) (Some (u title))
    (<["uploader" := PyStr (u "Jane Doe")]> (<["webpage_url" := url]> ∅)).

Definition video_a : video := sample_video "1" "First clip" url_a.
Definition video_b : video := sample_video "2" "Second clip" url_b.
Definition video_c : video := sample_video "3" "Third: clip?" url_c.

Definition jane : pystr := u "jane".

(** The interactions that change the selection. *)
Definition is_selection_change (ev : event) : Prop :=
  match ev with
  | ToggleVideo _ | ToggleSelectAll _ => True
  | _ => False
  end.

(** [s'] differs from [s] at most in the toggles, the checkboxes, the
    download flag and the aggregate artifact, which is either kept or
    discarded. *)
Definition only_artifact_dropped (s s' : session_state) : Prop :=
  video_list s' = video_list s
  ∧ failed_videos s' = failed_videos s
  ∧ zip_filename s' = zip_filename s
  ∧ user_id s' = user_id s
  ∧ ((zip_bytes s' = zip_bytes s
      ∧ zipped_selection_ids s' = zipped_selection_ids s)
     ∨ (zip_bytes s' = None ∧ zipped_selection_ids s' = [])).

(** A character that [sanitize_filename] leaves in place. *)
Definition clean_char (c : N) : Prop :=
  ws_class c = false ∧ illegal_class c = false.

(** ** [chunked] *)

(** [range(0, stop, step)] for a positive [step]: the multiples of [step]
    below [stop]. *)
Definition py_range (stop step : nat) : list nat :=
  (fun k => k * step)%nat
  <$> seq 0 (match stop with
             | O => 0
             | S _ => (stop - 1) / step + 1
             end)%nat.

(** [chunked(iterable, size)], the chunks in the order yielded.  [None]
    is the [ValueError] of [range] for a zero step; a negative step gives
    an empty range. *)
Definition chunked {A : Type} (iterable : list A) (size : Z) : option (list (list A)) :=
  if bool_decide (size = 0%Z) then None
  else if bool_decide (size < 0)%Z then Some []
  else
    let n := Z.to_nat size in
    Some ((fun i => take n (drop i iterable)) <$> py_range (length iterable) n).

(** ** The copy-link button *)

(** The element id [btn_id] of [render_copy_link_button(url, key)]. *)
Definition copy_btn_id (key : pyval) : pystr :=
  u "copy_btn_" ++ sanitize_filename (PyStr (py_str key)).

(** ** App 2: the single-video download

    The three keys of [st.session_state] used by [run_app_2] only:
    [prepared_download] is [{}] ([None]) or the dict of the keys ['id'],
    ['data'] and ['filename']; [toast_error] is [None] when the key is not
    set. *)
Record single_download := SingleDownload {
  prepared_download : option (pystr * bytes * pystr);
  preparing_video_id : option pystr;
  toast_error : option pystr;
}.

Definition prepare_single_download_callback `{Env}
    (video0 : video) (st : single_download) (w : world)
  : single_download * world :=
  let st1 := SingleDownload None (Some (video_id video0)) (toast_error st) in
  let '((video_bytes, filename), w') := robust_download_to_memory video0 w in
  let st2 :=
    if truthy_bytes video_bytes && truthy_name filename
    then SingleDownload
           (Some (video_id video0, default [] video_bytes, default [] filename))
           (preparing_video_id st1) (toast_error st1)
    else SingleDownload (prepared_download st1) (preparing_video_id st1)
           (Some (u "Failed to prepare '"
                  ++ take 30 (default (u "video") (video_title video0))
                  ++ u "...'")) in
  (SingleDownload (prepared_download st2) None (toast_error st2), w').

(** The toast at the head of the grid: shown once, then the key is
    deleted. *)
Definition show_toast_error (st : single_download) : option pystr * single_download :=
  (toast_error st,
   SingleDownload (prepared_download st) (preparing_video_id st) None).

(** [on_click] of the save button: [prepared_download.clear()]. *)
Definition clear_prepared_download (st : single_download) : single_download :=
  SingleDownload None (preparing_video_id st) (toast_error st).

(** The button shown under a video of the grid of App 2. *)
Inductive single_button :=
| SaveButton (data : bytes) (filename : pystr)
| PreparingButton
| DownloadButton (disabled : bool).

Definition is_ready (st : single_download) (video0 : video) : bool :=
  match prepared_download st with
  | Some (id, _, _) => bool_decide (id = video_id video0)
  | None => false
  end.

Definition is_preparing (st : single_download) (video0 : video) : bool :=
  bool_decide (preparing_video_id st = Some (video_id video0)).

Definition single_download_button (st : single_download) (video0 : video)
  : single_button :=
  if is_ready st video0 then
    match prepared_download st with
    | Some (_, data, filename) => SaveButton data filename
    | None => DownloadButton false
    end
  else if is_preparing st video0 then PreparingButton
  else DownloadButton (bool_decide (preparing_video_id st ≠ None)).

(** ** The catalogue

    [extract_flat url playlistend] stands for the flat
    [ydl.extract_info(profile_url, download=False)], with the option
    ['playlistend'] when given: the value of [info['entries']] ([None]
    when the key is missing), or the exception raised.
    [extract_single i url] is the detailed [extract_info] of the [i]-th
    entry: [None] when it raised. *)
Inductive ydl_outcome (A : Type) :=
| Returned (a : A)
| RaisedDownloadError (e : pystr)
| RaisedOther (e : pystr).
Arguments Returned {A} a.
Arguments RaisedDownloadError {A} e.
Arguments RaisedOther {A} e.

Class Catalog := {
  extract_flat : pystr -> option pyval -> ydl_outcome (option (list (gmap string pyval)));
  extract_single : nat -> pyval -> option video;
}.

(** [pat in s] on strings. *)
Fixpoint contains (pat s : pystr) : bool :=
  bool_decide (take (length pat) s = pat)
  || match s with
     | [] => false
     | _ :: t => contains pat t
     end.

(** The loop over [info['entries']]: an entry without ['url'] or whose
    extraction raises is skipped. *)
Fixpoint fetch_details `{Catalog} (i : nat) (entries : list (gmap string pyval))
  : list video :=
  match entries with
  | [] => []
  | entry :: rest =>
      match entry !! "url" with
      | Some url =>
          match extract_single i url with
          | Some video_info0 => video_info0 :: fetch_details (S i) rest
          | None => fetch_details (S i) rest
          end
      | None => fetch_details (S i) rest
      end
  end.

(** The cross mark that opens two of the messages. *)
Definition cross_mark : pystr := [10060].

Definition fetch_user_videos `{Catalog} (username : pystr) (limit : pyval)
  : option (list video) * option pystr :=
  let profile_url := u "https://www.tiktok.com/@" ++ username in
  let playlistend := if truthy limit then Some limit else None in
  match extract_flat profile_url playlistend with
  | Returned (Some (entry :: rest)) =>
      (Some (fetch_details 0 (entry :: rest)), None)
  | Returned _ =>
      (None, Some (u "No videos found for this user, or the profile is private."))
  | RaisedDownloadError e =>
      if contains (u "HTTP Error 404") e
      then (None, Some (cross_mark ++ u " User '" ++ username
                        ++ u "' not found. Please check the User ID."))
      else (None, Some (cross_mark
                        ++ u " Invalid User ID or private profile. Error: " ++ e))
  | RaisedOther e => (None, Some (u "An unexpected error occurred: " ++ e))
  end.

(** ** The "Fetch Videos" button of [main] *)

(** [initialize_session_state()] on a running session: the listed keys
    are reset; the toggles of the videos and the top checkbox are not
    among them. *)
Definition reinitialize_session_state (s : session_state) : session_state :=
  Session [] (toggles s) (select_all_top s) false None [] None [] false [].

(** The body of [if st.button("Fetch Videos")]: [user_id_input] is the
    text field, [fetch_all] and [video_limit] the two fetch options. *)
Definition click_fetch_videos `{Catalog}
    (user_id_input : pystr) (fetch_all : bool) (video_limit : Z)
    (s : session_state) : session_state :=
  let s0 := reinitialize_session_state s in
  let s1 :=
    Session (video_list s0) (toggles s0) (select_all_top s0) (select_all_bottom s0)
      (zip_bytes s0) (zipped_selection_ids s0) (zip_filename s0)
      (failed_videos s0) (download_triggered s0) user_id_input in
  if truthy (PyStr (user_id s1)) then
    let '(videos, error_msg) :=
      fetch_user_videos (user_id s1)
        (if fetch_all then PyNone else PyInt video_limit) in
    if truthy_name error_msg then s1
    else
      match videos with
      | Some videos0 =>
          Session videos0
            (foldl (fun t video0 => <[video_id video0 := false]> t) (toggles s1) videos0)
            (select_all_top s1) (select_all_bottom s1)
            (zip_bytes s1) (zipped_selection_ids s1) (zip_filename s1)
            (failed_videos s1) (download_triggered s1) (user_id s1)
      | None => s1
      end
  else s1.

(** ** Invariant of the sessions reached by script runs *)

Definition artifact_ok (videos : list video) (s : session_state) : Prop :=
  video_list s = videos
  ∧ (zip_bytes s = None → zipped_selection_ids s = [])
  ∧ (is_Some (zip_bytes s) →
     ∃ uid, zip_filename s = Some (u "tiktok_download_" ++ uid ++ u ".zip"))
  ∧ zipped_selection_ids s ⊆ video_id <$> videos
  ∧ failed_videos s ⊆ videos.

Definition session_ok (videos : list video) (s : session_state) : Prop :=
  artifact_ok videos s ∧ download_triggered s = false.

(** A sample catalogue: the profile of [jane] lists three entries, the
    second of which cannot be resolved; any other profile is not found. *)
Definition sample_catalog : Catalog := {|
  extract_flat := fun url _ =>
    if bool_decide (url = u "https://www.tiktok.com/@jane")
    then Returned (Some [ {[ "url" := url_a ]}; {[ "url" := url_b ]};
                          {[ "url" := url_c ]} ])
    else RaisedDownloadError (u "ERROR: HTTP Error 404: Not Found");
  extract_single := fun _ url =>
    if bool_decide (url = url_a) then Some video_a
    else if bool_decide (url = url_c) then Some video_c
    else None;
|}.

(** * The script run with its exceptions

    The definitions above follow a run of the script in which no call
    raises.  This part follows the same code together with the exceptions
    that it does not catch: those of [zipfile] for an archive opened with
    [allowZip64=False], and those of the widgets of the video grid.
    Streamlit ends a script run at an uncaught exception; what the run
    wrote to [st.session_state] and to the cache before it stays.

    [deflated_size data] is the length of [data] compressed by zlib at its
    default level (the [ZIP_DEFLATED] method of the archive).
    [image_raises v] tells whether [st.image(v, use_container_width=True)]
    raises for a value [v] other than [None]. *)
Class Host := {
  deflated_size : bytes -> N;
  image_raises : pyval -> bool;
}.

Module Run.

(** The result of a call that may raise: the value returned, or the
    process as the exception leaves it. *)
Inductive outcome (A : Type) :=
| Done (a : A)
| Raised (w : world).
Arguments Done {A} a.
Arguments Raised {A} w.

(** ** [zipfile] with [allowZip64=False] *)

Inductive zip_error :=
| LargeZipFile
| IndexError
| UnicodeEncodeError
| RuntimeError.

(** [ZIP_FILECOUNT_LIMIT = (1 << 16) - 1], [ZIP64_LIMIT = (1 << 31) - 1]
    and the sizes of the fixed parts of the three records. *)
Definition ZIP_FILECOUNT_LIMIT : N := 65535.
Definition ZIP64_LIMIT : N := 2147483647.
Definition sizeFileHeader : N := 30.
Definition sizeCentralDir : N := 46.
Definition sizeEndCentDir : N := 22.

(** [ZipInfo.__init__]: the file name ends at its first null character. *)
Fixpoint zipinfo_filename (filename : pystr) : pystr :=
  match filename with
  | [] => []
  | c :: t => if c =? 0 then [] else c :: zipinfo_filename t
  end.

(** [filename.encode('utf-8')]: it raises for a surrogate code point;
    the length of the encoding otherwise (an ASCII name has the same
    length in both encodings tried). *)
Definition encodable (filename : pystr) : bool :=
  forallb (fun c => (c <? 55296) || ((57343 <? c) && (c <? 1114112))) filename.

Definition utf8_size (c : N) : N :=
  if c <? 128 then 1 else if c <? 2048 then 2 else if c <? 65536 then 3 else 4.

Definition encoded_length (filename : pystr) : N :=
  foldr (fun c n => utf8_size c + n) 0 filename.

(** A member takes a local record (header, name, deflated data) and, at
    [close], a central-directory record (header, name). *)
Definition local_size `{Host} (m : pystr * bytes) : N :=
  sizeFileHeader + encoded_length m.1 + deflated_size m.2.

Definition central_size (m : pystr * bytes) : N :=
  sizeCentralDir + encoded_length m.1.

(** [self.start_dir]: the offset at which the next local record, and at
    [close] the central directory, is written. *)
Definition start_dir `{Host} (zip_file : archive) : N :=
  foldr (fun m n => local_size m + n) 0 zip_file.

Definition central_dir_size (zip_file : archive) : N :=
  foldr (fun m n => central_size m + n) 0 zip_file.

(** The exception of [zip_file.writestr(arcname, data)], if any:
    [zinfo.filename[-1]] on an empty name, the three tests of
    [_writecheck], the encoding of the name in [FileHeader], and the test
    on the compressed size when the member is closed. *)
Definition writestr_error `{Host} (zip_file : archive) (arcname : pystr) (data : bytes)
  : option zip_error :=
  let filename := zipinfo_filename arcname in
  if bool_decide (filename = []) then Some IndexError
  else if ZIP_FILECOUNT_LIMIT <=? N.of_nat (length zip_file) then Some LargeZipFile
  else if ZIP64_LIMIT <? N.of_nat (length data) then Some LargeZipFile
  else if ZIP64_LIMIT <? start_dir zip_file then Some LargeZipFile
  else if negb (encodable filename) then Some UnicodeEncodeError
  else if ZIP64_LIMIT <? deflated_size data then Some RuntimeError
  else None.

(** [zip_file.writestr(arcname, data)]: [None] when it raises. *)
Definition writestr `{Host} (zip_file : archive) (arcname : pystr) (data : bytes)
  : option archive :=
  match writestr_error zip_file arcname data with
  | Some _ => None
  | None => Some (zip_file ++ [(zipinfo_filename arcname, data)])
  end.

(** The exception of [zip_file.close()] at the end of the [with] block,
    if any ([_write_end_record]). *)
Definition close_error `{Host} (zip_file : archive) : option zip_error :=
  if ZIP_FILECOUNT_LIMIT <? N.of_nat (length zip_file) then Some LargeZipFile
  else if ZIP64_LIMIT <? start_dir zip_file then Some LargeZipFile
  else if ZIP64_LIMIT <? central_dir_size zip_file then Some LargeZipFile
  else None.

(** [zip_buffer.tell()] after [close]. *)
Definition tell `{Host} (zip_file : archive) : N :=
  start_dir zip_file + central_dir_size zip_file + sizeEndCentDir.

(** The members [ms] written one after the other. *)
Fixpoint writestr_all `{Host} (zip_file : archive) (ms : list (pystr * bytes))
  : option archive :=
  match ms with
  | [] => Some zip_file
  | m :: rest =>
      match writestr zip_file m.1 m.2 with
      | Some zip_file' => writestr_all zip_file' rest
      | None => None
      end
  end.

(** ** [prepare_zip] *)

(** The loop of [prepare_zip] over the videos still to visit. *)
Fixpoint zip_loop `{Env} `{Host} (selected : list video) (zip_file : archive)
    (failed_videos_this_run : list video) (w : world)
  : outcome (archive * list video * world) :=
  match selected with
  | [] => Done (zip_file, failed_videos_this_run, w)
  | video0 :: rest =>
      let '((video_bytes, filename), w') := robust_download_to_memory video0 w in
      if truthy_bytes video_bytes && truthy_name filename then
        match writestr zip_file (default [] filename) (default [] video_bytes) with
        | Some zip_file' => zip_loop rest zip_file' failed_videos_this_run w'
        | None => Raised w'
        end
      else zip_loop rest zip_file (failed_videos_this_run ++ [video0]) w'
  end.

Definition prepare_zip `{Env} `{Host} (selected : list video) (user_id0 : pystr)
    (w : world) : outcome world :=
  match selected with
  | [] => Done w
  | _ :: _ =>
      match zip_loop selected [] [] w with
      | Raised w' => Raised w'
      | Done (zip_file, failed_videos_this_run, w1) =>
          match close_error zip_file with
          | Some _ => Raised w1
          | None =>
              let s := session w1 in
              let s1 :=
                Session (video_list s) (toggles s) (select_all_top s)
                  (select_all_bottom s) (zip_bytes s) (zipped_selection_ids s)
                  (zip_filename s) failed_videos_this_run (download_triggered s)
                  (user_id s) in
              if 0 <? tell zip_file then
                let successful_ids :=
                  video_id <$> filter (fun v => v ∉ failed_videos_this_run) selected in
                Done
                  (World
                     (Session (video_list s1) (toggles s1) (select_all_top s1)
                        (select_all_bottom s1) (Some zip_file) successful_ids
                        (Some (u "tiktok_download_" ++ user_id0 ++ u ".zip"))
                        (failed_videos s1) (download_triggered s1) (user_id s1))
                     (cache w1) (download_log w1))
              else Done (World (invalidate_zip s1) (cache w1) (download_log w1))
          end
      end
  end.

(** ** The action bars *)

Definition common_action_bar_ui `{Env} `{Host} (p : position) (ev : event) (w : world)
  : outcome (offer * world) :=
  let selected := selected_videos (session w) in
  let prepared :=
    match ev with
    | ClickPrepare p' =>
        if bool_decide (p' = p) && negb (bool_decide (length selected = 0%nat))
        then prepare_zip selected (user_id (session w)) w
        else Done w
    | _ => Done w
    end in
  match prepared with
  | Raised w' => Raised w'
  | Done w1 =>
      let s1 := session w1 in
      let offered := zip_download_button s1 in
      Done (offered,
            if download_triggered s1 then with_session reset_download_triggered w1
            else w1)
  end.

(** ** The video grid *)

(** [st.image(image, ...)]: [None], the value of
    [video.get('thumbnail')] for a missing key, is no image and raises. *)
Definition st_image_raises `{Host} (image : pyval) : bool :=
  match image with
  | PyNone => true
  | _ => image_raises image
  end.

(** [f"{video.get('like_count', 0):,}"] raises for [None] and for a
    string. *)
Definition like_count_formats (video0 : video) : bool :=
  match dict_get (video_info video0) "like_count" (PyInt 0) with
  | PyInt _ => true
  | _ => false
  end.

(** The cell of one video; [seen] holds the keys of the toggles already
    created in this run, and a second [st.toggle] with one of them raises
    [StreamlitDuplicateElementKey].  App 3 calls the cached download
    between the image and the toggle. *)
Definition render_cell `{Env} `{Host} (app : app_choice) (seen : list pystr)
    (video0 : video) (w : world) : outcome world :=
  if st_image_raises (dict_get (video_info video0) "thumbnail" PyNone) then Raised w
  else
    let w1 :=
      match app with
      | app3 => (get_cached_download_data video0 w).2
      | _ => w
      end in
    if negb (like_count_formats video0) then Raised w1
    else if bool_decide (video_id video0 ∈ seen) then Raised w1
    else Done w1.

Fixpoint render_cells `{Env} `{Host} (app : app_choice) (seen : list pystr)
    (videos : list video) (w : world) : outcome world :=
  match videos with
  | [] => Done w
  | video0 :: rest =>
      match render_cell app seen video0 w with
      | Done w1 => render_cells app (seen ++ [video_id video0]) rest w1
      | Raised w' => Raised w'
      end
  end.

Definition render_grid `{Env} `{Host} (app : app_choice) (w : world) : outcome world :=
  render_cells app [] (video_list (session w)) w.

(** The grid as the source walks it, over the rows of [chunked]. *)
Fixpoint render_rows `{Env} `{Host} (app : app_choice) (seen : list pystr)
    (rows : list (list video)) (w : world) : outcome world :=
  match rows with
  | [] => Done w
  | row_videos :: rest =>
      match render_cells app seen row_videos w with
      | Done w1 => render_rows app (seen ++ (video_id <$> row_videos)) rest w1
      | Raised w' => Raised w'
      end
  end.

(** [None] is the [ValueError] of [chunked]. *)
Definition render_grid_rows `{Env} `{Host} (app : app_choice) (w : world)
  : option (outcome world) :=
  match chunked (video_list (session w)) 5 with
  | Some rows => Some (render_rows app [] rows w)
  | None => None
  end.

(** ** One run of the script *)

(** What a run shows and leaves: the download column of each action bar
    ([None] when the run did not get there), whether the run reached its
    end, and the process after it. *)
Record page := Page {
  top_bar : option offer;
  bottom_bar : option offer;
  completed : bool;
  after : world;
}.

Definition run_app `{Env} `{Host} (app : app_choice) (ev : event) (w : world) : page :=
  let w0 := with_session run_app_check w in
  match common_action_bar_ui top ev w0 with
  | Raised w' => Page None None false w'
  | Done (offer_top, w1) =>
      match render_grid app w1 with
      | Raised w' => Page (Some offer_top) None false w'
      | Done w2 =>
          match common_action_bar_ui bottom ev w2 with
          | Raised w' => Page (Some offer_top) None false w'
          | Done (offer_bottom, w3) =>
              Page (Some offer_top) (Some offer_bottom) true w3
          end
      end
  end.

(** [st.session_state.user_id = st.text_input(...)] of [main]. *)
Definition set_user_id (text : pystr) (s : session_state) : session_state :=
  Session (video_list s) (toggles s) (select_all_top s) (select_all_bottom s)
    (zip_bytes s) (zipped_selection_ids s) (zip_filename s) (failed_videos s)
    (download_triggered s) text.

(** The part of [main] that follows an interaction, for a chosen app;
    [text] is the content of the text field at this run. *)
Definition script_run `{Env} `{Host} (app : app_choice) (ev : event) (text : pystr)
    (w : world) : page :=
  let w1 := with_session (set_user_id text) (on_event ev w) in
  match video_list (session w1) with
  | [] => Page None None true w1
  | _ :: _ => run_app app ev w1
  end.

Definition script_runs `{Env} `{Host} (app : app_choice) (evs : list (event * pystr))
    (w : world) : world :=
  foldl (fun w0 ev => after (script_run app ev.1 ev.2 w0)) w evs.

End Run.

(** ** Vocabulary of the statements on runs *)

(** The member stored for a name and its data. *)
Definition stored (m : pystr * bytes) : pystr * bytes :=
  (Run.zipinfo_filename m.1, m.2).

(** The members [ms], written in order into a fresh archive, stay within
    what [zipfile] accepts without the ZIP64 extensions: names that are
    not empty and can be encoded, no more than 65535 members, sizes and
    offsets of at most [ZIP64_LIMIT]. *)
Definition member_fits `{Host} (m : pystr * bytes) : bool :=
  negb (bool_decide (Run.zipinfo_filename m.1 = []))
  && Run.encodable (Run.zipinfo_filename m.1)
  && (N.of_nat (length m.2) <=? Run.ZIP64_LIMIT)
  && (deflated_size m.2 <=? Run.ZIP64_LIMIT).

Definition within_zip32 `{Host} (ms : list (pystr * bytes)) : bool :=
  forallb member_fits ms
  && (N.of_nat (length ms) <=? Run.ZIP_FILECOUNT_LIMIT)
  && (Run.start_dir (stored <$> ms) <=? Run.ZIP64_LIMIT)
  && (Run.central_dir_size (stored <$> ms) <=? Run.ZIP64_LIMIT).

(** The cell of a video renders: there is a thumbnail, [st.image]
    accepts it, and the like count can be formatted. *)
Definition cell_renders `{Host} (video0 : video) : bool :=
  negb (Run.st_image_raises (dict_get (video_info video0) "thumbnail" PyNone))
  && Run.like_count_formats video0.

(** The grid renders: every cell does and no toggle key is repeated. *)
Definition grid_renders `{Host} (videos : list video) : Prop :=
  Forall (fun video0 => cell_renders video0 = true) videos
  ∧ NoDup (video_id <$> videos).

(** The process after the cells of [videos] have been rendered: App 3
    has then called the cached download for each of them. *)
Definition cached_cells `{Env} (app : app_choice) (videos : list video) (w : world)
  : world :=
  match app with
  | app3 => foldl (fun w0 video0 => (get_cached_download_data video0 w0).2) w videos
  | _ => w
  end.

(** The download column of the action bar at [p]. *)
Definition bar_at (p : position) (run : Run.page) : option offer :=
  match p with
  | top => Run.top_bar run
  | bottom => Run.bottom_bar run
  end.

(** ** A sample host and sample videos with thumbnails *)

Definition sample_host : Host := {|
  deflated_size := fun data => N.of_nat (length data) + 5;
  image_raises := fun v =>
    match v with
    | PyStr s => negb (bool_decide (take 8 s = u "https://"))
    | _ => true
    end;
|}.

Definition clip (id title : string) (url : pyval) : video :=
  Video (u id) (Some (u title))
    (<["thumbnail" := PyStr (u "https://p16.tiktokcdn.com/" ++ u id ++ u ".jpeg")]>
       (<["like_count" := PyInt 1200]>
          (<["uploader" := PyStr (u "Jane Doe")]> (<["webpage_url" := url]> ∅)))).

Definition clip_a : video := clip "1" "First clip" url_a.
Definition clip_b : video := clip "2" "Second clip" url_b.
Definition clip_c : video := clip "3" "Third: clip?" url_c.

(** A video whose title holds a null character. *)
Definition clip_nul : video :=
  Video (u "4") (Some (u "Clip" ++ [0] ++ u "two"))
    (video_info (clip "4" "Clip" url_a)).

Definition bob : pystr := u "bob".

(** A catalogue of 65536 videos, each of which downloads. *)
Definition bulk_video (i : nat) : video :=
  Video (u (pretty (Z.of_nat i))) (Some (u "clip"))
    (<["uploader" := PyStr (u "Jane Doe")]> (<["webpage_url" := url_a]> ∅)).

Definition bulk_selection : list video :=
  bulk_video <$> seq 0 (N.to_nat 65536).
(** ** Lemmas on the sanitiser *)

Section sanitize_lemmas.

Lemma sub_nil p repl : Re.sub p repl [] = [].
Proof. by simp sub. Qed.

Lemma sub_cons p repl c t :
  Re.sub p repl (c :: t) =
  match Re.match_here p c t with
  | Some k => repl ++ Re.sub p repl (drop k t)
  | None => c :: Re.sub p repl t
  end.
Proof. simp sub. by destruct (Re.match_here p c t). Qed.

Lemma runs_head c t :
  ∃ r rest, Rule.runs (c :: t) = (ws_class c, r) :: rest.
Proof.
  simpl. destruct (Rule.runs t) as [|[b r] rest]; [by eauto|].
  case_bool_decide; subst; eauto.
Qed.

Lemma runs_cons c t :
  Rule.runs (c :: t) =
  match Rule.runs t with
  | (b, r) :: rest =>
      if bool_decide (b = ws_class c) then (b, c :: r) :: rest
      else (ws_class c, [c]) :: (b, r) :: rest
  | [] => [(ws_class c, [c])]
  end.
Proof. reflexivity. Qed.

Lemma span_cons cls c t :
  Re.span cls (c :: t) = if cls c then S (Re.span cls t) else 0%nat.
Proof. reflexivity. Qed.

Lemma underscore_runs_cons_ws c t :
  ws_class c = true →
  Rule.underscore_runs (c :: t) =
  u "_" ++ Rule.underscore_runs (drop (Re.span ws_class t) t).
Proof.
  revert c. induction t as [|c' t IH]; intros c Hc.
  - unfold Rule.underscore_runs. simpl. by rewrite Hc.
  - rewrite span_cons. destruct (runs_head c' t) as (r & rest & Hr).
    unfold Rule.underscore_runs at 1. rewrite runs_cons, Hr, Hc.
    destruct (ws_class c') eqn:Hc'.
    + rewrite bool_decide_eq_true_2 by done.
      cbn [drop]. rewrite <- (IH c' Hc'). unfold Rule.underscore_runs. by rewrite Hr.
    + rewrite bool_decide_eq_false_2 by done.
      cbn [drop]. unfold Rule.underscore_runs. by rewrite Hr.
Qed.

Lemma underscore_runs_cons_other c t :
  ws_class c = false →
  Rule.underscore_runs (c :: t) = c :: Rule.underscore_runs t.
Proof.
  intros Hc. unfold Rule.underscore_runs. rewrite runs_cons.
  destruct (Rule.runs t) as [|[b r] rest] eqn:Hr; rewrite Hc.
  - done.
  - destruct b; [rewrite bool_decide_eq_false_2 by done|
                 rewrite bool_decide_eq_true_2 by done]; done.
Qed.

(** The first substitution is the replacement of whitespace runs. *)
Lemma sub_ws_runs s :
  Re.sub (Re.ClassPlus ws_class) (u "_") s = Rule.underscore_runs s.
Proof.
  remember (length s) as n eqn:Hn. revert s Hn.
  induction n as [n IH] using lt_wf_ind. intros [|c t] Hn; [by simp sub|].
  rewrite sub_cons. unfold Re.match_here.
  destruct (ws_class c) eqn:Hc.
  - rewrite underscore_runs_cons_ws by done. f_equal.
    apply (IH (length (drop (Re.span ws_class t) t))); [|done].
    subst n. rewrite length_drop. simpl. lia.
  - rewrite underscore_runs_cons_other by done. f_equal.
    apply (IH (length t)); [subst n; simpl; lia|done].
Qed.

(** The second substitution is the removal of the listed characters. *)
Lemma sub_illegal_strip s :
  Re.sub (Re.Class illegal_class) [] s = Rule.strip s.
Proof.
  induction s as [|c t IH]; [by simp sub|].
  rewrite sub_cons. unfold Re.match_here, Rule.strip.
  destruct (illegal_class c) eqn:Hc.
  - rewrite drop_0. simpl. rewrite IH.
    rewrite filter_cons_False; [done|congruence].
  - rewrite IH. by rewrite filter_cons_True.
Qed.

Lemma sanitize_filename_str s :
  s ≠ [] →
  sanitize_filename (PyStr s) = Rule.truncate (Rule.strip (Rule.underscore_runs s)).
Proof.
  intros Hs. unfold sanitize_filename, truthy, py_str.
  rewrite bool_decide_eq_false_2 by done. simpl.
  by rewrite sub_ws_runs, sub_illegal_strip.
Qed.


Lemma underscore_runs_no_ws s :
  Forall (fun c => ws_class c = false) s → Rule.underscore_runs s = s.
Proof.
  induction 1 as [|c t Hc _ IH]; [done|].
  by rewrite underscore_runs_cons_other, IH.
Qed.


Lemma truncate_length s : (length (Rule.truncate s) ≤ 102)%nat.
Proof.
  unfold Rule.truncate. destruct (100 <? length s)%nat eqn:E.
  - rewrite length_app, length_take. change (length (u "..")) with 2%nat. lia.
  - apply Nat.ltb_ge in E. lia.
Qed.

End sanitize_lemmas.

(** A sanitised name never exceeds 102 characters. *)
Lemma sanitize_filename_length s :
  (length (sanitize_filename (PyStr s)) ≤ 102)%nat.
Proof.
  destruct s as [|c t]; [vm_compute; lia|].
  rewrite sanitize_filename_str by done. apply truncate_length.
Qed.

(** Testable property 7: a 150-character title keeps its first 100
    characters and gains the two-character marker. *)
Example sanitize_150 :
  sanitize_filename (PyStr (replicate 150 97)) = replicate 100 97 ++ u "..".
Proof. vm_compute. reflexivity. Qed.

Example sanitize_jane_doe :
  sanitize_filename (PyStr (u "Jane Doe")) ++ u "_" ++
  sanitize_filename (PyStr (u "My Cool \Video?"))
  = u "Jane_Doe_My_Cool_Video".
Proof. vm_compute. reflexivity. Qed.

(** C5. Filename sanitisation: for every input string [sanitize_filename]
    replaces each run of whitespace with a single underscore, strips every
    occurrence of the nine listed characters, then truncates a result of
    more than 100 characters to its first 100 followed by the two-character
    marker; an empty or absent input yields the fixed placeholder. *)
Theorem sanitize_filename_rule :
  (∀ s : pystr, sanitize_filename (PyStr s) = Rule.sanitize (Some s))
  ∧ sanitize_filename PyNone = Rule.sanitize None
  ∧ Rule.sanitize None = u "untitled_video".
Proof.
  split; [|done].
  intros [|c t]; [done|]. by rewrite sanitize_filename_str.
Qed.



Example sanitize_jane : sanitize_filename (PyStr (u "Jane  Doe")) = u "Jane_Doe".
Proof. vm_compute. reflexivity. Qed.

(** ** Batch assembly *)

Section assembly.
Context `{Env}.

Lemma zip_tell_pos (a : archive) : 0 < zip_tell a.
Proof.
  unfold zip_tell. induction a as [|m a IH]; simpl; lia.
Qed.

Lemma truthy_zip_some (a : archive) : truthy_zip (Some a) = true.
Proof. apply N.ltb_lt, zip_tell_pos. Qed.

Lemma robust_download_log v w :
  (robust_download_to_memory v w).2 =
  World (session w) (cache w) (download_log w ++ [v]).
Proof.
  unfold robust_download_to_memory.
  destruct (video_info v !! "webpage_url") as [url|]; [|done].
  by destruct (ydl_download _ url) as [[ext b]|].
Qed.

(** The loop of [prepare_zip] visits every video: its archive holds the
    members of the successful downloads, its ledger the failed videos. *)
Lemma foldl_zip_one sel a f w :
  foldl zip_one (a, f, w) sel =
  (a ++ (member <$> fetched_ok sel w), f ++ fetch_failed sel w,
   World (session w) (cache w) (download_log w ++ sel)).
Proof.
  unfold fetched_ok, fetch_failed.
  revert a f w. induction sel as [|v t IH]; intros a f w.
  - simpl. rewrite !app_nil_r. by destruct w.
  - simpl. pose proof (robust_download_log v w) as Hlog.
    destruct (robust_download_to_memory v w) as [[vb fn] w'] eqn:Hr.
    simpl in Hlog. subst w'.
    destruct (truthy_bytes vb && truthy_name fn) eqn:Hs.
    + rewrite IH. simpl.
      rewrite filter_cons_True by done.
      rewrite (filter_cons_False (fun o => ¬ succeeded o))
        by (intros Hn; by apply Hn).
      rewrite fmap_cons. unfold member at 2. simpl.
      by rewrite <- !app_assoc.
    + rewrite IH. simpl.
      rewrite filter_cons_False by (unfold succeeded; simpl; congruence).
      rewrite (filter_cons_True (fun o => ¬ succeeded o))
        by (unfold succeeded; simpl; congruence).
      rewrite fmap_cons. simpl. by rewrite <- !app_assoc.
Qed.

Lemma downloads_fst sel w : (downloads sel w).*1 = sel.
Proof.
  revert w. induction sel as [|v t IH]; intros w; [done|].
  simpl. destruct (robust_download_to_memory v w) as [r w'].
  simpl. by rewrite IH.
Qed.

(** [prepare_zip] on a non-empty selection, in closed form. *)
Lemma prepare_zip_nonempty sel uid w :
  sel ≠ [] →
  prepare_zip sel uid w =
  World
    (Session (video_list (session w)) (toggles (session w))
       (select_all_top (session w)) (select_all_bottom (session w))
       (Some (member <$> fetched_ok sel w))
       (video_id <$> filter (fun v => v ∉ fetch_failed sel w) sel)
       (Some (u "tiktok_download_" ++ uid ++ u ".zip"))
       (fetch_failed sel w)
       (download_triggered (session w)) (user_id (session w)))
    (cache w) (download_log w ++ sel).
Proof.
  intros Hsel. destruct sel as [|v t]; [done|].
  unfold prepare_zip. rewrite foldl_zip_one. cbn [app].
  pose proof (zip_tell_pos (member <$> fetched_ok (v :: t) w)) as Hpos.
  apply N.ltb_lt in Hpos. by rewrite Hpos.
Qed.

End assembly.

(** ** Lists of outcomes *)

Section outcomes.
Context {A B : Type} `{EqDecision A}.
Context (P : A * B → Prop) `{!∀ o, Decision (P o)}.

Lemma filter_ext_elem (P1 P2 : A → Prop)
    `{!∀ x, Decision (P1 x), !∀ x, Decision (P2 x)} (l : list A) :
  (∀ x, x ∈ l → P1 x ↔ P2 x) → filter P1 l = filter P2 l.
Proof.
  induction l as [|a l IH]; intros Hiff; [done|].
  rewrite !filter_cons.
  rewrite IH by (intros x Hx; apply Hiff; by right).
  assert (P1 a ↔ P2 a) as Ha by (apply Hiff; by left).
  destruct (decide (P1 a)), (decide (P2 a)); tauto || done.
Qed.

(** With distinct first components, the entries whose first component is
    not among the rejected ones are the accepted ones. *)
Lemma filter_not_rejected (outs : list (A * B)) :
  NoDup outs.*1 →
  filter (fun a => a ∉ (filter (fun o => ¬ P o) outs).*1) outs.*1
  = (filter P outs).*1.
Proof.
  induction outs as [|[a b] t IH]; intros Hnd; [done|].
  rewrite fmap_cons in Hnd. apply NoDup_cons in Hnd as [Ha Hnd].
  specialize (IH Hnd). simpl in Ha.
  assert (∀ Q `{!∀ o, Decision (Q o)}, a ∉ (filter Q t).*1) as Hnot.
  { intros Q ? Hin. apply Ha. apply list_elem_of_fmap in Hin as (o & -> & Ho).
    apply list_elem_of_filter in Ho as [_ Ho]. by apply list_elem_of_fmap_2. }
  rewrite fmap_cons. cbn [fst]. destruct (decide (P (a, b))) as [Hp|Hp].
  - rewrite (filter_cons_False (fun o => ¬ P o)) by (intros Hn; by apply Hn).
    rewrite (filter_cons_True P) by done.
    rewrite filter_cons_True by apply Hnot.
    by rewrite fmap_cons, IH.
  - rewrite (filter_cons_True (fun o => ¬ P o)) by done.
    rewrite (filter_cons_False P) by done.
    rewrite fmap_cons. cbn [fst].
    rewrite filter_cons_False by (intros Hn; apply Hn; by left).
    rewrite <- IH. apply filter_ext_elem. intros x Hx.
    rewrite not_elem_of_cons. split; [by intros [_ ?]|].
    intros Hx'. split; [|done]. intros ->. by apply Ha.
Qed.

Lemma filter_all_out (Q : A → Prop) `{!∀ x, Decision (Q x)} (l : list A) :
  Forall (fun x => ¬ Q x) l → filter Q l = [].
Proof.
  induction 1 as [|x t Hx _ IH]; [done|]. by rewrite filter_cons_False.
Qed.

Lemma filter_split_perm (outs : list (A * B)) :
  (filter P outs).*1 ++ (filter (fun o => ¬ P o) outs).*1 ≡ₚ outs.*1.
Proof. rewrite <- fmap_app. by rewrite filter_app_complement. Qed.

Lemma filter_split_length (outs : list (A * B)) :
  length (filter P outs) =
  (length outs - length (filter (fun o => ¬ P o) outs))%nat.
Proof.
  pose proof (filter_app_complement P outs) as Hp.
  apply Permutation_length in Hp. rewrite length_app in Hp. lia.
Qed.

End outcomes.

(** ** What [prepare_zip] leaves in the session *)

Section prepare_zip_results.
Context `{Env}.

(** The downloads of a run depend on the process only through the log. *)
Lemma downloads_log sel s c s' c' l :
  downloads sel (World s c l) = downloads sel (World s' c' l).
Proof.
  revert l. induction sel as [|v t IH]; intros l; [done|].
  simpl.
  pose proof (robust_download_log v (World s c l)) as H1.
  pose proof (robust_download_log v (World s' c' l)) as H2.
  assert ((robust_download_to_memory v (World s c l)).1
          = (robust_download_to_memory v (World s' c' l)).1) as H3.
  { unfold robust_download_to_memory. simpl.
    destruct (video_info v !! "webpage_url") as [url|]; [|done].
    by destruct (ydl_download (length l) url) as [[ext b]|]. }
  destruct (robust_download_to_memory v (World s c l)) as [r1 w1].
  destruct (robust_download_to_memory v (World s' c' l)) as [r2 w2].
  simpl in *. subst. f_equal. apply IH.
Qed.

(** A successful outcome carries the name built from the descriptor. *)
Lemma downloads_name sel w o :
  o ∈ downloads sel w → succeeded o → o.2.2 = Some (final_filename o.1).
Proof.
  revert w. induction sel as [|v t IH]; intros w; [by intros ?%elem_of_nil|].
  simpl. destruct (robust_download_to_memory v w) as [r w'] eqn:Hr.
  intros [->|Hin]%elem_of_cons Hs; [|by eapply IH].
  unfold robust_download_to_memory in Hr.
  destruct (video_info v !! "webpage_url") as [url|].
  - destruct (ydl_download _ url) as [[ext b]|];
      injection Hr as <- _; [done|by unfold succeeded in Hs].
  - injection Hr as <- _. by unfold succeeded in Hs.
Qed.

Lemma failed_of_distinct_ids sel w :
  NoDup (video_id <$> sel) →
  filter (fun v => v ∉ fetch_failed sel w) sel = (fetched_ok sel w).*1.
Proof.
  intros Hnd%NoDup_fmap_1. unfold fetch_failed, fetched_ok.
  pose proof (filter_not_rejected succeeded (downloads sel w)) as Hf.
  rewrite downloads_fst in Hf. by apply Hf.
Qed.

End prepare_zip_results.

(** C9. An empty selection makes [prepare_zip] return at once: the
    process is left exactly as it was, so the stored archive bytes, the
    recorded identities, the archive file name and the ledger are those of
    before, and an archive that was offered is still offered. *)
Theorem prepare_zip_empty_unchanged `{Env} (uid : pystr) (w : world) :
  prepare_zip [] uid w = w
  ∧ zip_bytes (session (prepare_zip [] uid w)) = zip_bytes (session w)
  ∧ zipped_selection_ids (session (prepare_zip [] uid w))
    = zipped_selection_ids (session w)
  ∧ zip_filename (session (prepare_zip [] uid w)) = zip_filename (session w)
  ∧ failed_videos (session (prepare_zip [] uid w)) = failed_videos (session w)
  ∧ truthy_zip (zip_bytes (session (prepare_zip [] uid w)))
    = truthy_zip (zip_bytes (session w)).
Proof. by split_and!. Qed.

(** The session left by assembling [video_a] and [video_b]: an archive and a
    ledger holding [video_b]. *)
Example after_partial_run :
  let w := @prepare_zip sample_env [video_a; video_b] jane
             (fetched jane [video_a; video_b]) in
  failed_videos (session w) = [video_b]
  ∧ zip_bytes (session w) = Some [(u "Jane_Doe_First_clip.mp4", [x01; x02; x03])].
Proof. vm_compute. done. Qed.

(** C4 fails as stated: an empty selection given to [prepare_zip] after
    such a run leaves the archive and the non-empty ledger in place. *)
Lemma empty_selection_keeps_ledger :
  let w := @prepare_zip sample_env [video_a; video_b] jane
             (fetched jane [video_a; video_b]) in
  let w' := @prepare_zip sample_env [] jane w in
  ¬ (zip_bytes (session w') = None ∧ failed_videos (session w') = []).
Proof. vm_compute. by intros [? ?]. Qed.

(** When every download fails the closed archive still holds its end
    record, so the test [zip_buffer.tell() > 0] passes: an archive
    without members is stored and offered, and [invalidate_zip] is not
    reached. *)
Lemma prepare_zip_all_failed_archive `{Env}
    (sel : list video) (uid : pystr) (w : world) :
  sel ≠ [] →
  Forall (fun o => ¬ succeeded o) (downloads sel w) →
  zip_bytes (session (prepare_zip sel uid w)) = Some []
  ∧ truthy_zip (zip_bytes (session (prepare_zip sel uid w))) = true.
Proof.
  intros Hne Hall. rewrite prepare_zip_nonempty by done. simpl.
  assert (fetched_ok sel w = []) as ->; [|by split; [|apply truthy_zip_some]].
  unfold fetched_ok. induction Hall as [|o t Ho _ IH]; [done|].
  by rewrite filter_cons_False.
Qed.

Example all_failed_sample :
  let w := @prepare_zip sample_env [video_b] jane (fetched jane [video_b]) in
  zip_bytes (session w) = Some []
  ∧ @zip_tell sample_env [] = 22
  ∧ zip_filename (session w) = Some (u "tiktok_download_jane.zip")
  ∧ failed_videos (session w) = [video_b].
Proof. vm_compute. done. Qed.

(** C4, amended. A selection of size 0 leaves the session as it was, so
    the call itself produces neither an archive nor a ledger (after a
    fetch of the catalogue there is no archive and the ledger is empty); a
    selection in which every fetch fails sets the ledger to all its N
    descriptors, in order, and records no identity. *)
Theorem prepare_zip_empty_or_all_failed `{Env}
    (sel : list video) (uid : pystr) (w : world) :
  Forall (fun o => ¬ succeeded o) (downloads sel w) →
  prepare_zip [] uid w = w
  ∧ (∀ videos,
       zip_bytes (session (prepare_zip [] uid (fetched uid videos))) = None
       ∧ failed_videos (session (prepare_zip [] uid (fetched uid videos))) = [])
  ∧ (sel ≠ [] →
     failed_videos (session (prepare_zip sel uid w)) = sel
     ∧ length (failed_videos (session (prepare_zip sel uid w))) = length sel
     ∧ zipped_selection_ids (session (prepare_zip sel uid w)) = []).
Proof.
  intros Hall. split_and!; [done|done|]. intros Hne.
  rewrite prepare_zip_nonempty by done. simpl.
  assert (fetch_failed sel w = sel) as ->.
  { unfold fetch_failed. rewrite <- (downloads_fst sel w) at 2. f_equal.
    induction Hall as [|o t Ho _ IH]; [done|].
    by rewrite filter_cons_True, IH. }
  split_and!; [done|done|].
  rewrite filter_all_out; [done|]. apply Forall_forall. by intros v Hv Hn.
Qed.

Lemma prepare_zip_empty_or_all_failed_witness :
  let w := @prepare_zip sample_env [video_b] jane (fetched jane [video_b]) in
  failed_videos (session w) = [video_b]
  ∧ zipped_selection_ids (session w) = [].
Proof.
  destruct (@prepare_zip_empty_or_all_failed sample_env
              [video_b] jane (fetched jane [video_b]))
    as (_ & _ & H3).
  - apply (bool_decide_unpack _). vm_compute. exact I.
  - destruct H3 as (H3 & _ & H4); [discriminate|]. split; [exact H3|exact H4].
Defined.

(** ** The memoised download *)

Section cached.
Context `{Env}.

Lemma get_cached_hit v r w :
  cache w !! v = Some r → get_cached_download_data v w = (r, w).
Proof. intros Hc. unfold get_cached_download_data. by rewrite Hc. Qed.

Lemma get_cached_miss v w :
  cache w !! v = None →
  get_cached_download_data v w =
  ((robust_download_to_memory v w).1,
   World (session w) (<[v := (robust_download_to_memory v w).1]> (cache w))
     (download_log w ++ [v])).
Proof.
  intros Hc. unfold get_cached_download_data. rewrite Hc.
  pose proof (robust_download_log v w) as Hl.
  destruct (robust_download_to_memory v w) as [r w']. simpl in *. by subst w'.
Qed.

(** A call stores its result under its argument. *)
Lemma get_cached_stored v w :
  cache (get_cached_download_data v w).2 !! v
  = Some (get_cached_download_data v w).1.
Proof.
  destruct (cache w !! v) as [r|] eqn:Hc.
  - by rewrite (get_cached_hit v r w Hc).
  - rewrite (get_cached_miss v w Hc). simpl. apply lookup_insert_eq.
Qed.

(** A call neither drops nor overwrites a stored result, and downloads
    nothing for an argument that is stored. *)
Lemma get_cached_keeps D r v w :
  cache w !! D = Some r →
  cache (get_cached_download_data v w).2 !! D = Some r
  ∧ ∃ l, download_log (get_cached_download_data v w).2 = download_log w ++ l
         ∧ D ∉ l.
Proof.
  intros HD. destruct (cache w !! v) as [r'|] eqn:Hc.
  - rewrite (get_cached_hit v r' w Hc). split; [done|].
    exists []. split; [by rewrite app_nil_r|apply not_elem_of_nil].
  - rewrite (get_cached_miss v w Hc). simpl.
    assert (v ≠ D) as Hne by congruence. split.
    + by rewrite lookup_insert_ne.
    + exists [v]. split; [done|]. by intros ->%list_elem_of_singleton.
Qed.

Lemma cached_calls_keep D r vs w :
  cache w !! D = Some r →
  let w' := foldl (fun w0 v => (get_cached_download_data v w0).2) w vs in
  cache w' !! D = Some r
  ∧ ∃ l, download_log w' = download_log w ++ l ∧ D ∉ l.
Proof.
  revert w. induction vs as [|v t IH]; intros w HD; simpl.
  - split; [done|]. exists []. split; [by rewrite app_nil_r|apply not_elem_of_nil].
  - destruct (get_cached_keeps D r v w HD) as (HD1 & l1 & Hl1 & Hn1).
    destruct (IH _ HD1) as (HD2 & l2 & Hl2 & Hn2). split; [done|].
    exists (l1 ++ l2). rewrite Hl2, Hl1, app_assoc. split; [done|].
    rewrite elem_of_app. tauto.
Qed.

End cached.

(** C6. Idempotent memoised fetch: two calls of
    [get_cached_download_data] on a descriptor [D] with no cache clear in
    between (other cached calls may happen) return the same result; the
    second call downloads nothing and changes nothing, and over the whole
    sequence the underlying download is invoked for [D] at most once. *)
Theorem cached_download_idempotent `{Env}
    (D : video) (between : list video) (w : world) :
  let first := get_cached_download_data D w in
  let w2 := foldl (fun w0 v => (get_cached_download_data v w0).2) first.2 between in
  let second := get_cached_download_data D w2 in
  second.1 = first.1
  ∧ second.2 = w2
  ∧ ∃ l, download_log second.2 = download_log w ++ l
         ∧ (length (filter (fun v => v = D) l) ≤ 1)%nat.
Proof.
  intros first w2 second.
  pose proof (get_cached_stored D w) as Hst. fold first in Hst.
  destruct (cached_calls_keep D first.1 between first.2 Hst)
    as (HD & l & Hl & Hn). fold w2 in HD, Hl.
  subst second. rewrite (get_cached_hit D _ w2 HD). simpl.
  split_and!; [done|done|].
  assert (∃ l0, download_log first.2 = download_log w ++ l0
                ∧ (length l0 ≤ 1)%nat) as (l0 & Hl0 & Hlen).
  { subst first. destruct (cache w !! D) as [r|] eqn:Hc.
    - rewrite (get_cached_hit D r w Hc). exists []. simpl.
      split; [by rewrite app_nil_r|lia].
    - rewrite (get_cached_miss D w Hc). exists [D]. simpl. split; [done|lia]. }
  exists (l0 ++ l). rewrite Hl, Hl0, app_assoc. split; [done|].
  rewrite filter_app, length_app.
  rewrite (filter_all_out (fun v => v = D) l)
    by (apply Forall_forall; by intros v Hv ->).
  pose proof (length_filter (fun v => v = D) l0). simpl. lia.
Qed.

(** A second call made after [st.cache_data.clear()] downloads again. *)
Example cached_download_after_clear :
  let first := @get_cached_download_data sample_env video_a (fetched jane [video_a]) in
  let second := @get_cached_download_data sample_env video_a (cache_data_clear first.2) in
  download_log second.2 = [video_a; video_a].
Proof. vm_compute. done. Qed.

(** ** Frame of the steps of a script run *)

Section frame.
Context `{Env}.

Lemma run_app_check_cases s :
  run_app_check s = s ∨ run_app_check s = invalidate_zip s.
Proof.
  unfold run_app_check. destruct (negb _); [|by left].
  destruct (_ && _); [by right|by left].
Qed.

Lemma prepare_zip_cache sel uid w :
  cache (prepare_zip sel uid w) = cache w
  ∧ video_list (session (prepare_zip sel uid w)) = video_list (session w).
Proof.
  destruct sel as [|v t]; [done|]. by rewrite prepare_zip_nonempty.
Qed.

Lemma bar_cache p ev w :
  cache (common_action_bar_ui p ev w).2 = cache w
  ∧ video_list (session (common_action_bar_ui p ev w).2) = video_list (session w).
Proof.
  unfold common_action_bar_ui. simpl.
  set (w1 := match ev with ClickPrepare _ => _ | _ => w end).
  assert (cache w1 = cache w ∧ video_list (session w1) = video_list (session w))
    as [Hc Hv].
  { subst w1. destruct ev; try done.
    destruct (_ && _); [apply prepare_zip_cache|done]. }
  by destruct (download_triggered (session w1)).
Qed.

(** Without a click on a prepare button the bar at most resets the
    download flag. *)
Lemma bar_idle p ev w :
  (∀ p', ev ≠ ClickPrepare p') →
  (common_action_bar_ui p ev w).2 = w
  ∨ (common_action_bar_ui p ev w).2 = with_session reset_download_triggered w.
Proof.
  intros Hev. unfold common_action_bar_ui. simpl.
  assert (match ev with
          | ClickPrepare p' =>
              if bool_decide (p' = p)
                 && negb (bool_decide (length (selected_videos (session w)) = 0%nat))
              then prepare_zip (selected_videos (session w)) (user_id (session w)) w
              else w
          | _ => w
          end = w) as ->.
  { destruct ev; try done. by destruct (Hev p0). }
  destruct (download_triggered (session w)); [by right|by left].
Qed.

Lemma get_cached_frame v w :
  session (get_cached_download_data v w).2 = session w
  ∧ cache w ⊆ cache (get_cached_download_data v w).2.
Proof.
  destruct (cache w !! v) as [r|] eqn:Hc.
  - by rewrite (get_cached_hit v r w Hc).
  - rewrite (get_cached_miss v w Hc). simpl. split; [done|].
    by apply insert_subseteq.
Qed.

Lemma cached_calls_hit vs w :
  (∀ v, v ∈ vs → is_Some (cache w !! v)) →
  foldl (fun w0 v => (get_cached_download_data v w0).2) w vs = w.
Proof.
  induction vs as [|v t IH]; intros Hall; [done|]. simpl.
  destruct (Hall v) as [r Hr]; [by left|].
  rewrite (get_cached_hit v r w Hr). simpl. apply IH.
  intros v' Hv'. apply Hall. by right.
Qed.

Lemma render_grid_frame app w :
  session (render_grid app w) = session w
  ∧ cache w ⊆ cache (render_grid app w)
  ∧ (app ≠ app3 ∨ (∀ v, v ∈ video_list (session w) → is_Some (cache w !! v)) →
     render_grid app w = w).
Proof.
  destruct app; try done.
  split_and!; [| |intros [?|Hall]; [done|by apply cached_calls_hit]];
    unfold render_grid.
  - generalize (video_list (session w)) as vs. intros vs. revert w.
    induction vs as [|v t IH]; intros w; [done|]. simpl.
    rewrite IH. apply get_cached_frame.
  - generalize (video_list (session w)) as vs. intros vs. revert w.
    induction vs as [|v t IH]; intros w; [done|]. simpl.
    etrans; [apply (get_cached_frame v w)|apply IH].
Qed.

(** No step of the script body drops a stored result. *)
Lemma run_app_cache app ev w :
  cache w ⊆ cache (run_app app ev w).2
  ∧ video_list (session (run_app app ev w).2) = video_list (session w).
Proof.
  unfold run_app.
  set (w0 := with_session run_app_check w).
  assert (cache w0 = cache w ∧ video_list (session w0) = video_list (session w))
    as [Hc0 Hv0].
  { subst w0. simpl. by destruct (run_app_check_cases (session w)) as [-> | ->]. }
  pose proof (bar_cache top ev w0) as [Hc1 Hv1].
  destruct (common_action_bar_ui top ev w0) as [o1 w1]. cbn [fst snd] in *.
  pose proof (render_grid_frame app w1) as (Hs2 & Hc2 & _).
  pose proof (bar_cache bottom ev (render_grid app w1)) as [Hc3 Hv3].
  destruct (common_action_bar_ui bottom ev (render_grid app w1)) as [o3 w3].
  cbn [fst snd] in *. rewrite Hc3, Hv3, Hs2, Hv1, Hv0. split; [|done].
  by rewrite <- Hc0, <- Hc1.
Qed.

End frame.

Section selection_frame.
Context `{Env}.

Lemma only_artifact_dropped_refl s : only_artifact_dropped s s.
Proof. unfold only_artifact_dropped. split_and!; try done. by left. Qed.

Lemma only_artifact_dropped_trans s1 s2 s3 :
  only_artifact_dropped s1 s2 → only_artifact_dropped s2 s3 →
  only_artifact_dropped s1 s3.
Proof.
  intros (Ha & Hb & Hc & Hd & He) (Ha' & Hb' & Hc' & Hd' & He').
  unfold only_artifact_dropped. split_and!; try congruence.
  destruct He' as [[-> ->]|[-> ->]]; [done|by right].
Qed.

Lemma invalidate_zip_frame s : only_artifact_dropped s (invalidate_zip s).
Proof. unfold only_artifact_dropped. split_and!; try done. by right. Qed.

Lemma run_app_check_frame s : only_artifact_dropped s (run_app_check s).
Proof.
  destruct (run_app_check_cases s) as [-> | ->];
    [apply only_artifact_dropped_refl|apply invalidate_zip_frame].
Qed.

Lemma on_event_frame ev w :
  is_selection_change ev →
  cache (on_event ev w) = cache w
  ∧ download_log (on_event ev w) = download_log w
  ∧ only_artifact_dropped (session w) (session (on_event ev w)).
Proof.
  destruct ev; try done; intros _; simpl; split_and!; try done.
  - unfold only_artifact_dropped. split_and!; try done. by left.
  - unfold only_artifact_dropped. split_and!; try done. by right.
Qed.

Lemma bar_idle_frame p ev w :
  (∀ p', ev ≠ ClickPrepare p') →
  cache (common_action_bar_ui p ev w).2 = cache w
  ∧ download_log (common_action_bar_ui p ev w).2 = download_log w
  ∧ only_artifact_dropped (session w) (session (common_action_bar_ui p ev w).2).
Proof.
  intros Hev. destruct (bar_idle p ev w Hev) as [-> | ->].
  - split_and!; try done. apply only_artifact_dropped_refl.
  - split_and!; try done. unfold only_artifact_dropped.
    split_and!; try done. by left.
Qed.

Lemma run_app_idle_frame app ev w :
  (∀ p', ev ≠ ClickPrepare p') →
  only_artifact_dropped (session w) (session (run_app app ev w).2)
  ∧ (app ≠ app3 ∨ (∀ v, v ∈ video_list (session w) → is_Some (cache w !! v)) →
     cache (run_app app ev w).2 = cache w
     ∧ download_log (run_app app ev w).2 = download_log w).
Proof.
  intros Hev. unfold run_app.
  set (w0 := with_session run_app_check w).
  pose proof (run_app_check_frame (session w)) as H0.
  pose proof (bar_idle_frame top ev w0 Hev) as (Hc1 & Hl1 & H1).
  destruct (common_action_bar_ui top ev w0) as [o1 w1]. cbn [fst snd] in *.
  pose proof (render_grid_frame app w1) as (Hs2 & _ & Hid).
  assert (app ≠ app3 ∨ (∀ v, v ∈ video_list (session w) → is_Some (cache w !! v)) →
          app ≠ app3 ∨ (∀ v, v ∈ video_list (session w1) → is_Some (cache w1 !! v)))
    as Hpre.
  { intros [?|Hall]; [by left|right]. rewrite Hc1.
    rewrite (proj1 H1). change (session w0) with (run_app_check (session w)).
    rewrite (proj1 H0). exact Hall. }
  pose proof (bar_idle_frame bottom ev (render_grid app w1) Hev)
    as (Hc3 & Hl3 & H3).
  destruct (common_action_bar_ui bottom ev (render_grid app w1)) as [o3 w3].
  cbn [fst snd] in *. rewrite Hs2 in H3. split.
  - eapply only_artifact_dropped_trans; [exact H0|].
    eapply only_artifact_dropped_trans; [exact H1|exact H3].
  - intros Happ. rewrite Hc3, Hl3, (Hid (Hpre Happ)), Hc1, Hl1. done.
Qed.

End selection_frame.

(** C7. Frame of a selection change: the handler of a toggle or of a
    select-all / deselect-all, with the check of the rerun it triggers,
    touches the toggles and checkboxes and, of the rest, only [zip_bytes]
    and [zipped_selection_ids] (select-all always discards them); the
    download cache, the video list, the ledger and the archive name are
    left as they were, also by the whole rerun (App 3 downloads while
    rendering only what is not yet cached, and only adds results).  No
    interaction but the cache-clear button drops a stored result. *)
Theorem selection_change_frame `{Env} (app : app_choice) (ev : event) (w : world) :
  is_selection_change ev →
  let w1 := with_session run_app_check (on_event ev w) in
  let w2 := (script_run app ev w).2 in
  (cache w1 = cache w
   ∧ download_log w1 = download_log w
   ∧ only_artifact_dropped (session w) (session w1))
  ∧ (∀ p, ev = ToggleSelectAll p →
       zip_bytes (session w1) = None ∧ zipped_selection_ids (session w1) = [])
  ∧ (only_artifact_dropped (session w) (session w2)
     ∧ cache w ⊆ cache w2
     ∧ (app ≠ app3 ∨ (∀ v, v ∈ video_list (session w) → is_Some (cache w !! v)) →
        cache w2 = cache w ∧ download_log w2 = download_log w))
  ∧ (∀ ev', ev' ≠ ClearCache → cache w ⊆ cache (script_run app ev' w).2)
  ∧ cache (on_event ClearCache w) = ∅.
Proof.
  intros Hev w1 w2.
  destruct (on_event_frame ev w Hev) as (Hc & Hl & Hf).
  assert (∀ p', ev ≠ ClickPrepare p') as Hnp by (intros p' ->; done).
  split_and!.
  - done.
  - done.
  - eapply only_artifact_dropped_trans; [exact Hf|apply run_app_check_frame].
  - intros p ->. subst w1. simpl.
    by destruct (run_app_check_cases
                   (toggle_all_selection p (flip_select_all p (session w))))
      as [-> | ->].
  - subst w2. unfold script_run.
    destruct (video_list (session (on_event ev w))); [done|].
    eapply only_artifact_dropped_trans; [exact Hf|].
    by apply run_app_idle_frame.
  - subst w2. unfold script_run. rewrite <- Hc.
    destruct (video_list (session (on_event ev w))); [done|].
    apply run_app_cache.
  - intros Happ. subst w2. unfold script_run.
    destruct (video_list (session (on_event ev w))); [done|].
    destruct (run_app_idle_frame app ev (on_event ev w) Hnp) as [_ Hid].
    destruct Hf as (Hvl & _).
    destruct Hid as [-> ->]; [|done].
    destruct Happ as [?|Hall]; [by left|right]. by rewrite Hc, Hvl.
  - intros ev' Hev'. unfold script_run.
    assert (cache (on_event ev' w) = cache w) as Hc' by (by destruct ev').
    rewrite <- Hc'.
    destruct (video_list (session (on_event ev' w))); [done|].
    apply run_app_cache.
  - done.
Qed.

Lemma selection_change_frame_witness :
  let w := @script_runs sample_env app3 [ToggleVideo (u "1"); ClickPrepare top]
             (fetched jane [video_a; video_b]) in
  let w1 := with_session (@run_app_check sample_env)
              (on_event (ToggleSelectAll top) w) in
  cache w1 = cache w
  ∧ zip_bytes (session w) = Some [(u "Jane_Doe_First_clip.mp4", [x01; x02; x03])]
  ∧ zip_bytes (session w1) = None.
Proof.
  destruct (@selection_change_frame sample_env app3 (ToggleSelectAll top)
              (@script_runs sample_env app3 [ToggleVideo (u "1"); ClickPrepare top]
                 (fetched jane [video_a; video_b])))
    as ((H1 & _) & H2 & _).
  - exact I.
  - destruct (H2 top eq_refl) as [H3 _].
    split_and!; [exact H1|vm_compute; reflexivity|exact H3].
Defined.

(** ** Validity of the offered archive *)

Section validity.
Context `{Env}.

Lemma zip_download_button_some s :
  is_Some (zip_download_button s) ↔ truthy_zip (zip_bytes s) = true.
Proof.
  unfold zip_download_button. destruct (zip_bytes s) as [a|] eqn:Hz.
  - rewrite truthy_zip_some. split; [done|by eexists].
  - simpl. split; [by intros [? ?]|done].
Qed.

(** The check of a run that does not follow a download click. *)
Lemma run_app_check_valid s :
  download_triggered s = false →
  (truthy_zip (zip_bytes (run_app_check s)) = true ↔
   truthy_zip (zip_bytes s) = true
   ∧ selected_ids s = list_to_set (zipped_selection_ids s))
  ∧ (truthy_zip (zip_bytes (run_app_check s)) = true → run_app_check s = s)
  ∧ (truthy_zip (zip_bytes s) = true →
     selected_ids s ≠ list_to_set (zipped_selection_ids s) →
     run_app_check s = invalidate_zip s).
Proof.
  intros Hd. unfold run_app_check. rewrite Hd. simpl.
  destruct (truthy_zip (zip_bytes s)) eqn:Ht; simpl.
  - case_bool_decide as Heq; simpl.
    + rewrite Ht. split_and!; [by split|done|done].
    + split_and!; [split; [done|by intros [_ ?]]|done|done].
  - rewrite Ht. split_and!; [split; [done|by intros [? _]]|done|done].
Qed.

Lemma bar_idle_offer p ev w :
  (∀ p', ev ≠ ClickPrepare p') →
  download_triggered (session w) = false →
  common_action_bar_ui p ev w = (zip_download_button (session w), w).
Proof.
  intros Hev Hd. unfold common_action_bar_ui.
  assert (match ev with
          | ClickPrepare p' =>
              if bool_decide (p' = p)
                 && negb (bool_decide (length (selected_videos (session w)) = 0%nat))
              then prepare_zip (selected_videos (session w)) (user_id (session w)) w
              else w
          | _ => w
          end = w) as ->.
  { destruct ev; try done. by destruct (Hev p0). }
  by rewrite Hd.
Qed.

Lemma run_app_check_flag s :
  download_triggered (run_app_check s) = download_triggered s.
Proof. by destruct (run_app_check_cases s) as [-> | ->]. Qed.

(** A run without prepare click and without pending download click:
    the session it leaves is the checked one and both bars show the same
    button. *)
Lemma run_app_idle app ev w :
  (∀ p', ev ≠ ClickPrepare p') →
  download_triggered (session w) = false →
  (run_app app ev w).1
  = (zip_download_button (run_app_check (session w)),
     zip_download_button (run_app_check (session w)))
  ∧ session (run_app app ev w).2 = run_app_check (session w).
Proof.
  intros Hev Hd. unfold run_app.
  rewrite bar_idle_offer by (done || by (simpl; rewrite run_app_check_flag)).
  pose proof (render_grid_frame app (with_session run_app_check w))
    as (Hs & _ & _).
  rewrite bar_idle_offer
    by (done || by (rewrite Hs; simpl; rewrite run_app_check_flag)).
  cbn [fst snd]. by rewrite Hs.
Qed.

Lemma is_on_flip_toggle c s v :
  is_on (flip_toggle c s) v
  = if decide (video_id v = c) then negb (is_on s v) else is_on s v.
Proof.
  unfold is_on, flip_toggle. simpl. destruct (decide (video_id v = c)) as [->|Hne].
  - by rewrite lookup_insert_eq.
  - by rewrite lookup_insert_ne.
Qed.

Lemma elem_of_selected_ids c s :
  c ∈ selected_ids s ↔ ∃ v, v ∈ video_list s ∧ video_id v = c ∧ is_on s v = true.
Proof.
  unfold selected_ids, selected_videos. rewrite elem_of_list_to_set.
  rewrite list_elem_of_fmap. split.
  - intros (v & -> & (Hon & Hv)%list_elem_of_filter). by exists v.
  - intros (v & Hv & <- & Hon). exists v. split; [done|].
    by apply list_elem_of_filter.
Qed.

(** Flipping the toggle of a listed video changes the selection set. *)
Lemma flip_toggle_changes c s :
  c ∈ video_id <$> video_list s →
  selected_ids (flip_toggle c s) ≠ selected_ids s.
Proof.
  intros (v & -> & Hv)%list_elem_of_fmap Heq.
  assert (video_list (flip_toggle (video_id v) s) = video_list s) as Hvl by done.
  destruct (is_on s v) eqn:Hon.
  - assert (video_id v ∈ selected_ids s) as Hin
      by (apply elem_of_selected_ids; by exists v).
    rewrite <- Heq in Hin. apply elem_of_selected_ids in Hin as (v' & _ & Hid & Hon').
    rewrite is_on_flip_toggle, decide_True in Hon' by done.
    unfold is_on in *. rewrite Hid in Hon'. rewrite Hon in Hon'. done.
  - assert (video_id v ∈ selected_ids (flip_toggle (video_id v) s)) as Hin.
    { apply elem_of_selected_ids. exists v. split_and!; [done|done|].
      rewrite is_on_flip_toggle, decide_True by done. by rewrite Hon. }
    rewrite Heq in Hin. apply elem_of_selected_ids in Hin as (v' & _ & Hid & Hon').
    unfold is_on in *. rewrite Hid in Hon'. rewrite Hon in Hon'. done.
Qed.

Lemma selected_videos_ext s s' :
  video_list s' = video_list s → (∀ v, is_on s' v = is_on s v) →
  selected_videos s' = selected_videos s.
Proof.
  intros Hvl Hon. unfold selected_videos. rewrite Hvl.
  apply list_filter_iff. intros v. by rewrite Hon.
Qed.

End validity.

Section validity_runs.
Context `{Env}.

Lemma on_event_idle ev w :
  (∀ p, ev ≠ ClickDownloadZip p) →
  video_list (session (on_event ev w)) = video_list (session w)
  ∧ download_triggered (session (on_event ev w)) = download_triggered (session w).
Proof. intros Hev. destruct ev; try done. by destruct (Hev p). Qed.

Lemma script_run_idle app ev w :
  (∀ p, ev ≠ ClickPrepare p) →
  (∀ p, ev ≠ ClickDownloadZip p) →
  download_triggered (session w) = false →
  video_list (session w) ≠ [] →
  (script_run app ev w).1
  = (zip_download_button (run_app_check (session (on_event ev w))),
     zip_download_button (run_app_check (session (on_event ev w))))
  ∧ session (script_run app ev w).2 = run_app_check (session (on_event ev w)).
Proof.
  intros Hp Hd Hflag Hvl. unfold script_run.
  destruct (on_event_idle ev w Hd) as [Hvl' Hflag'].
  destruct (video_list (session (on_event ev w))) eqn:E; [congruence|].
  apply run_app_idle; [done|congruence].
Qed.

Lemma run_app_check_none s :
  truthy_zip (zip_bytes s) = false → run_app_check s = s.
Proof.
  intros Ht. unfold run_app_check. rewrite Ht. simpl. by destruct (negb _).
Qed.

End validity_runs.

(** ** More on the sanitiser *)

Section sanitize_more.

Lemma sanitize_filename_truthy name :
  truthy name = true →
  sanitize_filename name
  = Rule.truncate (Rule.strip (Rule.underscore_runs (py_str name))).
Proof.
  intros Ht. unfold sanitize_filename. rewrite Ht. simpl.
  by rewrite sub_ws_runs, sub_illegal_strip.
Qed.

Lemma sanitize_filename_falsy name :
  truthy name = false → sanitize_filename name = placeholder.
Proof. intros Ht. unfold sanitize_filename. by rewrite Ht. Qed.

Lemma underscore_runs_no_space s :
  Forall (fun c => ws_class c = false) (Rule.underscore_runs s).
Proof.
  remember (length s) as n eqn:Hn. revert s Hn.
  induction n as [n IH] using lt_wf_ind. intros [|c t] Hn; [by constructor|].
  destruct (ws_class c) eqn:Hc.
  - rewrite underscore_runs_cons_ws by done. apply Forall_app. split.
    + by repeat constructor.
    + apply (IH (length (drop (Re.span ws_class t) t))); [|done].
      subst n. rewrite length_drop. simpl. lia.
  - rewrite underscore_runs_cons_other by done. constructor; [done|].
    apply (IH (length t)); [subst n; simpl; lia|done].
Qed.

Lemma strip_clean s :
  Forall (fun c => ws_class c = false) s → Forall clean_char (Rule.strip s).
Proof.
  intros Hs. apply Forall_forall. intros c [Hc Hin]%list_elem_of_filter.
  split; [|done]. by eapply Forall_forall in Hs.
Qed.

Lemma truncate_clean s : Forall clean_char s → Forall clean_char (Rule.truncate s).
Proof.
  intros Hs. unfold Rule.truncate. destruct (100 <? length s)%nat; [|done].
  apply Forall_app. split; [by apply Forall_take|by repeat constructor].
Qed.

Lemma truncate_idem s : Rule.truncate (Rule.truncate s) = Rule.truncate s.
Proof.
  unfold Rule.truncate. destruct (100 <? length s)%nat eqn:E; [|by rewrite E].
  apply Nat.ltb_lt in E.
  assert (length (take 100 s) = 100%nat) as Hl by (rewrite length_take; lia).
  rewrite length_app, Hl. change (length (u "..")) with 2%nat.
  change (100 <? 100 + 2)%nat with true. cbv iota.
  f_equal. by apply take_app_length'.
Qed.

Lemma clean_text_unchanged s :
  Forall clean_char s → Rule.strip (Rule.underscore_runs s) = s.
Proof.
  intros Hs. rewrite underscore_runs_no_ws
    by (eapply Forall_impl; [exact Hs|by intros c [? ?]]).
  unfold Rule.strip. induction Hs as [|c t [_ Hc] _ IH]; [done|].
  by rewrite filter_cons_True, IH.
Qed.

Lemma span_all cls s : Forall (fun c => cls c = true) s → Re.span cls s = length s.
Proof. induction 1 as [|c t Hc _ IH]; [done|]. simpl. by rewrite Hc, IH. Qed.

Lemma sanitize_filename_clean_char name :
  Forall clean_char (sanitize_filename name).
Proof.
  destruct (truthy name) eqn:Ht.
  - rewrite sanitize_filename_truthy by done.
    apply truncate_clean, strip_clean, underscore_runs_no_space.
  - rewrite sanitize_filename_falsy by done.
    apply (bool_decide_unpack _). by vm_compute.
Qed.

Lemma final_filename_nonempty v : truthy_name (Some (final_filename v)) = true.
Proof.
  unfold final_filename.
  by destruct (sanitize_filename (dict_get (video_info v) "uploader" (PyStr (u "user")))).
Qed.

End sanitize_more.

(** X1. Whatever the input (string, number or None), the sanitised name
    holds no whitespace character and none of the nine stripped
    characters. *)
Theorem sanitize_filename_clean (name : pyval) :
  Forall (fun c => ws_class c = false ∧ illegal_class c = false)
    (sanitize_filename name).
Proof.
  destruct (truthy name) eqn:Ht.
  - rewrite sanitize_filename_truthy by done.
    apply truncate_clean, strip_clean, underscore_runs_no_space.
  - rewrite sanitize_filename_falsy by done.
    apply (bool_decide_unpack _). by vm_compute.
Qed.

(** X2. Sanitising twice: a non-empty sanitised name is a fixed point of
    [sanitize_filename]; an empty one (an input made of stripped
    characters only) is turned into the placeholder by the second pass. *)
Theorem sanitize_filename_twice (name : pyval) :
  (sanitize_filename name ≠ [] →
   sanitize_filename (PyStr (sanitize_filename name)) = sanitize_filename name)
  ∧ (sanitize_filename name = [] →
     sanitize_filename (PyStr (sanitize_filename name)) = placeholder).
Proof.
  split; [|by intros ->].
  intros Hne. rewrite (sanitize_filename_str _ Hne).
  rewrite clean_text_unchanged by apply sanitize_filename_clean_char.
  destruct (truthy name) eqn:Ht.
  - rewrite sanitize_filename_truthy by done. apply truncate_idem.
  - by rewrite sanitize_filename_falsy by done.
Qed.

Lemma sanitize_filename_twice_witness :
  sanitize_filename (PyStr (sanitize_filename (PyStr (u "a  b?c"))))
  = sanitize_filename (PyStr (u "a  b?c")).
Proof.
  apply (proj1 (sanitize_filename_twice (PyStr (u "a  b?c")))).
  vm_compute. discriminate.
Defined.

(** X3. Length: a sanitised name has at most 102 characters, for every
    input; a non-empty input free of whitespace and of stripped
    characters, of at most 100 characters, is returned unchanged. *)
Theorem sanitize_filename_bound (name : pyval) :
  (length (sanitize_filename name) ≤ 102)%nat
  ∧ (∀ s : pystr,
       s ≠ [] →
       Forall (fun c => ws_class c = false ∧ illegal_class c = false) s →
       (length s ≤ 100)%nat →
       sanitize_filename (PyStr s) = s).
Proof.
  split.
  - destruct (truthy name) eqn:Ht.
    + rewrite sanitize_filename_truthy by done. apply truncate_length.
    + rewrite sanitize_filename_falsy by done.
      change (length placeholder) with 14%nat. lia.
  - intros s Hne Hclean Hlen. rewrite sanitize_filename_str by done.
    rewrite (clean_text_unchanged s Hclean). unfold Rule.truncate.
    apply Nat.ltb_ge in Hlen. by rewrite Hlen.
Qed.

Lemma sanitize_filename_bound_witness :
  sanitize_filename (PyStr (u "clip-01.final")) = u "clip-01.final".
Proof.
  apply (proj2 (sanitize_filename_bound PyNone) (u "clip-01.final")).
  - discriminate.
  - apply (bool_decide_unpack _). vm_compute. exact I.
  - vm_compute. lia.
Defined.

(** X4. A non-empty input made of whitespace only is sanitised to a
    single underscore. *)
Theorem sanitize_filename_blank (s : pystr) :
  s ≠ [] →
  Forall (fun c => ws_class c = true) s →
  sanitize_filename (PyStr s) = u "_".
Proof.
  intros Hne Hws. rewrite sanitize_filename_str by done.
  destruct Hws as [|c t Hc Ht]; [done|].
  rewrite underscore_runs_cons_ws by done.
  rewrite (span_all ws_class t Ht), drop_all. done.
Qed.

Lemma sanitize_filename_blank_witness :
  sanitize_filename (PyStr [32; 9; 10; 160]) = u "_".
Proof.
  apply sanitize_filename_blank.
  - discriminate.
  - apply (bool_decide_unpack _). vm_compute. exact I.
Defined.

(** X5. The name given to a downloaded item: it ends in [.mp4], has
    between 5 and 209 characters, and holds no whitespace and none of the
    stripped characters, in particular no slash or backslash: an archive
    member never names a path outside the folder it is extracted to. *)
Theorem final_filename_shape (v : video) :
  (∃ base, final_filename v = base ++ u ".mp4")
  ∧ (5 ≤ length (final_filename v) ≤ 209)%nat
  ∧ Forall (fun c => ws_class c = false ∧ illegal_class c = false) (final_filename v)
  ∧ truthy_name (Some (final_filename v)) = true.
Proof.
  unfold final_filename.
  set (up := sanitize_filename (dict_get _ _ _)).
  set (ti := sanitize_filename _).
  assert (length up ≤ 102)%nat as Hup.
  { subst up. destruct (truthy (dict_get (video_info v) "uploader" (PyStr (u "user")))) eqn:Ht.
    - rewrite sanitize_filename_truthy by done. apply truncate_length.
    - rewrite sanitize_filename_falsy by done. change (length placeholder) with 14%nat. lia. }
  assert (length ti ≤ 102)%nat as Hti
    by (subst ti; destruct (video_title v); apply sanitize_filename_length).
  split_and!.
  - exists (up ++ u "_" ++ ti). by rewrite <- !app_assoc.
  - rewrite !length_app. change (length (u "_")) with 1%nat.
    change (length (u ".mp4")) with 4%nat. lia.
  - rewrite !length_app. change (length (u "_")) with 1%nat.
    change (length (u ".mp4")) with 4%nat. lia.
  - rewrite !Forall_app. split_and!.
    + apply sanitize_filename_clean_char.
    + by repeat constructor.
    + apply sanitize_filename_clean_char.
    + by repeat constructor.
  - destruct up; [|done]. simpl. done.
Qed.

(** X6. The element id of a copy-link button starts with [copy_btn_],
    has at most 111 characters and, whatever the key, holds no
    whitespace, double quote, backslash or angle bracket. *)
Theorem copy_btn_id_shape (key : pyval) :
  (∃ rest, copy_btn_id key = u "copy_btn_" ++ rest)
  ∧ (length (copy_btn_id key) ≤ 111)%nat
  ∧ Forall (fun c => ws_class c = false ∧ illegal_class c = false) (copy_btn_id key).
Proof.
  unfold copy_btn_id. split_and!.
  - by eexists.
  - rewrite length_app. change (length (u "copy_btn_")) with 9%nat.
    pose proof (sanitize_filename_length (py_str key)). lia.
  - apply Forall_app. split; [|apply sanitize_filename_clean_char].
    apply (bool_decide_unpack _). by vm_compute.
Qed.

(** ** More on the single-item download and the assembly *)

(** X7. [robust_download_to_memory] returns either [(None, None)] or the
    bytes of the file with the name built from the descriptor; it passes
    the test of its callers exactly when the descriptor has a
    ['webpage_url'] and the download produced a non-empty file (a missing
    key and an empty file count as failures); the session and the cache
    are left alone and the call is logged once. *)
Theorem robust_download_outcome `{Env} (v : video) (w : world) :
  let r := (robust_download_to_memory v w).1 in
  (r = (None, None) ∨ ∃ b, r = (Some b, Some (final_filename v)))
  ∧ (succeeded (v, r) ↔
     ∃ url ext b, video_info v !! "webpage_url" = Some url
                  ∧ ydl_download (length (download_log w)) url = Some (ext, b)
                  ∧ b ≠ [])
  ∧ (robust_download_to_memory v w).2
    = World (session w) (cache w) (download_log w ++ [v]).
Proof.
  intros r. subst r. split_and!; [| |apply robust_download_log].
  - unfold robust_download_to_memory.
    destruct (video_info v !! "webpage_url") as [url|]; [|by left].
    destruct (ydl_download _ url) as [[ext b]|]; [right; by eexists|by left].
  - pose proof (final_filename_nonempty v) as Hname.
    unfold robust_download_to_memory, succeeded.
    destruct (video_info v !! "webpage_url") as [url|]; cbn [fst snd].
    + destruct (ydl_download _ url) as [[ext b]|] eqn:Hy; cbn [fst snd].
      * rewrite Hname, andb_true_r. split.
        -- intros Hb. exists url, ext, b. split_and!; [done|done|].
           intros ->. by simpl in Hb.
        -- intros (? & ? & b' & [= <-] & Hy' & Hb).
           rewrite Hy in Hy'. injection Hy' as _ <-. by destruct b.
      * split; [done|]. intros (? & ? & ? & [= <-] & Hy' & _).
        by rewrite Hy in Hy'.
    + split; [done|]. by intros (? & ? & ? & ? & _).
Qed.

Section assembly_more.
Context `{Env}.

Lemma robust_download_shape v w :
  (robust_download_to_memory v w).1 = (None, None)
  ∨ ∃ b, (robust_download_to_memory v w).1 = (Some b, Some (final_filename v)).
Proof.
  unfold robust_download_to_memory.
  destruct (video_info v !! "webpage_url") as [url|]; [|by left].
  destruct (ydl_download _ url) as [[ext b]|]; [right; by eexists|by left].
Qed.

Lemma fetch_failed_sublist sel w : fetch_failed sel w `sublist_of` sel.
Proof.
  unfold fetch_failed. rewrite <- (downloads_fst sel w) at 2.
  apply fmap_sublist, sublist_filter.
Qed.

Lemma fetched_ok_sublist sel w : (fetched_ok sel w).*1 `sublist_of` sel.
Proof.
  unfold fetched_ok. rewrite <- (downloads_fst sel w) at 2.
  apply fmap_sublist, sublist_filter.
Qed.

Lemma prepare_zip_log sel uid w :
  download_log (prepare_zip sel uid w) = download_log w ++ sel.
Proof.
  destruct sel as [|v t]; [by rewrite app_nil_r|].
  by rewrite prepare_zip_nonempty.
Qed.

End assembly_more.

(** ** Script runs: flag, invariant, reruns *)

Section runs_more.
Context `{Env}.

Lemma run_app_check_keeps s :
  video_list (run_app_check s) = video_list s
  ∧ toggles (run_app_check s) = toggles s
  ∧ selected_videos (run_app_check s) = selected_videos s
  ∧ user_id (run_app_check s) = user_id s
  ∧ download_triggered (run_app_check s) = download_triggered s.
Proof. by destruct (run_app_check_cases s) as [-> | ->]. Qed.

Lemma bar_flag p ev w :
  download_triggered (session (common_action_bar_ui p ev w).2) = false.
Proof.
  unfold common_action_bar_ui. cbn [snd].
  set (w1 := match ev with ClickPrepare _ => _ | _ => w end).
  by destruct (download_triggered (session w1)) eqn:E.
Qed.

Lemma on_event_video_list ev w :
  video_list (session (on_event ev w)) = video_list (session w)
  ∧ user_id (session (on_event ev w)) = user_id (session w).
Proof. by destruct ev. Qed.

Lemma prepare_zip_flag sel uid w :
  download_triggered (session (prepare_zip sel uid w)) = download_triggered (session w).
Proof. destruct sel; [done|]. by rewrite prepare_zip_nonempty. Qed.

Lemma script_run_flag app ev w :
  video_list (session w) ≠ [] →
  download_triggered (session (script_run app ev w).2) = false.
Proof.
  intros Hvl. unfold script_run.
  destruct (on_event_video_list ev w) as [Hvl' _].
  destruct (video_list (session (on_event ev w))) eqn:E; [congruence|].
  unfold run_app.
  destruct (common_action_bar_ui top ev _) as [o1 w1].
  pose proof (bar_flag bottom ev (render_grid app w1)) as Hb.
  by destruct (common_action_bar_ui bottom ev (render_grid app w1)) as [o3 w3].
Qed.

Lemma bar_prepare p w :
  selected_videos (session w) ≠ [] →
  download_triggered (session w) = false →
  common_action_bar_ui p (ClickPrepare p) w
  = (zip_download_button
       (session (prepare_zip (selected_videos (session w)) (user_id (session w)) w)),
     prepare_zip (selected_videos (session w)) (user_id (session w)) w).
Proof.
  intros Hsel Hflag. unfold common_action_bar_ui.
  rewrite bool_decide_eq_true_2 by done.
  rewrite bool_decide_eq_false_2
    by (by destruct (selected_videos (session w))).
  cbn [andb negb]. by rewrite prepare_zip_flag, Hflag.
Qed.

Lemma bar_prepare_other p p' w :
  p' ≠ p →
  download_triggered (session w) = false →
  common_action_bar_ui p (ClickPrepare p') w = (zip_download_button (session w), w).
Proof.
  intros Hp Hflag. unfold common_action_bar_ui.
  rewrite bool_decide_eq_false_2 by done. cbn [andb]. by rewrite Hflag.
Qed.

(** The run of a prepare click: the session it leaves is that of
    [prepare_zip] on the current selection, and the bottom bar offers its
    archive. *)
Lemma script_run_prepare app p w :
  selected_videos (session w) ≠ [] →
  download_triggered (session w) = false →
  ∃ wx, session wx = run_app_check (session w)
        ∧ session (script_run app (ClickPrepare p) w).2
          = session (prepare_zip (selected_videos (session w))
                       (user_id (session w)) wx)
        ∧ (script_run app (ClickPrepare p) w).1.2
          = zip_download_button
              (session (prepare_zip (selected_videos (session w))
                          (user_id (session w)) wx)).
Proof.
  intros Hsel Hflag. unfold script_run. cbn [on_event].
  destruct (video_list (session w)) as [|v0 vs] eqn:Hvl.
  { unfold selected_videos in Hsel. by rewrite Hvl in Hsel. }
  unfold run_app. set (w0 := with_session run_app_check w).
  destruct (run_app_check_keeps (session w)) as (_ & _ & Hs0 & Hu0 & Hf0).
  assert (selected_videos (session w0) = selected_videos (session w)) as Hs0' by done.
  assert (user_id (session w0) = user_id (session w)) as Hu0' by done.
  assert (download_triggered (session w0) = false) as Hf0'
    by (simpl; congruence).
  destruct p.
  - rewrite bar_prepare by (done || congruence).
    rewrite Hs0', Hu0'.
    set (w1 := prepare_zip _ _ w0).
    pose proof (render_grid_frame app w1) as (Hs2 & _ & _).
    rewrite bar_prepare_other; [|done|].
    + cbn [fst snd]. exists w0. by rewrite Hs2.
    + rewrite Hs2. subst w1. by rewrite prepare_zip_flag.
  - rewrite bar_prepare_other by done.
    pose proof (render_grid_frame app w0) as (Hs2 & _ & _).
    rewrite bar_prepare by (rewrite Hs2; congruence).
    cbn [fst snd]. rewrite Hs2, Hs0', Hu0'. exists (render_grid app w0).
    by rewrite Hs2.
Qed.

Lemma NoDup_fmap_elem_inj {A B} (f : A → B) (l : list A) x y :
  NoDup (f <$> l) → x ∈ l → y ∈ l → f x = f y → x = y.
Proof.
  induction l as [|a l IH]; intros Hnd Hx Hy Hf; [by apply elem_of_nil in Hx|].
  rewrite fmap_cons in Hnd. apply NoDup_cons in Hnd as [Ha Hnd].
  apply elem_of_cons in Hx as [->|Hx], Hy as [->|Hy]; try done.
  - exfalso. apply Ha. rewrite Hf. by apply list_elem_of_fmap_2.
  - exfalso. apply Ha. rewrite <- Hf. by apply list_elem_of_fmap_2.
  - by apply IH.
Qed.

(** With distinct identities, the recorded set equals the selected set
    exactly when the ledger of the run is empty. *)
Lemma recorded_ids_complete (sel failed : list video) :
  NoDup (video_id <$> sel) →
  failed ⊆ sel →
  (list_to_set (video_id <$> sel) : gset pystr)
  = list_to_set (video_id <$> filter (fun v => v ∉ failed) sel)
  ↔ failed = [].
Proof.
  intros Hnd Hsub. split.
  - intros Heq. destruct failed as [|v t]; [done|]. exfalso.
    assert (v ∈ sel) as Hv by (apply Hsub; by left).
    assert (video_id v ∈ (list_to_set (video_id <$> sel) : gset pystr)) as Hin
      by (apply elem_of_list_to_set; by apply list_elem_of_fmap_2).
    rewrite Heq in Hin. apply elem_of_list_to_set in Hin.
    apply list_elem_of_fmap in Hin as (v' & Hid & [Hn Hv']%list_elem_of_filter).
    apply Hn. rewrite <- (NoDup_fmap_elem_inj video_id sel v v' Hnd Hv Hv' Hid).
    by left.
  - intros ->. f_equal. f_equal. symmetry.
    induction sel as [|v t IH]; [done|].
    rewrite filter_cons_True by apply not_elem_of_nil. f_equal. apply IH.
    + rewrite fmap_cons in Hnd. by apply NoDup_cons in Hnd as [_ ?].
    + apply list_subseteq_nil.
Qed.

End runs_more.

(** X11. Every script run over a non-empty video list ends with the
    download flag cleared, whatever the interaction: the toast of a
    download click is shown in one run only. *)
Theorem script_run_clears_flag `{Env} (app : app_choice) (ev : event) (w : world) :
  video_list (session w) ≠ [] →
  download_triggered (session (script_run app ev w).2) = false.
Proof.
  intros Hvl. unfold script_run.
  destruct (on_event_video_list ev w) as [Hvl' _].
  destruct (video_list (session (on_event ev w))) eqn:E; [congruence|].
  unfold run_app.
  destruct (common_action_bar_ui top ev _) as [o1 w1].
  pose proof (bar_flag bottom ev (render_grid app w1)) as Hb.
  by destruct (common_action_bar_ui bottom ev (render_grid app w1)) as [o3 w3].
Qed.

Lemma script_run_clears_flag_witness :
  let w := @script_runs sample_env app2 [ToggleVideo (u "1"); ClickPrepare bottom]
             (fetched jane [video_a; video_b]) in
  download_triggered
    (session (@script_run sample_env app2 (ClickDownloadZip top) w).2) = false.
Proof.
  apply (@script_run_clears_flag sample_env). vm_compute. discriminate.
Defined.

Section invariant.
Context `{Env}.

Lemma artifact_ok_invalidate videos s :
  artifact_ok videos s → artifact_ok videos (invalidate_zip s).
Proof.
  intros (H1 & H2 & H3 & H4 & H5). unfold artifact_ok. simpl.
  split_and!; try done; apply list_subseteq_nil.
Qed.

Lemma artifact_ok_check videos s :
  artifact_ok videos s → artifact_ok videos (run_app_check s).
Proof.
  destruct (run_app_check_cases s) as [-> | ->];
    [done|apply artifact_ok_invalidate].
Qed.

Lemma artifact_ok_on_event videos ev w :
  artifact_ok videos (session w) →
  artifact_ok videos (session (on_event ev w)).
Proof.
  intros Hok. destruct ev; try done.
  apply artifact_ok_invalidate. exact Hok.
Qed.

Lemma artifact_ok_prepare videos sel uid w :
  sel ⊆ videos →
  artifact_ok videos (session w) →
  artifact_ok videos (session (prepare_zip sel uid w)).
Proof.
  intros Hsub Hok. destruct sel as [|v t]; [done|].
  rewrite prepare_zip_nonempty by done.
  destruct Hok as (H1 & H2 & H3 & H4 & H5).
  unfold artifact_ok. cbn [session video_list user_id zip_bytes
    zipped_selection_ids zip_filename failed_videos].
  split_and!; try done.
  - intros _. by exists uid.
  - intros i (v' & -> & [_ Hv']%list_elem_of_filter)%list_elem_of_fmap.
    apply list_elem_of_fmap_2, Hsub, Hv'.
  - etrans; [apply sublist_subseteq, fetch_failed_sublist|done].
Qed.

Lemma artifact_ok_bar videos p ev w :
  artifact_ok videos (session w) →
  artifact_ok videos (session (common_action_bar_ui p ev w).2)
  ∧ ∀ a f, (common_action_bar_ui p ev w).1 = Some (a, f) →
           ∃ uid, f = Some (u "tiktok_download_" ++ uid ++ u ".zip").
Proof.
  intros Hok. unfold common_action_bar_ui. cbn [fst snd].
  set (w1 := match ev with ClickPrepare _ => _ | _ => w end).
  assert (artifact_ok videos (session w1)) as Hok1.
  { subst w1. destruct ev; try done. destruct (_ && _); [|done].
    apply artifact_ok_prepare; [|done].
    destruct Hok as (<- & _). apply list_subseteq_filter. }
  split.
  - by destruct (download_triggered (session w1)).
  - intros a f. unfold zip_download_button.
    destruct (truthy_zip _); [|done].
    destruct (zip_bytes (session w1)) as [a'|] eqn:Hz; [|done].
    intros [= _ <-]. destruct Hok1 as (_ & _ & Hname & _).
    apply Hname. rewrite Hz. by eexists.
Qed.

Lemma artifact_ok_run_app videos app ev w :
  artifact_ok videos (session w) →
  artifact_ok videos (session (run_app app ev w).2)
  ∧ ∀ a f, (run_app app ev w).1.1 = Some (a, f) ∨ (run_app app ev w).1.2 = Some (a, f) →
           ∃ uid, f = Some (u "tiktok_download_" ++ uid ++ u ".zip").
Proof.
  intros Hok. unfold run_app.
  pose proof (artifact_ok_check videos _ Hok) as Hok0.
  destruct (artifact_ok_bar videos top ev (with_session run_app_check w) Hok0)
    as [Hok1 Hn1].
  destruct (common_action_bar_ui top ev _) as [o1 w1]. cbn [fst snd] in *.
  pose proof (render_grid_frame app w1) as (Hs2 & _ & _).
  destruct (artifact_ok_bar videos bottom ev (render_grid app w1)) as [Hok3 Hn3];
    [by rewrite Hs2|].
  destruct (common_action_bar_ui bottom ev _) as [o3 w3]. cbn [fst snd] in *.
  split; [done|]. intros a f [Ho|Ho]; eauto.
Qed.

Lemma session_ok_script_run videos app ev w :
  videos ≠ [] →
  session_ok videos (session w) →
  session_ok videos (session (script_run app ev w).2)
  ∧ ∀ a f, (script_run app ev w).1.1 = Some (a, f)
           ∨ (script_run app ev w).1.2 = Some (a, f) →
           ∃ uid, f = Some (u "tiktok_download_" ++ uid ++ u ".zip").
Proof.
  intros Hne [Hok Hflag].
  assert (video_list (session w) ≠ []) as Hvl by (by destruct Hok as (-> & _)).
  pose proof (script_run_flag app ev w Hvl) as Hflag'.
  pose proof (artifact_ok_on_event videos ev w Hok) as Hok'.
  unfold script_run in *.
  destruct (video_list (session (on_event ev w))).
  - split; [by split|]. by intros a f [?|?].
  - destruct (artifact_ok_run_app videos app ev _ Hok') as [Hok'' Hn].
    split; [by split|done].
Qed.

Lemma session_ok_script_runs videos app evs w :
  videos ≠ [] →
  session_ok videos (session w) →
  session_ok videos (session (script_runs app evs w)).
Proof.
  intros Hne. revert w. induction evs as [|ev evs IH]; intros w Hok; [done|].
  simpl. apply IH. by apply session_ok_script_run.
Qed.

End invariant.

(** X12. Invariant of the sessions reached from a fetched catalogue by
    any sequence of toggles, select-all clicks, prepare clicks, download
    clicks, cache clears and plain reruns: the video list stays that of
    the fetch, the download flag is clear between runs, the recorded
    identities are empty when no archive is stored and always identities
    of listed videos, the ledger holds listed videos only, and an
    archive, stored or offered by a further run, always carries a file
    name of the form tiktok_download_<...>.zip. *)
Theorem reachable_session_ok `{Env}
    (app : app_choice) (evs : list event) (uid : pystr) (videos : list video) :
  videos ≠ [] →
  let w := script_runs app evs (fetched uid videos) in
  session_ok videos (session w)
  ∧ ∀ ev a f, (script_run app ev w).1.1 = Some (a, f)
              ∨ (script_run app ev w).1.2 = Some (a, f) →
              ∃ uid', f = Some (u "tiktok_download_" ++ uid' ++ u ".zip").
Proof.
  intros Hne w.
  assert (session_ok videos (session w)) as Hok.
  { apply session_ok_script_runs; [done|].
    unfold session_ok, artifact_ok. simpl.
    split_and!; try done; try apply list_subseteq_nil;
      try (intros Hs; by apply is_Some_None in Hs). }
  split; [done|]. intros ev.
  by apply (session_ok_script_run videos app ev w Hne Hok).
Qed.

Lemma reachable_session_ok_witness :
  let w := @script_runs sample_env app3
             [ToggleSelectAll top; ClickPrepare top; ClickDownloadZip top; ClearCache]
             (fetched jane [video_a; video_b; video_c]) in
  session_ok [video_a; video_b; video_c] (session w).
Proof.
  apply (@reachable_session_ok sample_env app3
           [ToggleSelectAll top; ClickPrepare top; ClickDownloadZip top; ClearCache]
           jane [video_a; video_b; video_c]).
  discriminate.
Defined.

(** ** Select all *)

Section select_all_more.

Lemma foldl_insert_lookup {A} (f : A → pystr) (b : bool) (l : list A)
    (t : gmap pystr bool) (k : pystr) :
  foldl (fun t0 x => <[f x := b]> t0) t l !! k
  = if decide (k ∈ f <$> l) then Some b else t !! k.
Proof.
  revert t. induction l as [|x l IH]; intros t; cbn [foldl].
  - destruct (decide (k ∈ f <$> [])) as [Hin|]; [by apply elem_of_nil in Hin|done].
  - rewrite IH, fmap_cons.
    destruct (decide (k ∈ f <$> l)) as [Hin|Hnin],
             (decide (k ∈ f x :: (f <$> l))) as [Hin'|Hnin']; try done.
    + exfalso. apply Hnin'. by right.
    + apply elem_of_cons in Hin' as [->|?]; [|done]. apply lookup_insert_eq.
    + apply lookup_insert_ne. intros <-. apply Hnin'. by left.
Qed.

Lemma is_on_toggle_all p s v :
  v ∈ video_list s → is_on (toggle_all_selection p s) v = select_all p s.
Proof.
  intros Hv. unfold is_on, toggle_all_selection. cbn [invalidate_zip toggles].
  rewrite foldl_insert_lookup. rewrite decide_True; [done|].
  by apply list_elem_of_fmap_2.
Qed.

End select_all_more.

(** X13. Select all / deselect all: the handler gives every listed video
    the new value of its checkbox, so afterwards the selection is the whole
    list when the box was ticked and empty when it was cleared, whatever
    the toggles were before; the stored archive is discarded either way. *)
Theorem toggle_all_selection_all_or_none (p : position) (w : world) :
  let s := session w in
  let s' := session (on_event (ToggleSelectAll p) w) in
  selected_videos s' = (if select_all p s then [] else video_list s)
  ∧ select_all p s' = negb (select_all p s)
  ∧ video_list s' = video_list s
  ∧ zip_bytes s' = None
  ∧ zipped_selection_ids s' = [].
Proof.
  intros s s'. subst s s'. cbn [on_event with_session session].
  split_and!; try done; [|by destruct p].
  set (s1 := flip_select_all p (session w)).
  assert (select_all p s1 = negb (select_all p (session w))) as Hb
    by (by destruct p).
  assert (video_list (toggle_all_selection p s1) = video_list (session w)) as Hvl
    by done.
  unfold selected_videos. rewrite Hvl.
  assert (∀ v, v ∈ video_list (session w) →
               is_on (toggle_all_selection p s1) v = negb (select_all p (session w)))
    as Hon.
  { intros v Hv. rewrite is_on_toggle_all by done. exact Hb. }
  revert Hon. generalize (toggle_all_selection p s1) as s2.
  generalize (video_list (session w)) as vs. intros vs s2 Hon.
  destruct (select_all p (session w)); simpl in Hon.
  - apply filter_all_out, Forall_forall. intros v Hv. by rewrite (Hon v Hv).
  - induction vs as [|v vs IH]; [done|].
    rewrite filter_cons_True by (apply Hon; by left).
    f_equal. apply IH. intros v' Hv'. apply Hon. by right.
Qed.

(** ** The grid of App 3 *)

Section grid_more.
Context `{Env}.

Lemma cached_calls_all vs w :
  let w' := foldl (fun w0 v => (get_cached_download_data v w0).2) w vs in
  session w' = session w
  ∧ (∀ v, v ∈ vs → is_Some (cache w' !! v))
  ∧ ∃ l, download_log w' = download_log w ++ l
         ∧ NoDup l
         ∧ ∀ v, v ∈ l ↔ v ∈ vs ∧ cache w !! v = None.
Proof.
  cbv zeta. revert w. induction vs as [|v t IH]; intros w; cbn [foldl].
  - split_and!; [done|by intros v ?%elem_of_nil|].
    exists []. split_and!; [by rewrite app_nil_r|constructor|].
    intros v. split; [by intros ?%elem_of_nil|by intros [?%elem_of_nil _]].
  - pose proof (get_cached_stored v w) as Hst.
    destruct (cached_calls_keep v _ t _ Hst) as [Hk _].
    destruct (IH (get_cached_download_data v w).2) as (Hs & Hall & l & Hl & Hnd & Hin).
    pose proof (get_cached_frame v w) as [Hs1 _].
    split_and!.
    + by rewrite Hs.
    + intros v' [->|Hv']%elem_of_cons; [by eexists|by apply Hall].
    + rewrite Hl. clear Hl Hk Hall Hs Hst Hs1.
      destruct (cache w !! v) as [r|] eqn:Hc.
      * rewrite (get_cached_hit v r w Hc) in Hin |- *. cbn [snd] in Hin |- *.
        exists l. split_and!; [done|done|]. intros v'. rewrite Hin.
        rewrite elem_of_cons. split; [intros [? ?]; by split; [right|]|].
        intros [[->|?] Hn]; [congruence|done].
      * rewrite (get_cached_miss v w Hc) in Hin |- *.
        cbn [snd cache download_log] in Hin |- *.
        exists (v :: l). split_and!.
        -- by rewrite <- app_assoc.
        -- constructor; [|done]. rewrite Hin. intros [_ Hn].
           by rewrite lookup_insert_eq in Hn.
        -- intros v'. rewrite !elem_of_cons, Hin. split.
           ++ intros [->|[Hv' Hn]]; [by split; [left|]|].
              destruct (decide (v = v')) as [->|Hne];
                [by rewrite lookup_insert_eq in Hn|].
              rewrite lookup_insert_ne in Hn by done. by split; [right|].
           ++ intros [[->|Hv'] Hn]; [by left|].
              destruct (decide (v = v')) as [->|Hne]; [by left|right].
              split; [done|]. by rewrite lookup_insert_ne.
Qed.

End grid_more.

(** ** App 2: the single-video download *)

(** X15. The callback of "Download Video": it downloads the video once,
    outside the cache, and leaves the session of the ZIP workflow alone;
    on success the prepared download holds the video's id, bytes and
    name and the video shows the save button; on failure nothing is
    prepared and the toast text quotes the first 30 characters of the
    title. *)
Theorem single_download_outcome `{Env} (v : video) (st : single_download) (w : world) :
  let res := prepare_single_download_callback v st w in
  let r := (robust_download_to_memory v w).1 in
  res.2 = World (session w) (cache w) (download_log w ++ [v])
  ∧ (succeeded (v, r) →
     ∃ b, r.1 = Some b
          ∧ prepared_download res.1 = Some (video_id v, b, final_filename v)
          ∧ toast_error res.1 = toast_error st
          ∧ single_download_button res.1 v = SaveButton b (final_filename v))
  ∧ (¬ succeeded (v, r) →
     prepared_download res.1 = None
     ∧ toast_error res.1
       = Some (u "Failed to prepare '"
               ++ take 30 (default (u "video") (video_title v)) ++ u "...'")
     ∧ single_download_button res.1 v = DownloadButton false).
Proof.
  intros res r. subst res r.
  pose proof (robust_download_log v w) as Hlog.
  pose proof (robust_download_shape v w) as Hshape.
  unfold prepare_single_download_callback, succeeded.
  destruct (robust_download_to_memory v w) as [[vb fn] w']. cbn [fst snd] in *.
  subst w'. destruct (truthy_bytes vb && truthy_name fn) eqn:Hs; cbn [fst snd].
  - split_and!; [done| |by intros Hn].
    intros _. destruct Hshape as [[= -> ->]|[b [= -> ->]]]; [done|].
    exists b. split_and!; try done.
    unfold single_download_button, is_ready. cbn.
    by rewrite bool_decide_eq_true_2.
  - split_and!; [done|by intros Hn|]. intros _. split_and!; try done.
Qed.

Lemma single_download_outcome_witness :
  let res := @prepare_single_download_callback sample_env video_b
               (SingleDownload None None None) (fetched jane [video_a; video_b]) in
  prepared_download res.1 = None
  ∧ toast_error res.1 = Some (u "Failed to prepare 'Second clip...'").
Proof.
  destruct (@single_download_outcome sample_env video_b
              (SingleDownload None None None) (fetched jane [video_a; video_b]))
    as (_ & _ & H3).
  destruct H3 as (H4 & H5 & _).
  - vm_compute. discriminate.
  - split; [exact H4|exact H5].
Defined.

(** X16. After the callback, whatever was prepared or pending before:
    no video shows the "Preparing" button and no download button is
    disabled; only videos with the id of the downloaded one can show the
    save button (an earlier prepared download is dropped); the toast is
    shown once; and once the save button is clicked every video shows the
    download button again. *)
Theorem single_download_buttons `{Env}
    (v v' : video) (st : single_download) (w : world) :
  let st' := (prepare_single_download_callback v st w).1 in
  preparing_video_id st' = None
  ∧ single_download_button st' v' ≠ PreparingButton
  ∧ single_download_button st' v' ≠ DownloadButton true
  ∧ (video_id v' ≠ video_id v → single_download_button st' v' = DownloadButton false)
  ∧ toast_error (show_toast_error st').2 = None
  ∧ (show_toast_error (show_toast_error st').2).1 = None
  ∧ single_download_button (clear_prepared_download st') v' = DownloadButton false.
Proof.
  intros st'.
  assert (preparing_video_id st' = None) as Hp.
  { subst st'. unfold prepare_single_download_callback.
    by destruct (robust_download_to_memory v w) as [[vb fn] w0]. }
  assert (∀ id b n, prepared_download st' = Some (id, b, n) → id = video_id v) as Hid.
  { subst st'. unfold prepare_single_download_callback.
    destruct (robust_download_to_memory v w) as [[vb fn] w0]. cbn [fst].
    destruct (truthy_bytes vb && truthy_name fn); cbn; [|done].
    by intros id b n [= <- _ _]. }
  assert (is_preparing st' v' = false) as Hnp
    by (unfold is_preparing; rewrite Hp; by apply bool_decide_eq_false_2).
  split_and!; try done.
  - unfold single_download_button. rewrite Hnp.
    destruct (is_ready st' v'); [by destruct (prepared_download st') as [[[??]?]|]|done].
  - unfold single_download_button. rewrite Hnp, Hp.
    destruct (is_ready st' v'); [by destruct (prepared_download st') as [[[??]?]|]|].
    rewrite bool_decide_eq_false_2; [done|by intros Hn].
  - intros Hne. unfold single_download_button. rewrite Hnp, Hp.
    assert (is_ready st' v' = false) as ->.
    { unfold is_ready. destruct (prepared_download st') as [[[id b] n]|] eqn:E; [|done].
      apply bool_decide_eq_false_2. rewrite (Hid id b n eq_refl). congruence. }
    rewrite bool_decide_eq_false_2; [done|by intros Hn].
  - unfold single_download_button, clear_prepared_download, is_ready, is_preparing.
    cbn. rewrite Hp. rewrite bool_decide_eq_false_2 by done.
    rewrite bool_decide_eq_false_2; [done|by intros Hn].
Qed.

Lemma single_download_buttons_witness :
  let first := @prepare_single_download_callback sample_env video_a
                 (SingleDownload None None None) (fetched jane [video_a; video_c]) in
  let second := @prepare_single_download_callback sample_env video_c first.1 first.2 in
  single_download_button second.1 video_a = DownloadButton false.
Proof.
  intros first second.
  destruct (@single_download_buttons sample_env video_c video_a first.1 first.2)
    as (_ & _ & _ & H4 & _).
  apply H4. vm_compute. discriminate.
Defined.

(** ** [chunked] *)

Section chunked_lemmas.
Context {A : Type}.

Lemma concat_chunks (l : list A) (n m : nat) :
  concat ((fun k => take n (drop (k * n) l)) <$> seq 0 m) = take (m * n) l.
Proof.
  induction m as [|m IH]; [done|].
  rewrite seq_S, fmap_app, concat_app, IH. cbn [fmap list_fmap concat plus].
  rewrite app_nil_r, take_take_drop. f_equal. lia.
Qed.

Lemma py_range_fmap (f : nat → list A) (stop n : nat) :
  f <$> py_range stop n
  = (fun k => f (k * n)%nat)
    <$> seq 0 (match stop with O => 0 | S _ => (stop - 1) / n + 1 end)%nat.
Proof. unfold py_range. by rewrite <- list_fmap_compose. Qed.

Lemma range_count_bounds (stop n : nat) :
  (0 < n)%nat →
  let m := match stop with O => 0 | S _ => (stop - 1) / n + 1 end%nat in
  (stop ≤ m * n)%nat ∧ (m * n < stop + n)%nat.
Proof.
  intros Hn. destruct stop as [|a]; cbv zeta; [lia|].
  replace (S a - 1)%nat with a by lia.
  pose proof (Nat.div_mod_eq a n) as Hd.
  pose proof (Nat.mod_upper_bound a n) as Hm.
  set (q := (a / n)%nat) in *. set (r := (a mod n)%nat) in *.
  assert (r < n)%nat as Hr by (apply Hm; lia).
  replace ((q + 1) * n)%nat with (n * q + n)%nat by lia. lia.
Qed.

Lemma chunked_concat (l : list A) (size : Z) :
  (0 < size)%Z → ∃ cs, chunked l size = Some cs ∧ concat cs = l.
Proof.
  intros Hs. unfold chunked.
  rewrite bool_decide_eq_false_2 by lia. rewrite bool_decide_eq_false_2 by lia.
  eexists. split; [done|]. rewrite py_range_fmap, concat_chunks.
  apply take_ge, range_count_bounds. lia.
Qed.

End chunked_lemmas.

(** X17. For a positive size, [chunked] cuts the list into consecutive
    pieces: concatenated in order they give the list back, every piece is
    non-empty and no longer than the size, every piece but the last has
    exactly the size, and there are just enough pieces to cover the list
    (none for an empty list). *)
Theorem chunked_partition {A : Type} (l : list A) (size : Z) :
  (0 < size)%Z →
  ∃ cs, chunked l size = Some cs
        ∧ concat cs = l
        ∧ (∀ i c, cs !! i = Some c →
             (0 < length c ≤ Z.to_nat size)%nat
             ∧ ((S i < length cs)%nat → length c = Z.to_nat size))
        ∧ (length l ≤ length cs * Z.to_nat size)%nat
        ∧ (length cs * Z.to_nat size < length l + Z.to_nat size)%nat.
Proof.
  intros Hs. unfold chunked.
  rewrite bool_decide_eq_false_2 by lia. rewrite bool_decide_eq_false_2 by lia.
  set (n := Z.to_nat size). assert (0 < n)%nat as Hn by lia.
  eexists. split; [done|]. rewrite py_range_fmap.
  pose proof (range_count_bounds (length l) n Hn) as [Hlo Hhi].
  set (m := match length l with O => 0 | S _ => (length l - 1) / n + 1 end%nat) in *.
  split_and!.
  - rewrite concat_chunks. by apply take_ge.
  - intros i c Hc. rewrite list_lookup_fmap in Hc.
    destruct (seq 0 m !! i) as [k|] eqn:Hk; [|done].
    apply lookup_seq in Hk as [-> Hi]. injection Hc as <-.
    rewrite length_fmap, length_seq, length_take, length_drop. cbn [plus]. split; nia.
  - by rewrite length_fmap, length_seq.
  - by rewrite length_fmap, length_seq.
Qed.

Lemma chunked_partition_witness :
  ∃ cs, chunked [video_a; video_b; video_c; video_a; video_b; video_c; video_a] 3
        = Some cs
        ∧ concat cs = [video_a; video_b; video_c; video_a; video_b; video_c; video_a]
        ∧ length cs = 3%nat.
Proof.
  destruct (chunked_partition
              [video_a; video_b; video_c; video_a; video_b; video_c; video_a] 3)
    as (cs & H1 & H2 & _ & H4 & H5).
  - lia.
  - exists cs. split_and!; [exact H1|exact H2|].
    change (Z.to_nat 3) with 3%nat in H4, H5. simpl in H4, H5. lia.
Defined.

(** ** The catalogue *)

Section catalogue.
Context `{Catalog}.

(** [contains] is the substring test. *)
Lemma contains_spec (pat s : pystr) :
  contains pat s = true ↔ ∃ pre post, s = pre ++ pat ++ post.
Proof.
  induction s as [|c t IH].
  - cbn [contains]. rewrite orb_false_r, bool_decide_eq_true, take_nil. split.
    + intros <-. by exists [], [].
    + intros (pre & post & Heq). symmetry in Heq.
      apply app_eq_nil in Heq as [_ Heq]. by apply app_eq_nil in Heq as [-> _].
  - cbn [contains]. rewrite orb_true_iff, bool_decide_eq_true, IH. split.
    + intros [Hp|(pre & post & ->)].
      * exists [], (drop (length pat) (c :: t)). cbn [app].
        rewrite <- Hp at 1. by rewrite take_drop.
      * by exists (c :: pre), post.
    + intros ([|c' pre] & post & Heq).
      * left. cbn [app] in Heq. rewrite Heq. by rewrite take_app_length.
      * right. injection Heq as -> ->. by exists pre, post.
Qed.

Lemma fetch_details_length i entries :
  (length (fetch_details i entries) ≤ length entries)%nat.
Proof.
  revert i. induction entries as [|e t IH]; intros i; [done|].
  cbn [fetch_details length]. specialize (IH (S i)).
  destruct (e !! "url") as [url|]; [|lia].
  destruct (extract_single i url); cbn [length]; lia.
Qed.

Lemma fetch_details_elem i entries v :
  v ∈ fetch_details i entries →
  ∃ j entry url, entries !! j = Some entry ∧ entry !! "url" = Some url
                 ∧ extract_single (i + j) url = Some v.
Proof.
  revert i. induction entries as [|e t IH]; intros i; [by intros ?%elem_of_nil|].
  cbn [fetch_details].
  assert (v ∈ fetch_details (S i) t →
          ∃ j entry url, (e :: t) !! j = Some entry ∧ entry !! "url" = Some url
                         ∧ extract_single (i + j) url = Some v) as Hrest.
  { intros (j & entry & url & Hj & Hu & He)%IH. exists (S j), entry, url.
    split_and!; [done|done|]. by replace (i + S j)%nat with (S i + j)%nat by lia. }
  destruct (e !! "url") as [url|] eqn:Hu; [|done].
  destruct (extract_single i url) as [v0|] eqn:He; [|done].
  intros [->|Hin]%elem_of_cons; [|by apply Hrest].
  exists 0%nat, e, url. split_and!; [done|done|]. by rewrite Nat.add_0_r.
Qed.

Lemma fetch_details_none i entries :
  (∀ j entry url, entries !! j = Some entry → entry !! "url" = Some url →
                  extract_single (i + j) url = None) →
  fetch_details i entries = [].
Proof.
  revert i. induction entries as [|e t IH]; intros i Hnone; [done|].
  cbn [fetch_details].
  assert (fetch_details (S i) t = []) as Ht.
  { apply IH. intros j entry url Hj Hu.
    replace (S i + j)%nat with (i + S j)%nat by lia. by eapply Hnone. }
  destruct (e !! "url") as [url|] eqn:Hu; [|done].
  specialize (Hnone 0%nat e url eq_refl Hu). rewrite Nat.add_0_r in Hnone.
  by rewrite Hnone.
Qed.

Lemma fetch_details_all i entries :
  (∀ j entry, entries !! j = Some entry →
              ∃ url, entry !! "url" = Some url
                     ∧ is_Some (extract_single (i + j) url)) →
  length (fetch_details i entries) = length entries.
Proof.
  revert i. induction entries as [|e t IH]; intros i Hall; [done|].
  cbn [fetch_details].
  assert (length (fetch_details (S i) t) = length t) as Ht.
  { apply IH. intros j entry Hj.
    replace (S i + j)%nat with (i + S j)%nat by lia. by eapply Hall. }
  destruct (Hall 0%nat e eq_refl) as (url & -> & [v Hv]).
  rewrite Nat.add_0_r in Hv. rewrite Hv. cbn [length]. by rewrite Ht.
Qed.

Lemma fetch_user_videos_shape username limit :
  (∃ vs, fetch_user_videos username limit = (Some vs, None))
  ∨ (∃ msg, fetch_user_videos username limit = (None, Some msg)
            ∧ truthy_name (Some msg) = true).
Proof.
  unfold fetch_user_videos.
  destruct (extract_flat _ _) as [[[|e t]|]|e|e].
  - right. by eexists.
  - left. by eexists.
  - right. by eexists.
  - destruct (contains _ e); right; by eexists.
  - right. by eexists.
Qed.

End catalogue.

(** X18. [fetch_user_videos] returns either a list and no message, or no
    list and a non-empty message, never both and never neither, so the
    test [if error_msg] of its caller tells the two apart; it returns a
    list exactly when the flat listing of the profile gave at least one
    entry; a limit of 0 acts like no limit. *)
Theorem fetch_user_videos_result `{Catalog} (username : pystr) (limit : pyval) :
  let r := fetch_user_videos username limit in
  ((∃ vs, r = (Some vs, None))
   ∨ (∃ msg, r = (None, Some msg) ∧ truthy_name (Some msg) = true))
  ∧ (is_Some r.1 ↔
     ∃ entry rest,
       extract_flat (u "https://www.tiktok.com/@" ++ username)
         (if truthy limit then Some limit else None)
       = Returned (Some (entry :: rest)))
  ∧ fetch_user_videos username (PyInt 0) = fetch_user_videos username PyNone.
Proof.
  intros r. subst r. unfold fetch_user_videos. split_and!; [| |done].
  - destruct (extract_flat _ _) as [[[|e t]|]|e|e].
    + right. by eexists.
    + left. by eexists.
    + right. by eexists.
    + destruct (contains _ e); right; by eexists.
    + right. by eexists.
  - destruct (extract_flat _ _) as [[[|e t]|]|e|e]; cbn [fst].
    + split; [by intros [? ?]|by intros (? & ? & ?)].
    + split; [by eexists _, _|by eexists].
    + split; [by intros [? ?]|by intros (? & ? & ?)].
    + destruct (contains _ e); (split; [by intros [? ?]|by intros (? & ? & ?)]).
    + split; [by intros [? ?]|by intros (? & ? & ?)].
Qed.

(** X19. When the flat listing gives entries, the list returned holds the
    entries that have a ['url'] and whose detailed extraction succeeded:
    never more videos than entries, each one the extraction of some
    entry, all of them when every entry resolves; and when no entry
    resolves the result is still a success, with an empty list. *)
Theorem fetch_user_videos_details `{Catalog}
    (username : pystr) (limit : pyval) (entries : list (gmap string pyval)) :
  entries ≠ [] →
  extract_flat (u "https://www.tiktok.com/@" ++ username)
    (if truthy limit then Some limit else None) = Returned (Some entries) →
  ∃ vs, fetch_user_videos username limit = (Some vs, None)
        ∧ (length vs ≤ length entries)%nat
        ∧ (∀ v, v ∈ vs →
             ∃ j entry url, entries !! j = Some entry ∧ entry !! "url" = Some url
                            ∧ extract_single j url = Some v)
        ∧ ((∀ j entry, entries !! j = Some entry →
              ∃ url, entry !! "url" = Some url ∧ is_Some (extract_single j url)) →
           length vs = length entries)
        ∧ ((∀ j entry url, entries !! j = Some entry → entry !! "url" = Some url →
              extract_single j url = None) →
           vs = []).
Proof.
  intros Hne Hflat. unfold fetch_user_videos. rewrite Hflat.
  destruct entries as [|e t]; [done|].
  eexists. split_and!; [done| | | |].
  - apply fetch_details_length.
  - intros v Hv. by apply fetch_details_elem in Hv.
  - intros Hall. by apply fetch_details_all.
  - intros Hnone. by apply fetch_details_none.
Qed.

Lemma fetch_user_videos_details_witness :
  ∃ vs, @fetch_user_videos sample_catalog jane (PyInt 50) = (Some vs, None)
        ∧ (length vs ≤ 3)%nat.
Proof.
  destruct (@fetch_user_videos_details sample_catalog jane (PyInt 50)
              [ {[ "url" := url_a ]}; {[ "url" := url_b ]}; {[ "url" := url_c ]} ])
    as (vs & Hvs & Hlen & _).
  - discriminate.
  - vm_compute. reflexivity.
  - exists vs. split; [exact Hvs|exact Hlen].
Defined.

Example fetch_user_videos_sample :
  @fetch_user_videos sample_catalog jane (PyInt 50) = (Some [video_a; video_c], None).
Proof. vm_compute. reflexivity. Qed.

(** X20. Errors of the flat listing: a download error whose text contains
    "HTTP Error 404" is reported as an unknown user, naming the user id and
    dropping the error text; any other download error is reported as an
    invalid or private profile followed by the error text; any other
    exception as an unexpected error followed by its text. *)
Theorem fetch_user_videos_errors `{Catalog}
    (username : pystr) (limit : pyval) (e : pystr) :
  let flat := extract_flat (u "https://www.tiktok.com/@" ++ username)
                (if truthy limit then Some limit else None) in
  (flat = RaisedDownloadError e →
   (∃ pre post, e = pre ++ u "HTTP Error 404" ++ post) →
   fetch_user_videos username limit
   = (None, Some (cross_mark ++ u " User '" ++ username
                  ++ u "' not found. Please check the User ID.")))
  ∧ (flat = RaisedDownloadError e →
     ¬ (∃ pre post, e = pre ++ u "HTTP Error 404" ++ post) →
     fetch_user_videos username limit
     = (None, Some (cross_mark
                    ++ u " Invalid User ID or private profile. Error: " ++ e)))
  ∧ (flat = RaisedOther e →
     fetch_user_videos username limit
     = (None, Some (u "An unexpected error occurred: " ++ e))).
Proof.
  intros flat. subst flat. unfold fetch_user_videos. split_and!.
  - intros -> Hsub. apply contains_spec in Hsub. by rewrite Hsub.
  - intros -> Hsub. rewrite <- contains_spec in Hsub.
    by apply not_true_is_false in Hsub as ->.
  - by intros ->.
Qed.

Lemma fetch_user_videos_errors_witness :
  @fetch_user_videos sample_catalog (u "nobody") PyNone
  = (None, Some (cross_mark ++ u " User 'nobody' not found. Please check the User ID.")).
Proof.
  destruct (@fetch_user_videos_errors sample_catalog (u "nobody") PyNone
              (u "ERROR: HTTP Error 404: Not Found")) as (H1 & _).
  apply H1.
  - vm_compute. reflexivity.
  - exists (u "ERROR: "), (u ": Not Found"). vm_compute. reflexivity.
Defined.

(** ** The "Fetch Videos" button *)

Section fetch_click.
Context `{Catalog}.

(** The three shapes of the session left by the button. *)
Lemma click_fetch_videos_cases uid fetch_all lim s :
  let s1 :=
    Session [] (toggles s) (select_all_top s) false None [] None [] false uid in
  click_fetch_videos uid fetch_all lim s = s1
  ∨ ∃ vs, uid ≠ []
          ∧ fetch_user_videos uid (if fetch_all then PyNone else PyInt lim)
            = (Some vs, None)
          ∧ click_fetch_videos uid fetch_all lim s
            = Session vs
                (foldl (fun t video0 => <[video_id video0 := false]> t) (toggles s) vs)
                (select_all_top s) false None [] None [] false uid.
Proof.
  cbv zeta. unfold click_fetch_videos, reinitialize_session_state.
  cbn [video_list toggles select_all_top select_all_bottom zip_bytes
       zipped_selection_ids zip_filename failed_videos download_triggered user_id].
  destruct (truthy (PyStr uid)) eqn:Ht; [|by left].
  destruct (fetch_user_videos_shape uid (if fetch_all then PyNone else PyInt lim))
    as [[vs Hr]|[msg [Hr Hm]]]; rewrite Hr.
  - right. exists vs. split_and!; [|done|done].
    intros ->. by cbn in Ht.
  - left. by rewrite Hm.
Qed.

End fetch_click.

(** X21. After a click on "Fetch Videos", whatever the session held
    before and whether or not the fetch succeeds: no video is selected
    (every listed video has its toggle off, stale toggles of an earlier
    catalogue notwithstanding), no archive is stored or offered, the
    recorded identities and the ledger are empty, the download flag is
    clear and the user id is the text entered. *)
Theorem click_fetch_videos_resets `{Catalog} `{Env}
    (uid : pystr) (fetch_all : bool) (lim : Z) (s : session_state) :
  let s' := click_fetch_videos uid fetch_all lim s in
  selected_videos s' = []
  ∧ (∀ v, v ∈ video_list s' → toggles s' !! video_id v = Some false)
  ∧ zip_bytes s' = None
  ∧ zip_download_button s' = None
  ∧ zipped_selection_ids s' = []
  ∧ failed_videos s' = []
  ∧ download_triggered s' = false
  ∧ user_id s' = uid.
Proof.
  intros s'. subst s'.
  destruct (click_fetch_videos_cases uid fetch_all lim s) as [->|(vs & _ & _ & ->)].
  - split_and!; try done. by intros v ?%elem_of_nil.
  - assert (∀ v, v ∈ vs →
              foldl (fun t video0 => <[video_id video0 := false]> t) (toggles s) vs
                !! video_id v = Some false) as Hoff.
    { intros v Hv. rewrite foldl_insert_lookup.
      rewrite decide_True; [done|by apply list_elem_of_fmap_2]. }
    split_and!; try done.
    unfold selected_videos. cbn [video_list].
    apply filter_all_out, Forall_forall. intros v Hv.
    unfold is_on. cbn [toggles]. by rewrite (Hoff v Hv).
Qed.

(** X22. The catalogue after a click on "Fetch Videos": an empty user id
    or a failed fetch leaves an empty video list, so the catalogue shown
    before is lost; a successful fetch stores exactly the videos
    returned, and from a fresh session the result is the state [fetched]
    from which the script runs start. *)
Theorem click_fetch_videos_list `{Catalog}
    (uid : pystr) (fetch_all : bool) (lim : Z) (s : session_state) :
  let limit := if fetch_all then PyNone else PyInt lim in
  let s' := click_fetch_videos uid fetch_all lim s in
  (uid = [] → video_list s' = [])
  ∧ (∀ msg, fetch_user_videos uid limit = (None, Some msg) → video_list s' = [])
  ∧ (∀ vs, uid ≠ [] → fetch_user_videos uid limit = (Some vs, None) →
       video_list s' = vs
       ∧ World (click_fetch_videos uid fetch_all lim initialize_session_state) ∅ []
         = fetched uid vs).
Proof.
  intros limit s'. subst limit s'. split_and!.
  - intros ->.
    by destruct (click_fetch_videos_cases [] fetch_all lim s) as [->|(vs & ? & _)].
  - intros msg Hmsg.
    destruct (click_fetch_videos_cases uid fetch_all lim s) as [->|(vs & _ & Hr & _)];
      [done|congruence].
  - intros vs Hne Hr.
    assert (truthy (PyStr uid) = true) as Ht by (by destruct uid).
    unfold click_fetch_videos, reinitialize_session_state, fetched.
    cbn [video_list toggles select_all_top select_all_bottom zip_bytes
         zipped_selection_ids zip_filename failed_videos download_triggered user_id
         initialize_session_state].
    by rewrite Ht, Hr.
Qed.

Lemma click_fetch_videos_list_witness :
  video_list
    (@click_fetch_videos sample_catalog (u "nobody") false 50
       (session (fetched jane [video_a; video_b]))) = [].
Proof.
  destruct (@click_fetch_videos_list sample_catalog (u "nobody") false 50
              (session (fetched jane [video_a; video_b]))) as (_ & H2 & _).
  apply (H2 (cross_mark ++ u " User 'nobody' not found. Please check the User ID.")).
  vm_compute. reflexivity.
Defined.

(** ** Further behaviour of the ZIP workflow *)



Section toggle_more.

Lemma is_on_same_id s v v' : video_id v = video_id v' → is_on s v = is_on s v'.
Proof. unfold is_on. by intros ->. Qed.

End toggle_more.

(** X24. A toggle of a listed video adds its id to the Selection Set when
    it was not selected and removes it when it was, and changes no other
    id; two toggles of the same video restore the selection. *)
Theorem flip_toggle_selection (c : pystr) (s : session_state) :
  c ∈ video_id <$> video_list s →
  selected_ids (flip_toggle c s)
  = (if decide (c ∈ selected_ids s)
     then selected_ids s ∖ {[c]}
     else selected_ids s ∪ {[c]})
  ∧ selected_videos (flip_toggle c (flip_toggle c s)) = selected_videos s.
Proof.
  intros (v0 & -> & Hv0)%list_elem_of_fmap. split.
  - assert (∀ i, i ∈ selected_ids (flip_toggle (video_id v0) s) ↔
                 ∃ v, v ∈ video_list s ∧ video_id v = i
                      ∧ (if decide (i = video_id v0) then negb (is_on s v)
                         else is_on s v) = true) as Hflip.
    { intros i. rewrite elem_of_selected_ids. cbn [flip_toggle video_list].
      split; intros (v & Hv & <- & Hon); exists v; split_and!; try done.
      - by rewrite is_on_flip_toggle in Hon.
      - by rewrite is_on_flip_toggle. }
    destruct (decide (video_id v0 ∈ selected_ids s)) as [Hin|Hnin];
      apply set_eq; intros i; rewrite Hflip.
    + apply elem_of_selected_ids in Hin as (v1 & Hv1 & Hid1 & Hon1).
      rewrite elem_of_difference, elem_of_singleton, elem_of_selected_ids.
      destruct (decide (i = video_id v0)) as [->|Hne].
      * split; [|by intros [_ ?]]. intros (v & Hv & Hid & Hon).
        rewrite (is_on_same_id s v v1) in Hon by congruence.
        by rewrite Hon1 in Hon.
      * split; [by intros ?; split|by intros [? _]].
    + rewrite elem_of_union, elem_of_singleton, elem_of_selected_ids.
      destruct (decide (i = video_id v0)) as [->|Hne].
      * split; [by right|]. intros _. exists v0. split_and!; [done|done|].
        destruct (is_on s v0) eqn:Hon; [|done]. exfalso. apply Hnin.
        apply elem_of_selected_ids. by exists v0.
      * split; [by left|by intros [?|?]].
  - apply selected_videos_ext; [done|]. intros v.
    rewrite !is_on_flip_toggle. destruct (decide _); [|done].
    by rewrite negb_involutive.
Qed.

Lemma flip_toggle_selection_witness :
  selected_ids (flip_toggle (u "2") (session (fetched jane [video_a; video_b])))
  = selected_ids (session (fetched jane [video_a; video_b])) ∪ {[u "2"]}.
Proof.
  destruct (flip_toggle_selection (u "2") (session (fetched jane [video_a; video_b])))
    as [H1 _].
  - apply (bool_decide_unpack _). vm_compute. exact I.
  - rewrite H1. apply decide_False.
    apply (bool_decide_unpack _). vm_compute. exact I.
Defined.

(** ** [zipfile] within its limits *)

Section zip32.
Context `{Host}.

Lemma start_dir_app a b :
  Run.start_dir (a ++ b) = Run.start_dir a + Run.start_dir b.
Proof.
  unfold Run.start_dir. induction a as [|m a IH]; simpl; [done|].
  rewrite IH. lia.
Qed.

Lemma tell_pos a : 0 < Run.tell a.
Proof. unfold Run.tell, Run.sizeEndCentDir. lia. Qed.

Lemma writestr_error_none zip_file name data :
  Run.writestr_error zip_file name data = None ↔
  member_fits (name, data) = true
  ∧ N.of_nat (length zip_file) < Run.ZIP_FILECOUNT_LIMIT
  ∧ Run.start_dir zip_file ≤ Run.ZIP64_LIMIT.
Proof.
  unfold Run.writestr_error, member_fits. cbn [fst snd].
  rewrite !andb_true_iff, negb_true_iff, !N.leb_le.
  repeat (match goal with
          | |- context [if ?b then _ else _] => destruct b eqn:?
          end);
    rewrite ?N.leb_le, ?N.leb_gt, ?N.ltb_lt, ?N.ltb_ge, ?negb_true_iff,
      ?negb_false_iff in *;
    (split; [intros Heq; try discriminate Heq
            |intros ((((? & ?) & ?) & ?) & ? & ?)]);
    try congruence; try lia.
  split_and!; try done; lia.
Qed.

(** A write succeeds exactly when the member fits, the archive holds
    fewer than 65535 members and the next record starts within the
    limit. *)
Lemma writestr_some zip_file name data zip_file' :
  Run.writestr zip_file name data = Some zip_file' ↔
  member_fits (name, data) = true
  ∧ N.of_nat (length zip_file) < Run.ZIP_FILECOUNT_LIMIT
  ∧ Run.start_dir zip_file ≤ Run.ZIP64_LIMIT
  ∧ zip_file' = zip_file ++ [stored (name, data)].
Proof.
  unfold Run.writestr.
  destruct (Run.writestr_error zip_file name data) as [e|] eqn:He.
  - split; [done|]. intros (Hm & Hc & Hs & _).
    assert (Run.writestr_error zip_file name data = None) as Hn
      by (by apply writestr_error_none).
    congruence.
  - apply writestr_error_none in He as (Hm & Hc & Hs).
    split; [by intros [= <-]|]. by intros (_ & _ & _ & ->).
Qed.

Lemma writestr_all_app a ms a' :
  Run.writestr_all a ms = Some a' → a' = a ++ (stored <$> ms).
Proof.
  revert a. induction ms as [|[n d] t IH]; intros a; simpl.
  - intros [= <-]. by rewrite app_nil_r.
  - destruct (Run.writestr a n d) as [a1|] eqn:Hw; [|done].
    apply writestr_some in Hw as (_ & _ & _ & ->).
    intros ->%IH. by rewrite <- app_assoc.
Qed.

Lemma writestr_all_fits a ms :
  forallb member_fits ms = true →
  N.of_nat (length a + length ms) ≤ Run.ZIP_FILECOUNT_LIMIT →
  Run.start_dir (a ++ (stored <$> ms)) ≤ Run.ZIP64_LIMIT →
  Run.writestr_all a ms = Some (a ++ (stored <$> ms)).
Proof.
  revert a. induction ms as [|[n d] t IH]; intros a Hall Hlen Hsize; simpl.
  - by rewrite app_nil_r.
  - simpl in Hall. apply andb_true_iff in Hall as [Hm Hall].
    rewrite fmap_cons in Hsize. simpl in Hlen.
    assert (Run.writestr a n d = Some (a ++ [stored (n, d)])) as ->.
    { apply writestr_some. split_and!; [done|lia| |done].
      rewrite start_dir_app in Hsize. lia. }
    rewrite IH; [by rewrite <- app_assoc|done| |by rewrite <- app_assoc].
    rewrite length_app. simpl. lia.
Qed.

Lemma writestr_all_members a ms a' :
  Run.writestr_all a ms = Some a' → forallb member_fits ms = true.
Proof.
  revert a. induction ms as [|[n d] t IH]; intros a; simpl; [done|].
  destruct (Run.writestr a n d) as [a1|] eqn:Hw; [|done].
  apply writestr_some in Hw as (Hm & _). intros Ht%IH.
  by rewrite Hm, Ht.
Qed.

Lemma close_error_none a :
  Run.close_error a = None ↔
  N.of_nat (length a) ≤ Run.ZIP_FILECOUNT_LIMIT
  ∧ Run.start_dir a ≤ Run.ZIP64_LIMIT
  ∧ Run.central_dir_size a ≤ Run.ZIP64_LIMIT.
Proof.
  unfold Run.close_error.
  repeat (match goal with
          | |- context [if ?b then _ else _] => destruct b eqn:?
          end);
    rewrite ?N.ltb_lt, ?N.ltb_ge in *;
    (split; [intros Heq; try discriminate Heq|intros (? & ? & ?)]);
    try congruence; try lia.
Qed.

(** A sequence of members stays within the limits exactly when every
    write and the closing of the archive succeed. *)
Lemma within_zip32_spec ms :
  within_zip32 ms = true ↔
  Run.writestr_all [] ms = Some (stored <$> ms)
  ∧ Run.close_error (stored <$> ms) = None.
Proof.
  unfold within_zip32. rewrite !andb_true_iff, !N.leb_le, close_error_none.
  rewrite length_fmap. split.
  - intros (((Hall & Hlen) & Hs) & Hc). split; [|done].
    by apply (writestr_all_fits [] ms).
  - intros (Hw & Hlen & Hs & Hc). split_and!; try done.
    by eapply writestr_all_members.
Qed.

Lemma within_zip32_false ms a :
  within_zip32 ms = false → Run.writestr_all [] ms = Some a →
  is_Some (Run.close_error a).
Proof.
  intros Hf Hw. pose proof (writestr_all_app _ _ _ Hw) as Ha. simpl in Ha.
  subst a. destruct (Run.close_error (stored <$> ms)) eqn:Hc; [by eexists|].
  assert (within_zip32 ms = true) by (by apply within_zip32_spec).
  congruence.
Qed.

End zip32.

(** ** The assembly and its two outcomes *)

Section assembly_run.
Context `{Env} `{Host}.

(** The loop visits the videos in order and writes the member of each
    successful download; it stops at the first write that raises, with
    the downloads made so far. *)
Lemma zip_loop_spec sel a f w :
  match Run.writestr_all a (member <$> fetched_ok sel w) with
  | Some a' =>
      Run.zip_loop sel a f w =
      Run.Done (a', f ++ fetch_failed sel w,
                World (session w) (cache w) (download_log w ++ sel))
  | None =>
      ∃ k, (0 < k ≤ length sel)%nat
           ∧ Run.zip_loop sel a f w =
             Run.Raised (World (session w) (cache w) (download_log w ++ take k sel))
  end.
Proof.
  unfold fetched_ok, fetch_failed.
  revert a f w. induction sel as [|v t IH]; intros a f w.
  - simpl. rewrite !app_nil_r. by destruct w.
  - cbn [downloads Run.zip_loop].
    pose proof (robust_download_log v w) as Hlog.
    destruct (robust_download_to_memory v w) as [[vb fn] w'] eqn:Hr.
    simpl in Hlog. subst w'.
    destruct (truthy_bytes vb && truthy_name fn) eqn:Hs.
    + rewrite filter_cons_True by done.
      rewrite (filter_cons_False (fun o => ¬ succeeded o))
        by (intros Hn; by apply Hn).
      rewrite fmap_cons. cbn [Run.writestr_all].
      change (member (v, (vb, fn))) with (default [] fn, default [] vb). cbn [fst snd].
      destruct (Run.writestr a (default [] fn) (default [] vb)) as [a1|] eqn:Hw.
      * specialize (IH a1 f (World (session w) (cache w) (download_log w ++ [v]))).
        cbn [session cache download_log] in IH.
        destruct (Run.writestr_all a1 _) as [a'|].
        -- rewrite IH. by rewrite <- app_assoc.
        -- destruct IH as (k & Hk & ->). exists (S k). split; [simpl; lia|].
           by rewrite <- app_assoc.
      * exists 1%nat. split; [simpl; lia|]. done.
    + rewrite filter_cons_False by (unfold succeeded; simpl; congruence).
      rewrite (filter_cons_True (fun o => ¬ succeeded o))
        by (unfold succeeded; simpl; congruence).
      rewrite fmap_cons. cbn [fst].
      specialize (IH a (f ++ [v]) (World (session w) (cache w) (download_log w ++ [v]))).
      cbn [session cache download_log] in IH.
      destruct (Run.writestr_all a _) as [a'|].
      * rewrite IH. by rewrite <- !app_assoc.
      * destruct IH as (k & Hk & ->). exists (S k). split; [simpl; lia|].
        by rewrite <- app_assoc.
Qed.

(** Within the limits [prepare_zip] returns, with the session in closed
    form. *)
Lemma prepare_zip_within sel uid w :
  sel ≠ [] →
  within_zip32 (member <$> fetched_ok sel w) = true →
  Run.prepare_zip sel uid w =
  Run.Done
    (World
       (Session (video_list (session w)) (toggles (session w))
          (select_all_top (session w)) (select_all_bottom (session w))
          (Some (stored <$> (member <$> fetched_ok sel w)))
          (video_id <$> filter (fun v => v ∉ fetch_failed sel w) sel)
          (Some (u "tiktok_download_" ++ uid ++ u ".zip"))
          (fetch_failed sel w)
          (download_triggered (session w)) (user_id (session w)))
       (cache w) (download_log w ++ sel)).
Proof.
  intros Hsel [Hw Hc]%within_zip32_spec. destruct sel as [|v t]; [done|].
  unfold Run.prepare_zip.
  pose proof (zip_loop_spec (v :: t) [] [] w) as Hloop. rewrite Hw in Hloop.
  rewrite Hloop, Hc. cbn [app session cache download_log].
  pose proof (tell_pos (stored <$> (member <$> fetched_ok (v :: t) w))) as Hpos.
  apply N.ltb_lt in Hpos. by rewrite Hpos.
Qed.

(** Beyond the limits it raises out of the loop or at the closing of the
    archive: nothing of the session is written, and the downloads made up
    to there are those of a prefix of the selection. *)
Lemma prepare_zip_beyond sel uid w :
  sel ≠ [] →
  within_zip32 (member <$> fetched_ok sel w) = false →
  ∃ k, (0 < k ≤ length sel)%nat
       ∧ Run.prepare_zip sel uid w =
         Run.Raised (World (session w) (cache w) (download_log w ++ take k sel)).
Proof.
  intros Hsel Hf. destruct sel as [|v t]; [done|].
  unfold Run.prepare_zip.
  pose proof (zip_loop_spec (v :: t) [] [] w) as Hloop.
  destruct (Run.writestr_all [] _) as [a|] eqn:Hw.
  - rewrite Hloop. destruct (within_zip32_false _ _ Hf Hw) as [e ->].
    exists (length (v :: t)). split; [simpl; lia|]. by rewrite firstn_all.
  - destruct Hloop as (k & Hk & ->). by exists k.
Qed.

Lemma prepare_zip_done_inv sel uid w w' :
  sel ≠ [] → Run.prepare_zip sel uid w = Run.Done w' →
  within_zip32 (member <$> fetched_ok sel w) = true.
Proof.
  intros Hsel Hd.
  destruct (within_zip32 (member <$> fetched_ok sel w)) eqn:Hw; [done|].
  destruct (prepare_zip_beyond sel uid w Hsel Hw) as (k & _ & Hr). congruence.
Qed.

(** Whatever the outcome, the cache and the video list are those of
    before. *)
Lemma prepare_zip_outcome sel uid w :
  match Run.prepare_zip sel uid w with
  | Run.Done w' =>
      cache w' = cache w
      ∧ video_list (session w') = video_list (session w)
      ∧ toggles (session w') = toggles (session w)
      ∧ download_triggered (session w') = download_triggered (session w)
      ∧ user_id (session w') = user_id (session w)
  | Run.Raised w' => cache w' = cache w ∧ session w' = session w
  end.
Proof.
  destruct sel as [|v t]; [done|].
  destruct (within_zip32 (member <$> fetched_ok (v :: t) w)) eqn:Hw.
  - by rewrite prepare_zip_within.
  - destruct (prepare_zip_beyond (v :: t) uid w) as (k & _ & ->); done.
Qed.

End assembly_run.

(** ** The grid and its two outcomes *)

Section grid_run.
Context `{Env} `{Host}.

Lemma cached_cells_cons app v t w :
  cached_cells app (v :: t) w = cached_cells app t (cached_cells app [v] w).
Proof. by destruct app. Qed.

Lemma cached_cells_grid app w :
  cached_cells app (video_list (session w)) w = render_grid app w.
Proof. by destruct app. Qed.

Lemma cached_cells_frame app vs w :
  session (cached_cells app vs w) = session w
  ∧ cache w ⊆ cache (cached_cells app vs w)
  ∧ (app ≠ app3 → cached_cells app vs w = w).
Proof.
  destruct app; try done. split_and!; [| |done]; unfold cached_cells.
  - revert w. induction vs as [|v t IH]; intros w; [done|]. simpl.
    rewrite IH. apply get_cached_frame.
  - revert w. induction vs as [|v t IH]; intros w; [done|]. simpl.
    etrans; [apply (get_cached_frame v w)|apply IH].
Qed.

(** The cells of [vs] are rendered in order; the walk stops at the first
    cell that raises, App 3 having called the cached download for the
    cells before it and, when the toggle raises, for that cell too. *)
Lemma render_cells_spec app seen vs w :
  match Run.render_cells app seen vs w with
  | Run.Done w' =>
      w' = cached_cells app vs w
      ∧ Forall (fun v => cell_renders v = true) vs
      ∧ NoDup (video_id <$> vs)
      ∧ (∀ v, v ∈ vs → video_id v ∉ seen)
  | Run.Raised w' =>
      (∃ k, (k ≤ length vs)%nat ∧ w' = cached_cells app (take k vs) w)
      ∧ ¬ (Forall (fun v => cell_renders v = true) vs
           ∧ NoDup (video_id <$> vs)
           ∧ (∀ v, v ∈ vs → video_id v ∉ seen))
  end.
Proof.
  revert seen w. induction vs as [|v t IH]; intros seen w.
  - simpl. split_and!; [by destruct app|done|constructor|by intros v ?%elem_of_nil].
  - cbn [Run.render_cells]. unfold Run.render_cell.
    destruct (Run.st_image_raises _) eqn:Himg.
    { split.
      - exists 0%nat. split; [lia|]. by destruct app.
      - intros (Hall & _). apply Forall_cons in Hall as [Hv _].
        unfold cell_renders in Hv. by rewrite Himg in Hv. }
    change (match app with
            | app3 => (get_cached_download_data v w).2
            | _ => w
            end) with (cached_cells app [v] w).
    destruct (Run.like_count_formats v) eqn:Hlike; cbn [negb].
    2:{ split.
        - exists 1%nat. split; [simpl; lia|]. done.
        - intros (Hall & _). apply Forall_cons in Hall as [Hv _].
          unfold cell_renders in Hv. rewrite Hlike in Hv.
          by rewrite andb_false_r in Hv. }
    case_bool_decide as Hseen.
    { split.
      - exists 1%nat. split; [simpl; lia|]. done.
      - intros (_ & _ & Hd). apply (Hd v); [by left|done]. }
    specialize (IH (seen ++ [video_id v]) (cached_cells app [v] w)).
    destruct (Run.render_cells app (seen ++ [video_id v]) t _) as [w'|w'].
    + destruct IH as (-> & Hall & Hnd & Hd). split_and!.
      * by rewrite (cached_cells_cons app v t w).
      * apply Forall_cons. split; [|done].
        unfold cell_renders. by rewrite Himg, Hlike.
      * rewrite fmap_cons. apply NoDup_cons. split; [|done].
        intros (v' & Hid & Hv')%list_elem_of_fmap.
        apply (Hd v' Hv'). rewrite <- Hid. apply elem_of_app. right. by left.
      * intros v' [->|Hv']%elem_of_cons; [done|].
        intros Hin. apply (Hd v' Hv'). apply elem_of_app. by left.
    + destruct IH as ((k & Hk & ->) & Hnot). split.
      * exists (S k). split; [simpl; lia|].
        by rewrite firstn_cons, (cached_cells_cons app v (take k t) w).
      * intros (Hall & Hnd & Hd). apply Hnot.
        apply Forall_cons in Hall as [_ Hall].
        rewrite fmap_cons in Hnd. apply NoDup_cons in Hnd as [Hv Hnd].
        split_and!; [done|done|].
        intros v' Hv' [Hin|Hin%list_elem_of_singleton]%elem_of_app.
        -- apply (Hd v'); [by right|done].
        -- apply Hv. rewrite <- Hin. by apply list_elem_of_fmap_2.
Qed.

(** The grid renders to its end exactly when every cell renders and the
    ids are distinct; the process is then the one of the walk without
    exceptions. *)
Lemma render_grid_cases app w :
  (grid_renders (video_list (session w))
   ∧ Run.render_grid app w = Run.Done (render_grid app w))
  ∨ (¬ grid_renders (video_list (session w))
     ∧ ∃ k, (k ≤ length (video_list (session w)))%nat
            ∧ Run.render_grid app w =
              Run.Raised (cached_cells app (take k (video_list (session w))) w)).
Proof.
  unfold Run.render_grid, grid_renders.
  pose proof (render_cells_spec app [] (video_list (session w)) w) as Hs.
  destruct (Run.render_cells app [] (video_list (session w)) w) as [w'|w'].
  - left. destruct Hs as (-> & Hall & Hnd & _).
    by rewrite cached_cells_grid.
  - right. destruct Hs as ((k & Hk & ->) & Hnot). split; [|by exists k].
    intros [Hall Hnd]. apply Hnot. split_and!; [done|done|].
    intros v _. apply not_elem_of_nil.
Qed.

Lemma render_grid_session app w :
  match Run.render_grid app w with
  | Run.Done w' | Run.Raised w' => session w' = session w ∧ cache w ⊆ cache w'
  end.
Proof.
  destruct (render_grid_cases app w) as [[_ ->]|(_ & k & _ & ->)].
  - pose proof (render_grid_frame app w) as (? & ? & _). done.
  - pose proof (cached_cells_frame app (take k (video_list (session w))) w)
      as (? & ? & _). done.
Qed.

End grid_run.

(** ** Script runs with their exceptions *)

Section runs_run.
Context `{Env} `{Host}.

Lemma run_bar_idle p ev w :
  (∀ p', ev ≠ ClickPrepare p') →
  Run.common_action_bar_ui p ev w = Run.Done (common_action_bar_ui p ev w).
Proof. intros Hev. destruct ev; try done. by destruct (Hev p0). Qed.

Lemma run_bar_other p p' w :
  p' ≠ p →
  Run.common_action_bar_ui p (ClickPrepare p') w =
  Run.Done (zip_download_button (session w),
            if download_triggered (session w)
            then with_session reset_download_triggered w else w).
Proof.
  intros Hp. unfold Run.common_action_bar_ui.
  by rewrite bool_decide_eq_false_2 by done.
Qed.

Lemma run_bar_prepare p w :
  selected_videos (session w) ≠ [] →
  Run.common_action_bar_ui p (ClickPrepare p) w =
  match Run.prepare_zip (selected_videos (session w)) (user_id (session w)) w with
  | Run.Raised w' => Run.Raised w'
  | Run.Done w1 =>
      Run.Done (zip_download_button (session w1),
                if download_triggered (session w1)
                then with_session reset_download_triggered w1 else w1)
  end.
Proof.
  intros Hsel. unfold Run.common_action_bar_ui.
  rewrite bool_decide_eq_true_2 by done.
  rewrite bool_decide_eq_false_2; [done|].
  by destruct (selected_videos (session w)).
Qed.

(** What an action bar leaves, whatever its outcome. *)
Lemma run_bar_outcome p ev w :
  match Run.common_action_bar_ui p ev w with
  | Run.Done (o, w') =>
      cache w' = cache w
      ∧ video_list (session w') = video_list (session w)
      ∧ toggles (session w') = toggles (session w)
      ∧ user_id (session w') = user_id (session w)
      ∧ download_triggered (session w') = false
  | Run.Raised w' => cache w' = cache w ∧ session w' = session w
  end.
Proof.
  unfold Run.common_action_bar_ui.
  set (prepared := match ev with ClickPrepare _ => _ | _ => Run.Done w end).
  assert (match prepared with
          | Run.Done w' =>
              cache w' = cache w
              ∧ video_list (session w') = video_list (session w)
              ∧ toggles (session w') = toggles (session w)
              ∧ download_triggered (session w') = download_triggered (session w)
              ∧ user_id (session w') = user_id (session w)
          | Run.Raised w' => cache w' = cache w ∧ session w' = session w
          end) as Hp.
  { subst prepared. destruct ev; try done.
    destruct (_ && _); [apply prepare_zip_outcome|done]. }
  destruct prepared as [w1|w1]; [|done].
  destruct Hp as (Hc & Hv & Ht & Hf & Hu).
  by destruct (download_triggered (session w1)) eqn:E.
Qed.

(** A run of the chosen app without prepare click and without pending
    download click: the top bar shows the button of the checked session,
    the bottom bar shows the same when the grid renders, and is not
    reached otherwise. *)
Lemma run_app_idle_run app ev w :
  (∀ p', ev ≠ ClickPrepare p') →
  download_triggered (session w) = false →
  let o := zip_download_button (run_app_check (session w)) in
  let run := Run.run_app app ev w in
  Run.top_bar run = Some o
  ∧ session (Run.after run) = run_app_check (session w)
  ∧ cache w ⊆ cache (Run.after run)
  ∧ (Run.completed run = true ↔ grid_renders (video_list (session w)))
  ∧ Run.bottom_bar run = (if Run.completed run then Some o else None).
Proof.
  intros Hev Hd o run. subst o run. unfold Run.run_app.
  rewrite run_bar_idle by done.
  rewrite bar_idle_offer by (done || by (simpl; rewrite run_app_check_flag)).
  set (w0 := with_session run_app_check w).
  assert (video_list (session w0) = video_list (session w)) as Hvl
    by (subst w0; simpl; by destruct (run_app_check_keeps (session w)) as (-> & _)).
  destruct (render_grid_cases app w0) as [[Hg ->]|(Hg & k & _ & ->)].
  - pose proof (render_grid_frame app w0) as (Hs & Hc & _).
    rewrite run_bar_idle by done.
    rewrite bar_idle_offer
      by (done || by (rewrite Hs; simpl; rewrite run_app_check_flag)).
    cbn [Run.top_bar Run.bottom_bar Run.completed Run.after].
    rewrite Hs. rewrite Hvl in Hg. split_and!; try done.
  - pose proof (cached_cells_frame app (take k (video_list (session w0))) w0)
      as (Hs & Hc & _).
    cbn [Run.top_bar Run.bottom_bar Run.completed Run.after].
    rewrite Hvl in Hg. split_and!; try done.
Qed.

Lemma set_user_id_on_event ev text w :
  video_list (session (with_session (Run.set_user_id text) (on_event ev w)))
  = video_list (session w).
Proof. by destruct ev. Qed.

Lemma script_run_idle_run app ev text w :
  (∀ p, ev ≠ ClickPrepare p) →
  (∀ p, ev ≠ ClickDownloadZip p) →
  download_triggered (session w) = false →
  video_list (session w) ≠ [] →
  let s0 := Run.set_user_id text (session (on_event ev w)) in
  let o := zip_download_button (run_app_check s0) in
  let run := Run.script_run app ev text w in
  Run.top_bar run = Some o
  ∧ session (Run.after run) = run_app_check s0
  ∧ (Run.completed run = true ↔ grid_renders (video_list (session w)))
  ∧ Run.bottom_bar run = (if Run.completed run then Some o else None).
Proof.
  intros Hp Hd Hflag Hvl s0 o run. subst s0 o run. unfold Run.script_run.
  pose proof (set_user_id_on_event ev text w) as Hvl'.
  destruct (on_event_idle ev w Hd) as [_ Hflag'].
  destruct (video_list (session (with_session _ (on_event ev w)))) eqn:E;
    [congruence|].
  destruct (run_app_idle_run app ev
              (with_session (Run.set_user_id text) (on_event ev w)) Hp)
    as (H1 & H2 & _ & H4 & H5); [simpl; congruence|].
  rewrite E, Hvl' in H4. done.
Qed.

End runs_run.

Section prepare_run.
Context `{Env} `{Host}.

(** The run of a prepare click whose action bar gets to its download
    column: [prepare_zip] has returned, the archive is named after the
    content of the text field, and the session left is the one
    [prepare_zip] has written. *)
Lemma script_run_prepare_run app p text w o :
  selected_videos (session w) ≠ [] →
  download_triggered (session w) = false →
  bar_at p (Run.script_run app (ClickPrepare p) text w) = Some o →
  ∃ wx w1,
    session wx = run_app_check (Run.set_user_id text (session w))
    ∧ Run.prepare_zip (selected_videos (session w)) text wx = Run.Done w1
    ∧ session (Run.after (Run.script_run app (ClickPrepare p) text w)) = session w1
    ∧ o = zip_download_button (session w1).
Proof.
  intros Hsel Hflag. unfold Run.script_run. cbn [on_event].
  set (w1 := with_session (Run.set_user_id text) w).
  destruct (video_list (session w1)) as [|v0 vs] eqn:Hvl.
  { change (video_list (session w1)) with (video_list (session w)) in Hvl.
    unfold selected_videos in Hsel. by rewrite Hvl in Hsel. }
  unfold Run.run_app. set (w0 := with_session run_app_check w1).
  destruct (run_app_check_keeps (session w1)) as (_ & _ & Hs0 & Hu0 & Hf0).
  assert (selected_videos (session w0) = selected_videos (session w)) as Hs0' by done.
  assert (user_id (session w0) = text) as Hu0'
    by (subst w0; unfold with_session at 1; cbn [session]; by rewrite Hu0).
  assert (download_triggered (session w0) = false) as Hf0'
    by (subst w0; unfold with_session at 1; cbn [session]; by rewrite Hf0).
  destruct p.
  - rewrite run_bar_prepare by congruence. rewrite Hs0', Hu0'.
    pose proof (prepare_zip_outcome (selected_videos (session w)) text w0) as Hout.
    destruct (Run.prepare_zip (selected_videos (session w)) text w0)
      as [wp|wp] eqn:Hprep; [|done].
    destruct Hout as (_ & _ & _ & Hfp & _). rewrite Hfp, Hf0'.
    pose proof (render_grid_session app wp) as Hg.
    destruct (Run.render_grid app wp) as [w3|w3]; destruct Hg as [Hs3 _].
    + rewrite run_bar_other by done. rewrite Hs3, Hfp, Hf0'.
      cbn [bar_at Run.top_bar Run.after]. intros [= <-].
      exists w0, wp. by rewrite Hs3.
    + cbn [bar_at Run.top_bar Run.after]. intros [= <-].
      exists w0, wp. by rewrite Hs3.
  - rewrite run_bar_other by done. rewrite Hf0'.
    pose proof (render_grid_session app w0) as Hg.
    destruct (Run.render_grid app w0) as [w3|w3]; destruct Hg as [Hs3 _];
      [|done].
    rewrite run_bar_prepare by (rewrite Hs3; congruence).
    rewrite Hs3, Hs0', Hu0'.
    pose proof (prepare_zip_outcome (selected_videos (session w)) text w3) as Hout.
    destruct (Run.prepare_zip (selected_videos (session w)) text w3)
      as [wp|wp] eqn:Hprep; [|done].
    destruct Hout as (_ & _ & _ & Hfp & _). rewrite Hfp, Hs3, Hf0'.
    cbn [bar_at Run.bottom_bar Run.after]. intros [= <-].
    by exists w3, wp.
Qed.

End prepare_run.

(** ** Samples *)

Section samples.

Lemma sample_downloads_succeed vs w :
  (∀ v, v ∈ vs → video_info v !! "webpage_url" = Some url_a) →
  Forall succeeded (@downloads sample_env vs w).
Proof.
  revert w. induction vs as [|v t IH]; intros w Hall; [constructor|].
  cbn [downloads].
  destruct (@robust_download_to_memory sample_env v w) as [r w'] eqn:Hr.
  apply Forall_cons. split; [|apply IH; intros v' Hv'; apply Hall; by right].
  unfold robust_download_to_memory in Hr. rewrite (Hall v) in Hr by (by left).
  cbn [ydl_download sample_env] in Hr.
  rewrite bool_decide_eq_true_2 in Hr by done.
  injection Hr as <- _. unfold succeeded. cbn [fst snd].
  by rewrite final_filename_nonempty.
Qed.

Lemma all_succeeded_ok `{Env} sel w :
  Forall succeeded (downloads sel w) →
  fetched_ok sel w = downloads sel w ∧ fetch_failed sel w = [].
Proof.
  unfold fetched_ok, fetch_failed.
  induction 1 as [|o t Ho _ [IH1 IH2]]; [done|].
  rewrite filter_cons_True by done.
  rewrite (filter_cons_False (fun o => ¬ succeeded o)) by (intros Hn; by apply Hn).
  by rewrite IH1, IH2.
Qed.

Lemma bulk_selection_length : length bulk_selection = N.to_nat 65536.
Proof. unfold bulk_selection. by rewrite length_fmap, length_seq. Qed.

Lemma within_zip32_count `{Host} ms :
  within_zip32 ms = true → N.of_nat (length ms) ≤ 65535.
Proof.
  unfold within_zip32. rewrite !andb_true_iff, !N.leb_le.
  by intros (((_ & ?) & _) & _).
Qed.

End samples.

(** A selection of 65536 videos, each of which downloads, makes the
    65536th [writestr] raise out of [prepare_zip]. *)
Lemma bulk_selection_raises :
  let w := fetched jane bulk_selection in
  @fetch_failed sample_env bulk_selection w = []
  ∧ ∃ k, @Run.prepare_zip sample_env sample_host bulk_selection jane w
         = Run.Raised (World (session w) (cache w)
                         (download_log w ++ take k bulk_selection)).
Proof.
  intros w.
  assert (Forall succeeded (@downloads sample_env bulk_selection w)) as Hall.
  { apply sample_downloads_succeed. unfold bulk_selection.
    by intros v (i & -> & _)%list_elem_of_fmap. }
  destruct (@all_succeeded_ok sample_env _ _ Hall) as [Hok Hfail].
  pose proof bulk_selection_length as Hlen.
  split; [exact Hfail|].
  assert (bulk_selection ≠ []) as Hne.
  { intros E. rewrite E in Hlen. cbn [length] in Hlen. lia. }
  destruct (@prepare_zip_beyond sample_env sample_host bulk_selection jane w Hne)
    as (k & _ & ->); [|by exists k].
  apply not_true_is_false. intros Hw.
  apply within_zip32_count in Hw. rewrite length_fmap, Hok in Hw.
  pose proof (f_equal length (@downloads_fst sample_env bulk_selection w)) as Hl.
  rewrite length_fmap in Hl. rewrite Hl, Hlen in Hw. lia.
Qed.

(** C3 fails as stated: a selection of 65536 videos, each of which
    downloads (K = 0), makes the 65536th [writestr] raise [LargeZipFile]
    out of [prepare_zip]: no archive is stored and the session is left
    as it was. *)
Lemma prepare_zip_raises_past_member_limit :
  let w := fetched jane bulk_selection in
  length bulk_selection = N.to_nat 65536
  ∧ @fetch_failed sample_env bulk_selection w = []
  ∧ ∃ w', @Run.prepare_zip sample_env sample_host bulk_selection jane w
          = Run.Raised w'
          ∧ session w' = session w
          ∧ zip_bytes (session w') = None.
Proof.
  intros w. destruct bulk_selection_raises as (Hfail & k & Hr).
  split_and!; [exact bulk_selection_length|exact Hfail|].
  eexists. split; [exact Hr|]. split; reflexivity.
Qed.

(** C3, amended. Partial-failure completeness within the limits of an
    archive opened with [allowZip64=False]: for a selection of N
    descriptors with distinct identities of which K < N fail, whose N-K
    members stay within those limits, [prepare_zip] downloads all N in
    order without stopping early, builds an archive of exactly N-K
    members and sets [failed_videos] to exactly the K failing descriptors
    whatever ledger was stored before; beyond the limits it raises after
    the downloads of a prefix of the selection and writes neither archive
    nor ledger.  The archived and the failed identities partition the
    selection, with no overlap and no omission. *)
Theorem prepare_zip_partial_failure `{Env} `{Host}
    (sel : list video) (uid : pystr) (w : world) :
  NoDup (video_id <$> sel) →
  (length (fetch_failed sel w) < length sel)%nat →
  let archived := (fetched_ok sel w).*1 in
  let failing := fetch_failed sel w in
  (within_zip32 (member <$> fetched_ok sel w) = true →
   ∃ w', Run.prepare_zip sel uid w = Run.Done w'
         ∧ download_log w' = download_log w ++ sel
         ∧ (∃ a, zip_bytes (session w') = Some a
                 ∧ a = stored <$> (member <$> fetched_ok sel w)
                 ∧ length a = (length sel - length failing)%nat)
         ∧ failed_videos (session w') = failing
         ∧ (∀ s0 c0, ∃ w'',
              Run.prepare_zip sel uid (World s0 c0 (download_log w)) = Run.Done w''
              ∧ failed_videos (session w'') = failing)
         ∧ zipped_selection_ids (session w') = video_id <$> archived)
  ∧ (within_zip32 (member <$> fetched_ok sel w) = false →
     ∃ w' k, Run.prepare_zip sel uid w = Run.Raised w'
             ∧ session w' = session w
             ∧ cache w' = cache w
             ∧ (0 < k ≤ length sel)%nat
             ∧ download_log w' = download_log w ++ take k sel)
  ∧ (video_id <$> archived) ++ (video_id <$> failing) ≡ₚ video_id <$> sel
  ∧ (∀ i, i ∈ video_id <$> archived → i ∉ video_id <$> failing).
Proof.
  intros Hnd Hlt archived failing.
  assert (sel ≠ []) as Hne by (intros ->; simpl in Hlt; lia).
  assert ((video_id <$> archived) ++ (video_id <$> failing) ≡ₚ video_id <$> sel)
    as Hperm.
  { rewrite <- fmap_app. apply fmap_Permutation.
    unfold archived, failing, fetched_ok, fetch_failed.
    rewrite (filter_split_perm succeeded). by rewrite downloads_fst. }
  split_and!; [| |done|].
  - intros Hw. rewrite prepare_zip_within by done.
    eexists. split; [reflexivity|]. cbn [session download_log zip_bytes
      failed_videos zipped_selection_ids].
    split_and!; try done.
    + eexists. split_and!; try done.
      subst failing. unfold fetched_ok, fetch_failed. rewrite !length_fmap.
      rewrite (filter_split_length succeeded).
      pose proof (f_equal length (downloads_fst sel w)) as Hl.
      rewrite length_fmap in Hl. by rewrite Hl.
    + intros s0 c0.
      assert (fetched_ok sel (World s0 c0 (download_log w)) = fetched_ok sel w
              ∧ fetch_failed sel (World s0 c0 (download_log w)) = fetch_failed sel w)
        as [Hok Hfail].
      { unfold fetched_ok, fetch_failed.
        by rewrite (downloads_log sel s0 c0 (session w) (cache w)); destruct w. }
      rewrite prepare_zip_within by (done || by rewrite Hok).
      eexists. split; [reflexivity|]. cbn [session failed_videos]. by rewrite Hfail.
    + by rewrite failed_of_distinct_ids.
  - intros Hw. destruct (prepare_zip_beyond sel uid w Hne Hw) as (k & Hk & ->).
    eexists _, k. split_and!; try done; lia.
  - rewrite <- Hperm in Hnd. by apply NoDup_app in Hnd as (_ & Hd & _).
Qed.

Lemma prepare_zip_partial_failure_witness :
  let sel := [clip_a; clip_b; clip_c] in
  ∃ w', @Run.prepare_zip sample_env sample_host sel jane (fetched jane sel)
        = Run.Done w'
        ∧ download_log w' = sel
        ∧ failed_videos (session w') = @fetch_failed sample_env sel (fetched jane sel)
        ∧ zipped_selection_ids (session w')
          = video_id <$> (@fetched_ok sample_env sel (fetched jane sel)).*1.
Proof.
  destruct (@prepare_zip_partial_failure sample_env sample_host
              [clip_a; clip_b; clip_c] jane
              (fetched jane [clip_a; clip_b; clip_c]))
    as (H1 & _).
  - apply (bool_decide_unpack _). vm_compute. exact I.
  - vm_compute. lia.
  - destruct H1 as (w' & Hd & Hl & _ & Hf & _ & Hz); [vm_compute; reflexivity|].
    exists w'. split_and!; [exact Hd|exact Hl|exact Hf|exact Hz].
Defined.

(** C2 fails as stated: with [clip_a] fetched and [clip_b] failed, an
    archive is produced and the recorded identities leave out the
    descriptor whose fetch failed. *)
Lemma zipped_ids_omit_failed :
  let sel := [clip_a; clip_b] in
  ∃ w', @Run.prepare_zip sample_env sample_host sel jane (fetched jane sel)
        = Run.Done w'
        ∧ is_Some (zip_bytes (session w'))
        ∧ failed_videos (session w') = [clip_b]
        ∧ zipped_selection_ids (session w') = [u "1"]
        ∧ (list_to_set (zipped_selection_ids (session w')) : gset pystr)
          ≠ list_to_set (video_id <$> sel).
Proof.
  eexists. split; [vm_compute; reflexivity|].
  split_and!; [by eexists|done|done|].
  apply (bool_decide_eq_false_1 _). by vm_compute.
Qed.

(** C2, amended. For a non-empty selection for which the assembly
    produces an artifact ([prepare_zip] returns and an archive is stored,
    as happens whenever a fetch succeeds and the members stay within the
    limits of [allowZip64=False]), the recorded identities are those of
    the selected descriptors absent from the ledger of the run: with
    distinct identities, the descriptors fetched successfully, in
    selection order; they are the full selection when nothing failed. *)
Theorem zipped_selection_ids_successful `{Env} `{Host}
    (sel : list video) (uid : pystr) (w : world) :
  sel ≠ [] →
  (fetched_ok sel w ≠ [] →
   within_zip32 (member <$> fetched_ok sel w) = true →
   ∃ w', Run.prepare_zip sel uid w = Run.Done w'
         ∧ is_Some (zip_bytes (session w')))
  ∧ (∀ w', Run.prepare_zip sel uid w = Run.Done w' →
       is_Some (zip_bytes (session w')) →
       zipped_selection_ids (session w')
       = video_id <$> filter (fun v => v ∉ failed_videos (session w')) sel
       ∧ (NoDup (video_id <$> sel) →
          zipped_selection_ids (session w') = video_id <$> (fetched_ok sel w).*1)
       ∧ (failed_videos (session w') = [] →
          zipped_selection_ids (session w') = video_id <$> sel)).
Proof.
  intros Hne. split.
  - intros _ Hw. rewrite prepare_zip_within by done.
    eexists. split; [reflexivity|]. by eexists.
  - intros w' Hd _.
    pose proof (prepare_zip_done_inv sel uid w w' Hne Hd) as Hw.
    rewrite prepare_zip_within in Hd by done. injection Hd as <-.
    cbn [session zipped_selection_ids failed_videos]. split_and!; [done| |].
    + intros Hnd. by rewrite failed_of_distinct_ids.
    + intros ->. f_equal. clear. induction sel as [|v t IH]; [done|].
      rewrite filter_cons_True by apply not_elem_of_nil. by rewrite IH.
Qed.

Lemma zipped_selection_ids_successful_witness :
  let sel := [clip_a; clip_b; clip_c] in
  ∃ w', @Run.prepare_zip sample_env sample_host sel jane (fetched jane sel)
        = Run.Done w'
        ∧ zipped_selection_ids (session w')
          = video_id <$> (@fetched_ok sample_env sel (fetched jane sel)).*1.
Proof.
  destruct (@zipped_selection_ids_successful sample_env sample_host
              [clip_a; clip_b; clip_c] jane
              (fetched jane [clip_a; clip_b; clip_c]))
    as (H1 & H2).
  - discriminate.
  - destruct H1 as (w' & Hd & Hz).
    + vm_compute. discriminate.
    + vm_compute. reflexivity.
    + exists w'. split; [exact Hd|].
      destruct (H2 w' Hd Hz) as (_ & H3 & _). apply H3.
      apply (bool_decide_unpack _). vm_compute. exact I.
Defined.

(** ** Names *)

Section names.

Lemma zipinfo_filename_no_nul s : 0 ∉ s → Run.zipinfo_filename s = s.
Proof.
  induction s as [|c t IH]; [done|]. intros Hn. simpl.
  destruct (N.eqb_spec c 0) as [->|_]; [exfalso; apply Hn; by left|].
  rewrite IH; [done|]. intros Hin. apply Hn. by right.
Qed.

End names.

(** C8 fails as stated: [clip_c] is downloaded as a WebM file and its
    archive member is still named with the extension [mp4]; with the
    catalogue fetched for [jane], once the text field reads [bob] the
    archive of a selection from that catalogue is named after [bob]; the
    member of a video whose title holds a null character is named by the
    part of the name before it; and of 65536 fetched items none becomes
    an entry, the assembly raising at the last of them. *)
Lemma archive_names_ignore_extension_and_owner :
  let w := fetched jane [clip_a; clip_c] in
  let w1 := @Run.script_runs sample_env sample_host app1
              [(Rerun, bob); (ToggleVideo (u "3"), bob)] w in
  let run := @Run.script_run sample_env sample_host app1 (ClickPrepare top) bob w1 in
  (@ydl_download sample_env 0%nat url_c = Some (u "webm", [x04; x05])
   ∧ Run.top_bar run
     = Some (Some ([(u "Jane_Doe_Third_clip.mp4", [x04; x05])],
                   Some (u "tiktok_download_bob.zip")))
   ∧ zip_bytes (session (Run.after run))
     = Some [(u "Jane_Doe_Third_clip.mp4", [x04; x05])]
   ∧ u "Jane_Doe_Third_clip.mp4"
     ≠ sanitize_filename (PyStr (u "Jane Doe")) ++ u "_"
       ++ sanitize_filename (PyStr (u "Third: clip?")) ++ u "." ++ u "webm")
  ∧ (user_id (session w) = jane
     ∧ video_list (session (Run.after run)) = video_list (session w)
     ∧ zip_filename (session (Run.after run)) = Some (u "tiktok_download_bob.zip")
     ∧ u "tiktok_download_bob.zip" ≠ u "tiktok_download_" ++ jane ++ u ".zip")
  ∧ (final_filename clip_nul = u "Jane_Doe_Clip" ++ [0] ++ u "two.mp4"
     ∧ ∃ w', @Run.prepare_zip sample_env sample_host [clip_nul] jane
               (fetched jane [clip_nul]) = Run.Done w'
             ∧ zip_bytes (session w') = Some [(u "Jane_Doe_Clip", [x01; x02; x03])])
  ∧ (@fetch_failed sample_env bulk_selection (fetched jane bulk_selection) = []
     ∧ ∃ w', @Run.prepare_zip sample_env sample_host bulk_selection jane
               (fetched jane bulk_selection) = Run.Raised w'
             ∧ zip_bytes (session w') = None).
Proof.
  intros w w1 run. split_and!.
  - vm_compute. reflexivity.
  - vm_compute. reflexivity.
  - vm_compute. reflexivity.
  - vm_compute. discriminate.
  - vm_compute. reflexivity.
  - vm_compute. reflexivity.
  - vm_compute. reflexivity.
  - vm_compute. discriminate.
  - vm_compute. reflexivity.
  - eexists. split; vm_compute; reflexivity.
  - apply bulk_selection_raises.
  - destruct bulk_selection_raises as (_ & k & Hr).
    eexists. split; [exact Hr|reflexivity].
Qed.

(** C8, amended. Within the limits of [allowZip64=False], every
    successfully fetched item becomes one archive member named
    <sanitised uploader>_<sanitised title>.mp4, cut at its first null
    character if it has one, with ["user"] and ["video"] standing in for
    a missing uploader or title and the extension fixed to [mp4] whatever
    file was downloaded; beyond those limits [prepare_zip] raises and no
    entry is stored.  The archive is named tiktok_download_<user_id>.zip
    after the [user_id] given to [prepare_zip], which in a script run is
    the content of the text field at that run, whoever owns the listed
    catalogue. *)
Theorem archive_naming `{Env} `{Host} (sel : list video) (uid : pystr) (w : world) :
  sel ≠ [] →
  let entry_name (v : video) : pystr :=
    sanitize_filename (dict_get (video_info v) "uploader" (PyStr (u "user")))
    ++ u "_"
    ++ sanitize_filename (PyStr (default (u "video") (video_title v)))
    ++ u ".mp4" in
  (within_zip32 (member <$> fetched_ok sel w) = true →
   ∃ w', Run.prepare_zip sel uid w = Run.Done w'
         ∧ (∃ a, zip_bytes (session w') = Some a
                 ∧ a.*1 = (fun v => Run.zipinfo_filename (entry_name v))
                          <$> (fetched_ok sel w).*1
                 ∧ length a = length (fetched_ok sel w))
         ∧ zip_filename (session w')
           = Some (u "tiktok_download_" ++ uid ++ u ".zip"))
  ∧ (within_zip32 (member <$> fetched_ok sel w) = false →
     ∃ w', Run.prepare_zip sel uid w = Run.Raised w'
           ∧ session w' = session w)
  ∧ (∀ v, 0 ∉ entry_name v → Run.zipinfo_filename (entry_name v) = entry_name v)
  ∧ (∀ app p text o,
       selected_videos (session w) = sel →
       download_triggered (session w) = false →
       bar_at p (Run.script_run app (ClickPrepare p) text w) = Some o →
       zip_filename (session (Run.after (Run.script_run app (ClickPrepare p) text w)))
       = Some (u "tiktok_download_" ++ text ++ u ".zip")
       ∧ ∃ a, o = Some (a, Some (u "tiktok_download_" ++ text ++ u ".zip"))).
Proof.
  intros Hne entry_name. split_and!.
  - intros Hw. rewrite prepare_zip_within by done. eexists. split; [reflexivity|].
    cbn [session zip_bytes zip_filename]. split; [|done].
    eexists. split_and!; [done| |by rewrite !length_fmap].
    rewrite <- !list_fmap_compose. apply Forall_fmap_ext, Forall_forall.
    intros o [Hs Ho]%list_elem_of_filter. cbn.
    rewrite (downloads_name sel w o Ho Hs). cbn.
    unfold final_filename, entry_name. by destruct (video_title o.1).
  - intros Hw. destruct (prepare_zip_beyond sel uid w Hne Hw) as (k & _ & ->).
    by eexists.
  - intros v. apply zipinfo_filename_no_nul.
  - intros app p text o Hsel Hflag Hbar.
    destruct (script_run_prepare_run app p text w o) as (wx & w1 & _ & Hd & -> & ->);
      [by rewrite Hsel|done|done|].
    rewrite Hsel in Hd.
    pose proof (prepare_zip_done_inv sel text wx w1 Hne Hd) as Hwx.
    rewrite prepare_zip_within in Hd by done. injection Hd as <-.
    cbn [session zip_filename]. split; [done|].
    unfold zip_download_button. cbn [zip_bytes zip_filename].
    rewrite truthy_zip_some. by eexists.
Qed.

Lemma archive_naming_witness :
  let sel := [clip_a; clip_c] in
  ∃ w', @Run.prepare_zip sample_env sample_host sel jane (fetched jane sel)
        = Run.Done w'
        ∧ zip_filename (session w') = Some (u "tiktok_download_jane.zip").
Proof.
  destruct (@archive_naming sample_env sample_host [clip_a; clip_c] jane
              (fetched jane [clip_a; clip_c])) as (H1 & _).
  - discriminate.
  - destruct H1 as (w' & Hd & _ & Hn); [vm_compute; reflexivity|].
    exists w'. split; [exact Hd|exact Hn].
Defined.

(** ** Validity of the offered archive *)

Section validity_run.
Context `{Env} `{Host}.

Lemma zip_download_button_stored s a name :
  zip_download_button s = Some (a, name) →
  zip_bytes s = Some a ∧ name = zip_filename s.
Proof.
  unfold zip_download_button. destruct (truthy_zip (zip_bytes s)); [|done].
  destruct (zip_bytes s); [|done]. by intros [= <- <-].
Qed.

(** Toggle-then-untoggle of a listed video from a valid artifact. *)
Lemma toggle_round_trip_run app c text1 text2 w :
  download_triggered (session w) = false →
  c ∈ video_id <$> video_list (session w) →
  truthy_zip (zip_bytes (session w)) = true →
  selected_ids (session w) = list_to_set (zipped_selection_ids (session w)) →
  let once := Run.script_run app (ToggleVideo c) text1 w in
  let twice := Run.script_run app (ToggleVideo c) text2 (Run.after once) in
  selected_ids (session (Run.after twice)) = selected_ids (session w)
  ∧ Run.top_bar once = Some None ∧ Run.top_bar twice = Some None
  ∧ Run.bottom_bar once = (if Run.completed once then Some None else None)
  ∧ Run.bottom_bar twice = (if Run.completed twice then Some None else None)
  ∧ zip_bytes (session (Run.after twice)) = None
  ∧ zipped_selection_ids (session (Run.after twice)) = [].
Proof.
  intros Hflag Hc Ht Hvalid once twice.
  assert (video_list (session w) ≠ []) as Hvl
    by (intros E; rewrite E in Hc; by apply elem_of_nil in Hc).
  destruct (script_run_idle_run app (ToggleVideo c) text1 w)
    as (Ho1 & Hs1 & _ & Hb1); try done.
  fold once in Ho1, Hs1, Hb1. cbn [on_event with_session session] in Ho1, Hs1, Hb1.
  set (s1 := Run.set_user_id text1 (flip_toggle c (session w))) in *.
  assert (download_triggered s1 = false) as Hflag1 by done.
  destruct (run_app_check_valid s1 Hflag1) as (_ & _ & Hinv).
  assert (run_app_check s1 = invalidate_zip s1) as Hchk.
  { apply Hinv; [done|].
    change (selected_ids s1) with (selected_ids (flip_toggle c (session w))).
    change (zipped_selection_ids s1) with (zipped_selection_ids (session w)).
    rewrite <- Hvalid. by apply flip_toggle_changes. }
  rewrite Hchk in Ho1, Hs1, Hb1.
  destruct (script_run_idle_run app (ToggleVideo c) text2 (Run.after once))
    as (Ho2 & Hs2 & _ & Hb2); try done; try (by rewrite Hs1).
  fold twice in Ho2, Hs2, Hb2. cbn [on_event with_session session] in Ho2, Hs2, Hb2.
  rewrite Hs1 in Ho2, Hs2, Hb2.
  set (s2 := Run.set_user_id text2 (flip_toggle c (invalidate_zip s1))) in *.
  assert (run_app_check s2 = s2) as Hchk2 by (by apply run_app_check_none).
  rewrite Hchk2 in Ho2, Hs2, Hb2.
  rewrite Hs2. split_and!; try done.
  unfold selected_ids. f_equal. f_equal. apply selected_videos_ext; [done|].
  intros v.
  change (is_on s2 v) with (is_on (flip_toggle c (flip_toggle c (session w))) v).
  rewrite !is_on_flip_toggle. destruct (decide _); [|done].
  by rewrite negb_involutive.
Qed.

End validity_run.

(** A listed video without thumbnail, or an id listed twice, ends the
    run in the grid: the top bar is shown, the bottom bar is not
    reached. *)
Example grid_raises_without_thumbnail :
  let run := @Run.script_run sample_env sample_host app1 Rerun jane
               (fetched jane [clip_a; video_b; clip_c]) in
  Run.top_bar run = Some None ∧ Run.bottom_bar run = None
  ∧ Run.completed run = false.
Proof. vm_compute. done. Qed.

Example grid_raises_on_repeated_id :
  let run := @Run.script_run sample_env sample_host app3 Rerun jane
               (fetched jane [clip_a; clip_b; clip_a]) in
  Run.top_bar run = Some None ∧ Run.bottom_bar run = None
  ∧ Run.completed run = false
  ∧ download_log (Run.after run) = [clip_a; clip_b].
Proof. vm_compute. done. Qed.

(** C1 fails as stated: with both videos selected and the download of
    [clip_b] failing, the run of the prepare click offers the archive at
    both bars while the recorded identities differ from the selection;
    the rerun of a click on the download button offers it again. *)
Lemma archive_offered_for_other_selection :
  let w := @Run.script_runs sample_env sample_host app1
             [(ToggleVideo (u "1"), jane); (ToggleVideo (u "2"), jane)]
             (fetched jane [clip_a; clip_b]) in
  let run := @Run.script_run sample_env sample_host app1 (ClickPrepare top) jane w in
  let rerun := @Run.script_run sample_env sample_host app1 (ClickDownloadZip top) jane
                 (Run.after run) in
  let offered := Some (Some ([(u "Jane_Doe_First_clip.mp4", [x01; x02; x03])],
                             Some (u "tiktok_download_jane.zip"))) in
  Run.top_bar run = offered ∧ Run.bottom_bar run = offered
  ∧ selected_ids (session (Run.after run))
    ≠ list_to_set (zipped_selection_ids (session (Run.after run)))
  ∧ Run.top_bar rerun = offered ∧ Run.bottom_bar rerun = offered
  ∧ selected_ids (session (Run.after rerun))
    ≠ list_to_set (zipped_selection_ids (session (Run.after rerun))).
Proof.
  intros w run rerun offered.
  split_and!; [by vm_compute|by vm_compute| |by vm_compute|by vm_compute|];
    apply (bool_decide_eq_false_1 _); by vm_compute.
Qed.

(** C1, amended. In a run that follows neither a prepare click nor a
    click on the download button, the archive is offered at the top
    action bar iff after the interaction's handler an artifact is stored
    and the Selection Set is set-equal to [zipped_selection_ids]; the
    bottom action bar shows the same when the grid between the bars
    renders, and is not reached when a cell of the grid raises; an
    offered archive is the stored one, under the stored file name, and a
    stored artifact whose recorded set differs from the selection is
    discarded ([zip_bytes] None, recorded identities empty) and not
    offered.  After a toggle-then-untoggle round trip from a valid
    artifact the selection is the original one and the artifact stays
    discarded. *)
Theorem archive_validity `{Env} `{Host}
    (app : app_choice) (ev : event) (text text1 text2 c : pystr) (w : world) :
  download_triggered (session w) = false →
  (∀ p, ev ≠ ClickPrepare p) →
  (∀ p, ev ≠ ClickDownloadZip p) →
  c ∈ video_id <$> video_list (session w) →
  let s0 := Run.set_user_id text (session (on_event ev w)) in
  let run := Run.script_run app ev text w in
  (∃ o, Run.top_bar run = Some o
        ∧ (is_Some o ↔
           truthy_zip (zip_bytes s0) = true
           ∧ selected_ids s0 = list_to_set (zipped_selection_ids s0))
        ∧ (∀ a name, o = Some (a, name) →
             zip_bytes s0 = Some a
             ∧ name = zip_filename s0
             ∧ session (Run.after run) = s0
             ∧ selected_ids (session (Run.after run))
               = list_to_set (zipped_selection_ids (session (Run.after run))))
        ∧ Run.bottom_bar run = (if Run.completed run then Some o else None))
  ∧ (Run.completed run = true ↔ grid_renders (video_list (session w)))
  ∧ (truthy_zip (zip_bytes s0) = true →
     selected_ids s0 ≠ list_to_set (zipped_selection_ids s0) →
     zip_bytes (session (Run.after run)) = None
     ∧ zipped_selection_ids (session (Run.after run)) = []
     ∧ Run.top_bar run = Some None)
  ∧ (truthy_zip (zip_bytes (session w)) = true →
     selected_ids (session w) = list_to_set (zipped_selection_ids (session w)) →
     let once := Run.script_run app (ToggleVideo c) text1 w in
     let twice := Run.script_run app (ToggleVideo c) text2 (Run.after once) in
     selected_ids (session (Run.after twice)) = selected_ids (session w)
     ∧ Run.top_bar once = Some None ∧ Run.top_bar twice = Some None
     ∧ Run.bottom_bar once = (if Run.completed once then Some None else None)
     ∧ Run.bottom_bar twice = (if Run.completed twice then Some None else None)
     ∧ zip_bytes (session (Run.after twice)) = None
     ∧ zipped_selection_ids (session (Run.after twice)) = []).
Proof.
  intros Hflag Hp Hd Hc s0 run.
  assert (video_list (session w) ≠ []) as Hvl
    by (intros E; rewrite E in Hc; by apply elem_of_nil in Hc).
  destruct (script_run_idle_run app ev text w Hp Hd Hflag Hvl)
    as (Ho & Hs & Hcomp & Hb).
  fold run s0 in Ho, Hs, Hcomp, Hb.
  destruct (on_event_idle ev w Hd) as [_ Hflag0].
  assert (download_triggered s0 = false) as Hflag0' by (subst s0; cbn; congruence).
  destruct (run_app_check_valid s0 Hflag0') as (Hiff & Hkeep & Hdrop).
  split_and!; [|done| |].
  - eexists. split; [exact Ho|]. split_and!; [| |done].
    + by rewrite zip_download_button_some.
    + intros a name Hoff.
      assert (truthy_zip (zip_bytes (run_app_check s0)) = true) as Ht
        by (apply zip_download_button_some; rewrite Hoff; by eexists).
      rewrite (Hkeep Ht) in Hoff, Hs.
      apply zip_download_button_stored in Hoff as [Hz Hn].
      rewrite Hs. split_and!; [done|done|done|]. by apply Hiff.
  - intros Ht Hne. rewrite Ho, Hs, (Hdrop Ht Hne). done.
  - intros Ht Hvalid. by apply toggle_round_trip_run.
Qed.

Lemma archive_validity_witness :
  let w := @Run.script_runs sample_env sample_host app1
             [(ToggleVideo (u "1"), jane); (ToggleVideo (u "3"), jane);
              (ClickPrepare top, jane)]
             (fetched jane [clip_a; clip_b; clip_c]) in
  let once := @Run.script_run sample_env sample_host app1 (ToggleVideo (u "2")) jane w in
  let twice := @Run.script_run sample_env sample_host app1 (ToggleVideo (u "2")) jane
                 (Run.after once) in
  is_Some (zip_bytes (session w))
  ∧ selected_ids (session (Run.after twice)) = selected_ids (session w)
  ∧ zip_bytes (session (Run.after twice)) = None.
Proof.
  destruct (@archive_validity sample_env sample_host app1 Rerun jane jane jane (u "2")
              (@Run.script_runs sample_env sample_host app1
                 [(ToggleVideo (u "1"), jane); (ToggleVideo (u "3"), jane);
                  (ClickPrepare top, jane)]
                 (fetched jane [clip_a; clip_b; clip_c])))
    as (_ & _ & _ & H5).
  - vm_compute. reflexivity.
  - intros p. discriminate.
  - intros p. discriminate.
  - apply (bool_decide_unpack _). vm_compute. exact I.
  - destruct H5 as (H6 & _ & _ & _ & _ & H7 & _).
    + vm_compute. reflexivity.
    + apply (bool_decide_unpack _). vm_compute. exact I.
    + split_and!; [vm_compute; eexists; reflexivity|exact H6|exact H7].
Defined.

(** ** The assembly, the cache and the frame *)

Section assembly_frame.
Context `{Env} `{Host}.

Lemma robust_download_result v s c s' c' l :
  (robust_download_to_memory v (World s c l)).1
  = (robust_download_to_memory v (World s' c' l)).1.
Proof.
  unfold robust_download_to_memory. cbn [download_log].
  destruct (video_info v !! "webpage_url") as [url|]; [|done].
  by destruct (ydl_download (length l) url) as [[ext b]|].
Qed.

(** The loop depends on the process only through the download log. *)
Lemma zip_loop_cache sel a f s c c' l :
  match Run.zip_loop sel a f (World s c l) with
  | Run.Done (a', f', w') =>
      Run.zip_loop sel a f (World s c' l)
      = Run.Done (a', f', World (session w') c' (download_log w'))
  | Run.Raised w' =>
      Run.zip_loop sel a f (World s c' l)
      = Run.Raised (World (session w') c' (download_log w'))
  end.
Proof.
  revert a f l. induction sel as [|v t IH]; intros a f l; [done|].
  cbn [Run.zip_loop].
  pose proof (robust_download_log v (World s c l)) as H1.
  pose proof (robust_download_log v (World s c' l)) as H2.
  pose proof (robust_download_result v s c s c' l) as H3.
  destruct (robust_download_to_memory v (World s c l)) as [[vb fn] w1].
  destruct (robust_download_to_memory v (World s c' l)) as [[vb' fn'] w2].
  cbn [fst snd session cache download_log] in H1, H2, H3.
  injection H3 as <- <-. subst w1 w2.
  destruct (truthy_bytes vb && truthy_name fn).
  - destruct (Run.writestr a (default [] fn) (default [] vb)) as [a1|]; [|done].
    apply IH.
  - apply IH.
Qed.

Lemma prepare_zip_cache_run sel uid w c' :
  match Run.prepare_zip sel uid w with
  | Run.Done w' =>
      Run.prepare_zip sel uid (World (session w) c' (download_log w))
      = Run.Done (World (session w') c' (download_log w'))
  | Run.Raised w' =>
      Run.prepare_zip sel uid (World (session w) c' (download_log w))
      = Run.Raised (World (session w') c' (download_log w'))
  end.
Proof.
  destruct sel as [|v t]; [done|]. unfold Run.prepare_zip.
  pose proof (zip_loop_cache (v :: t) [] [] (session w) (cache w) c' (download_log w))
    as Hl.
  assert (World (session w) (cache w) (download_log w) = w) as Hw by (by destruct w).
  rewrite Hw in Hl.
  destruct (Run.zip_loop (v :: t) [] [] w) as [[[a f] w1]|w1]; rewrite Hl; [|done].
  destruct (Run.close_error a); [done|].
  by destruct (0 <? Run.tell a).
Qed.

End assembly_frame.

(** X8. The ZIP assembly does not go through the download cache: it
    neither reads nor fills it, and its outcome is the same whatever the
    cache holds.  When it returns it has downloaded every selected video,
    in selection order, also those that App 3 has already cached; when it
    raises, beyond the limits of [allowZip64=False], it has downloaded a
    non-empty prefix of the selection and written nothing to the
    session.  It returns exactly when the members stay within those
    limits. *)
Theorem prepare_zip_ignores_cache `{Env} `{Host}
    (sel : list video) (uid : pystr) (w : world)
    (c' : gmap video fetch_result) :
  match Run.prepare_zip sel uid w with
  | Run.Done w' =>
      cache w' = cache w
      ∧ download_log w' = download_log w ++ sel
      ∧ Run.prepare_zip sel uid (World (session w) c' (download_log w))
        = Run.Done (World (session w') c' (download_log w'))
      ∧ within_zip32 (member <$> fetched_ok sel w) = true
  | Run.Raised w' =>
      cache w' = cache w
      ∧ session w' = session w
      ∧ (∃ k, (0 < k ≤ length sel)%nat
              ∧ download_log w' = download_log w ++ take k sel)
      ∧ Run.prepare_zip sel uid (World (session w) c' (download_log w))
        = Run.Raised (World (session w') c' (download_log w'))
      ∧ within_zip32 (member <$> fetched_ok sel w) = false
  end.
Proof.
  pose proof (prepare_zip_cache_run sel uid w c') as Hc.
  destruct sel as [|v t].
  { cbn in *. split_and!; [done|by rewrite app_nil_r|done|done]. }
  destruct (within_zip32 (member <$> fetched_ok (v :: t) w)) eqn:Hw.
  - rewrite prepare_zip_within in * by done. by split_and!.
  - destruct (prepare_zip_beyond (v :: t) uid w) as (k & Hk & Hr); [done|done|].
    rewrite Hr in *. split_and!; [done|done|by exists k|done|done].
Qed.

(** X9. [prepare_zip] changes only the four artifact keys and the ledger:
    when it returns, the video list, the toggles, hence the selection,
    the checkboxes, the download flag and the user id are left as they
    were, and the ledger and the recorded identities follow the order of
    the selection; when it raises, the whole session is left as it was,
    the previous artifact and ledger included. *)
Theorem prepare_zip_frame `{Env} `{Host} (sel : list video) (uid : pystr) (w : world) :
  match Run.prepare_zip sel uid w with
  | Run.Done w' =>
      video_list (session w') = video_list (session w)
      ∧ toggles (session w') = toggles (session w)
      ∧ selected_videos (session w') = selected_videos (session w)
      ∧ select_all_top (session w') = select_all_top (session w)
      ∧ select_all_bottom (session w') = select_all_bottom (session w)
      ∧ download_triggered (session w') = download_triggered (session w)
      ∧ user_id (session w') = user_id (session w)
      ∧ (sel ≠ [] →
         failed_videos (session w') `sublist_of` sel
         ∧ zipped_selection_ids (session w') `sublist_of` (video_id <$> sel))
  | Run.Raised w' => session w' = session w ∧ sel ≠ []
  end.
Proof.
  destruct sel as [|v t]; [by split_and!|].
  destruct (within_zip32 (member <$> fetched_ok (v :: t) w)) eqn:Hw.
  - rewrite prepare_zip_within by done. cbn [session video_list toggles
      select_all_top select_all_bottom download_triggered user_id
      failed_videos zipped_selection_ids].
    split_and!; try done. intros _. split.
    + apply fetch_failed_sublist.
    + apply fmap_sublist, sublist_filter.
  - destruct (prepare_zip_beyond (v :: t) uid w) as (k & Hk & ->); done.
Qed.

(** X10. After a prepare click whose action bar got to its download
    column, the archive is offered there, and a further plain rerun
    offers it at the top bar only if no download of the run failed: with
    distinct identities, one failed video makes the next rerun discard
    the archive. *)
Theorem partial_archive_dropped_on_rerun `{Env} `{Host}
    (app : app_choice) (p : position) (text text' : pystr) (o : offer) (w : world) :
  selected_videos (session w) ≠ [] →
  download_triggered (session w) = false →
  NoDup (video_id <$> video_list (session w)) →
  let run1 := Run.script_run app (ClickPrepare p) text w in
  let run2 := Run.script_run app Rerun text' (Run.after run1) in
  bar_at p run1 = Some o →
  is_Some o
  ∧ (∃ o2, Run.top_bar run2 = Some o2
           ∧ (is_Some o2 ↔ failed_videos (session (Run.after run1)) = [])
           ∧ Run.bottom_bar run2 = (if Run.completed run2 then Some o2 else None))
  ∧ (failed_videos (session (Run.after run1)) ≠ [] →
     zip_bytes (session (Run.after run2)) = None).
Proof.
  intros Hsel Hflag Hnd run1 run2 Hbar.
  destruct (script_run_prepare_run app p text w o Hsel Hflag Hbar)
    as (wx & w1 & Hwx & Hd & Hs1 & ->).
  fold run1 in Hs1.
  set (sel := selected_videos (session w)) in *.
  assert (sel ≠ []) as Hsel' by done.
  pose proof (prepare_zip_done_inv sel text wx w1 Hsel' Hd) as Hw.
  rewrite prepare_zip_within in Hd by done. injection Hd as <-.
  cbn [session] in Hs1 |- *.
  destruct (run_app_check_keeps (Run.set_user_id text (session w)))
    as (Hvl & Htg & _ & _ & Hfl).
  rewrite Hwx, Hvl, Htg, Hfl in Hs1.
  cbn [Run.set_user_id video_list toggles download_triggered] in Hs1.
  rewrite Hflag in Hs1.
  assert (video_list (session (Run.after run1)) ≠ []) as Hvl1.
  { rewrite Hs1. cbn. intros E. unfold sel, selected_videos in Hsel'.
    by rewrite E in Hsel'. }
  destruct (script_run_idle_run app Rerun text' (Run.after run1))
    as (Ho2 & Hs2 & _ & Hb2); try done; try (by rewrite Hs1).
  fold run2 in Ho2, Hs2, Hb2. cbn [on_event] in Ho2, Hs2, Hb2.
  set (s1 := Run.set_user_id text' (session (Run.after run1))) in *.
  destruct (run_app_check_valid s1) as (Hiff & _ & Hdrop);
    [subst s1; by rewrite Hs1|].
  assert (selected_ids s1 = list_to_set (zipped_selection_ids s1)
          ↔ failed_videos (session (Run.after run1)) = []) as Hrec.
  { subst s1. rewrite Hs1.
    cbn [Run.set_user_id zipped_selection_ids failed_videos].
    unfold selected_ids at 1. unfold selected_videos at 1. cbn [video_list toggles].
    change (filter _ (video_list (session w))) with sel.
    apply recorded_ids_complete.
    - assert (video_id <$> sel `sublist_of` video_id <$> video_list (session w))
        as Hsub by apply fmap_sublist, sublist_filter.
      by eapply sublist_NoDup.
    - apply sublist_subseteq, fetch_failed_sublist. }
  assert (truthy_zip (zip_bytes s1) = true) as Ht
    by (subst s1; rewrite Hs1; apply truthy_zip_some).
  split_and!.
  - apply zip_download_button_some, truthy_zip_some.
  - eexists. split; [exact Ho2|]. split; [|done].
    rewrite zip_download_button_some, Hiff, <- Hrec. tauto.
  - intros Hne. rewrite Hs2, Hdrop; [done|done|]. by rewrite Hrec.
Qed.

Lemma partial_archive_dropped_on_rerun_witness :
  let w := @Run.script_runs sample_env sample_host app1
             [(ToggleVideo (u "1"), jane); (ToggleVideo (u "2"), jane)]
             (fetched jane [clip_a; clip_b]) in
  let run1 := @Run.script_run sample_env sample_host app1 (ClickPrepare top) jane w in
  let run2 := @Run.script_run sample_env sample_host app1 Rerun jane (Run.after run1) in
  zip_bytes (session (Run.after run1))
  = Some [(u "Jane_Doe_First_clip.mp4", [x01; x02; x03])]
  ∧ zip_bytes (session (Run.after run2)) = None.
Proof.
  destruct (@partial_archive_dropped_on_rerun sample_env sample_host app1 top jane jane
              (Some ([(u "Jane_Doe_First_clip.mp4", [x01; x02; x03])],
                     Some (u "tiktok_download_jane.zip")))
              (@Run.script_runs sample_env sample_host app1
                 [(ToggleVideo (u "1"), jane); (ToggleVideo (u "2"), jane)]
                 (fetched jane [clip_a; clip_b])))
    as (_ & _ & H3).
  - vm_compute. discriminate.
  - vm_compute. reflexivity.
  - apply (bool_decide_unpack _). vm_compute. exact I.
  - vm_compute. reflexivity.
  - split; [vm_compute; reflexivity|]. apply H3. vm_compute. discriminate.
Defined.

(** ** The grid of App 3 *)

Section grid_more_run.
Context `{Env} `{Host}.

Lemma render_cells_app app seen vs1 vs2 w :
  Run.render_cells app seen (vs1 ++ vs2) w =
  match Run.render_cells app seen vs1 w with
  | Run.Done w1 => Run.render_cells app (seen ++ (video_id <$> vs1)) vs2 w1
  | Run.Raised w' => Run.Raised w'
  end.
Proof.
  revert seen w. induction vs1 as [|v t IH]; intros seen w.
  - cbn. by rewrite app_nil_r.
  - rewrite <- app_comm_cons, fmap_cons. cbn [Run.render_cells].
    destruct (Run.render_cell app seen v w) as [w1|w1]; [|done].
    rewrite IH. by rewrite <- app_assoc.
Qed.

Lemma render_rows_concat app seen rows w :
  Run.render_rows app seen rows w = Run.render_cells app seen (concat rows) w.
Proof.
  revert seen w. induction rows as [|r rows IH]; intros seen w; [done|].
  cbn [Run.render_rows concat]. rewrite render_cells_app.
  destruct (Run.render_cells app seen r w) as [w1|w1]; [|done]. apply IH.
Qed.

(** With nothing cached for them, distinct videos are downloaded one
    after the other. *)
Lemma cached_calls_fresh vs w :
  NoDup vs → (∀ v, v ∈ vs → cache w !! v = None) →
  download_log (foldl (fun w0 v => (get_cached_download_data v w0).2) w vs)
  = download_log w ++ vs.
Proof.
  revert w. induction vs as [|v t IH]; intros w Hnd Hnone; cbn [foldl].
  - by rewrite app_nil_r.
  - apply NoDup_cons in Hnd as [Hv Hnd].
    rewrite (get_cached_miss v w) by (apply Hnone; by left). cbn [snd].
    rewrite IH; [cbn; by rewrite <- app_assoc|done|].
    intros v' Hv'. cbn. rewrite lookup_insert_ne by (by intros ->).
    apply Hnone. by right.
Qed.

End grid_more_run.

(** X14. Rendering the grid of App 3 gets to its end exactly when every
    cell renders and no id is repeated; it has then downloaded each
    listed video that was not yet cached exactly once and nothing else,
    left the session alone and cached a result for every listed video,
    and rendering again downloads nothing.  When a cell raises, the
    videos downloaded are not-yet-cached listed videos, once each, and
    no cached result is lost.  Apps 1 and 2 download nothing while
    rendering. *)
Theorem render_grid_downloads_missing `{Env} `{Host} (app : app_choice) (w : world) :
  match Run.render_grid app3 w with
  | Run.Done w' =>
      grid_renders (video_list (session w))
      ∧ session w' = session w
      ∧ (∀ v, v ∈ video_list (session w) → is_Some (cache w' !! v))
      ∧ (∃ l, download_log w' = download_log w ++ l
              ∧ NoDup l
              ∧ ∀ v, v ∈ l ↔ v ∈ video_list (session w) ∧ cache w !! v = None)
      ∧ Run.render_grid app3 w' = Run.Done w'
  | Run.Raised w' =>
      ¬ grid_renders (video_list (session w))
      ∧ session w' = session w
      ∧ cache w ⊆ cache w'
      ∧ ∃ l, download_log w' = download_log w ++ l
             ∧ NoDup l
             ∧ ∀ v, v ∈ l → v ∈ video_list (session w) ∧ cache w !! v = None
  end
  ∧ (app ≠ app3 →
     Run.render_grid app w = Run.Done w ∨ Run.render_grid app w = Run.Raised w).
Proof.
  split.
  - destruct (render_grid_cases app3 w) as [[Hg ->]|(Hg & k & Hk & ->)].
    + destruct (cached_calls_all (video_list (session w)) w) as (Hs & Hall & Hl).
      change (foldl _ w (video_list (session w))) with (render_grid app3 w) in *.
      split_and!; try done.
      destruct (render_grid_cases app3 (render_grid app3 w))
        as [[_ ->]|(Hg' & _)]; [|by rewrite Hs in Hg'].
      f_equal. apply render_grid_frame. right. intros v Hv. apply Hall.
      by rewrite Hs in Hv.
    + destruct (cached_calls_all (take k (video_list (session w))) w)
        as (Hs & _ & l & Hl & Hnd & Hin).
      pose proof (cached_cells_frame app3 (take k (video_list (session w))) w)
        as (_ & Hc & _).
      split_and!; try done. exists l. split_and!; try done.
      intros v [Hv Hn]%Hin. split; [|done].
      eapply sublist_subseteq; [apply sublist_take|done].
  - intros Happ.
    destruct (render_grid_cases app w) as [[_ ->]|(_ & k & _ & ->)].
    + left. f_equal. apply render_grid_frame. by left.
    + right. f_equal. by apply cached_cells_frame.
Qed.

(** X25. The rerun of a click on the download button skips the check of
    the selection: a stored archive is offered again at the top bar, with
    its file name, whatever the selection is, and at the bottom bar too
    when the grid renders; nothing of the artifact or the selection
    changes, and the flag set by the click is cleared by the same run,
    also when a cell of the grid raises. *)
Theorem download_click_keeps_archive `{Env} `{Host}
    (app : app_choice) (p : position) (text : pystr) (a : archive) (w : world) :
  video_list (session w) ≠ [] →
  zip_bytes (session w) = Some a →
  let run := Run.script_run app (ClickDownloadZip p) text w in
  let o := Some (a, zip_filename (session w)) in
  Run.top_bar run = Some o
  ∧ Run.bottom_bar run = (if Run.completed run then Some o else None)
  ∧ (Run.completed run = true ↔ grid_renders (video_list (session w)))
  ∧ zip_bytes (session (Run.after run)) = Some a
  ∧ zipped_selection_ids (session (Run.after run)) = zipped_selection_ids (session w)
  ∧ selected_videos (session (Run.after run)) = selected_videos (session w)
  ∧ failed_videos (session (Run.after run)) = failed_videos (session w)
  ∧ download_triggered (session (Run.after run)) = false.
Proof.
  intros Hvl Hz run o. subst run o. unfold Run.script_run. cbn [on_event].
  set (w1 := with_session (Run.set_user_id text) (with_session on_download_click w)).
  destruct (video_list (session w1)) eqn:E; [by cbn in E|]. clear E.
  unfold Run.run_app.
  assert (with_session run_app_check w1 = w1) as -> by done.
  rewrite run_bar_idle by done.
  assert (∀ p0 w0, common_action_bar_ui p0 (ClickDownloadZip p) w0
                   = (zip_download_button (session w0),
                      if download_triggered (session w0)
                      then with_session reset_download_triggered w0 else w0))
    as Hbar by done.
  rewrite Hbar.
  set (w2 := if download_triggered (session w1) then _ else _).
  assert (session w2
          = reset_download_triggered (Run.set_user_id text (on_download_click (session w))))
    as Hs2 by done.
  assert (zip_download_button (session w1) = Some (a, zip_filename (session w)))
    as ->.
  { unfold zip_download_button. cbn. by rewrite Hz, truthy_zip_some. }
  destruct (render_grid_cases app w2) as [[Hg ->]|(Hg & k & _ & ->)].
  - pose proof (render_grid_frame app w2) as (Hs3 & _ & _).
    rewrite run_bar_idle by done. rewrite Hbar, Hs3, Hs2.
    cbn [Run.top_bar Run.bottom_bar Run.completed Run.after fst snd
         download_triggered reset_download_triggered].
    rewrite Hs3, Hs2.
    assert (zip_download_button
              (reset_download_triggered
                 (Run.set_user_id text (on_download_click (session w))))
            = Some (a, zip_filename (session w))) as ->.
    { unfold zip_download_button. cbn. by rewrite Hz, truthy_zip_some. }
    split_and!; try done.
  - pose proof (cached_cells_frame app (take k (video_list (session w2))) w2)
      as (Hs3 & _ & _).
    cbn [Run.top_bar Run.bottom_bar Run.completed Run.after].
    rewrite Hs3, Hs2. split_and!; try done.
Qed.

Lemma download_click_keeps_archive_witness :
  let w := @Run.script_runs sample_env sample_host app1
             [(ToggleVideo (u "1"), jane); (ToggleVideo (u "2"), jane);
              (ClickPrepare top, jane)]
             (fetched jane [clip_a; clip_b]) in
  let run := @Run.script_run sample_env sample_host app1 (ClickDownloadZip bottom)
               jane w in
  Run.top_bar run
  = Some (Some ([(u "Jane_Doe_First_clip.mp4", [x01; x02; x03])],
                zip_filename (session w)))
  ∧ zip_bytes (session (Run.after run))
    = Some [(u "Jane_Doe_First_clip.mp4", [x01; x02; x03])].
Proof.
  destruct (@download_click_keeps_archive sample_env sample_host app1 bottom jane
              [(u "Jane_Doe_First_clip.mp4", [x01; x02; x03])]
              (@Run.script_runs sample_env sample_host app1
                 [(ToggleVideo (u "1"), jane); (ToggleVideo (u "2"), jane);
                  (ClickPrepare top, jane)]
                 (fetched jane [clip_a; clip_b])))
    as (H1 & _ & _ & H4 & _).
  - vm_compute. discriminate.
  - vm_compute. reflexivity.
  - split; [exact H1|exact H4].
Defined.

(** X26. Clearing the cache in App 3 is paid for in the same run: when
    the grid renders, it downloads every listed video afresh, once each
    and in list order, and the run ends with a result cached for every
    listed video; when a cell raises, the run stops there, having
    downloaded listed videos only, each at most once. *)
Theorem clear_cache_redownloads `{Env} `{Host} (text : pystr) (w : world) :
  video_list (session w) ≠ [] →
  let run := Run.script_run app3 ClearCache text w in
  (grid_renders (video_list (session w)) →
   Run.completed run = true
   ∧ download_log (Run.after run) = download_log w ++ video_list (session w)
   ∧ ∀ v, v ∈ video_list (session w) → is_Some (cache (Run.after run) !! v))
  ∧ (¬ grid_renders (video_list (session w)) →
     Run.completed run = false
     ∧ ∃ l, download_log (Run.after run) = download_log w ++ l
            ∧ NoDup l
            ∧ ∀ v, v ∈ l → v ∈ video_list (session w)).
Proof.
  intros Hvl run. subst run. unfold Run.script_run. cbn [on_event].
  set (w1 := with_session (Run.set_user_id text) (cache_data_clear w)).
  destruct (video_list (session w1)) as [|v0 vs0] eqn:E; [by cbn in E|]. clear E.
  unfold Run.run_app.
  set (w0 := with_session run_app_check w1).
  assert (∀ p', ClearCache ≠ ClickPrepare p') as Hev by done.
  rewrite run_bar_idle by done.
  destruct (bar_idle_frame top ClearCache w0 Hev) as (Hc1 & Hl1 & Hf1).
  destruct (common_action_bar_ui top ClearCache w0) as [o1 w2]. cbn [fst snd] in *.
  assert (video_list (session w2) = video_list (session w)) as Hvl2.
  { destruct Hf1 as (-> & _).
    destruct (run_app_check_keeps (session w1)) as (Hk & _).
    subst w0. unfold with_session at 1. cbn [session]. by rewrite Hk. }
  assert (cache w2 = ∅) as Hc2 by (by rewrite Hc1).
  assert (download_log w2 = download_log w) as Hl2 by (by rewrite Hl1).
  destruct (render_grid_cases app3 w2) as [[Hg ->]|(Hg & k & _ & ->)];
    rewrite Hvl2 in Hg.
  - rewrite run_bar_idle by done.
    destruct (bar_idle_frame bottom ClearCache (render_grid app3 w2) Hev)
      as (Hc3 & Hl3 & _).
    destruct (common_action_bar_ui bottom ClearCache _) as [o3 w3].
    cbn [fst snd Run.completed Run.after] in *.
    split; [intros _|done]. split_and!; [done| |].
    + rewrite Hl3. unfold render_grid. rewrite cached_calls_fresh.
      * by rewrite Hl2, Hvl2.
      * rewrite Hvl2. destruct Hg as [_ Hnd]. by apply NoDup_fmap_1 in Hnd.
      * intros v _. by rewrite Hc2.
    + intros v Hv. rewrite Hc3.
      destruct (cached_calls_all (video_list (session w2)) w2) as (_ & Hall & _).
      apply Hall. by rewrite Hvl2.
  - cbn [Run.completed Run.after]. split; [done|intros _]. split; [done|].
    destruct (cached_calls_all (take k (video_list (session w2))) w2)
      as (_ & _ & l & Hl & Hnd & Hin).
    exists l. rewrite <- Hl2. split_and!; try done.
    intros v [Hv _]%Hin. rewrite <- Hvl2.
    eapply sublist_subseteq; [apply sublist_take|done].
Qed.

Lemma clear_cache_redownloads_witness :
  let w := @Run.script_runs sample_env sample_host app3 [(Rerun, jane)]
             (fetched jane [clip_a; clip_b]) in
  let run := @Run.script_run sample_env sample_host app3 ClearCache jane w in
  download_log w = [clip_a; clip_b]
  ∧ download_log (Run.after run) = [clip_a; clip_b; clip_a; clip_b].
Proof.
  destruct (@clear_cache_redownloads sample_env sample_host jane
              (@Run.script_runs sample_env sample_host app3 [(Rerun, jane)]
                 (fetched jane [clip_a; clip_b])))
    as [H1 _].
  - vm_compute. discriminate.
  - destruct H1 as (_ & H2 & _).
    + split; apply (bool_decide_unpack _); vm_compute; exact I.
    + split; [vm_compute; reflexivity|]. rewrite H2. vm_compute. reflexivity.
Defined.

(** X27. Walking the grid row by row, over the chunks of five videos, is
    one walk over the cells in list order: [chunked] does not raise, and
    the outcome, an exception of a cell included, is that of
    [render_grid]. *)
Theorem render_grid_rows_eq `{Env} `{Host} (app : app_choice) (w : world) :
  Run.render_grid_rows app w = Some (Run.render_grid app w).
Proof.
  unfold Run.render_grid_rows, Run.render_grid.
  destruct (chunked_concat (video_list (session w)) 5) as (rows & -> & Hcat);
    [lia|].
  f_equal. rewrite <- Hcat. apply render_rows_concat.
Qed.

(** ** The run without exceptions *)

Section agreement.
Context `{Env} `{Host}.

Lemma stored_members sel w :
  (∀ v, v ∈ sel → 0 ∉ final_filename v) →
  stored <$> (member <$> fetched_ok sel w) = member <$> fetched_ok sel w.
Proof.
  intros Hnul. rewrite <- list_fmap_compose.
  apply Forall_fmap_ext, Forall_forall.
  intros o [Hs Ho]%list_elem_of_filter. unfold stored, member. cbn.
  rewrite (downloads_name sel w o Ho Hs). cbn. f_equal.
  apply zipinfo_filename_no_nul, Hnul.
  rewrite <- (downloads_fst sel w). by apply list_elem_of_fmap_2.
Qed.

Lemma prepare_zip_done_agrees sel uid w w' :
  (∀ v, v ∈ sel → 0 ∉ final_filename v) →
  Run.prepare_zip sel uid w = Run.Done w' → w' = prepare_zip sel uid w.
Proof.
  intros Hnul Hd. destruct sel as [|v t]; [by injection Hd as <-|].
  assert (within_zip32 (member <$> fetched_ok (v :: t) w) = true) as Hw
    by (by eapply prepare_zip_done_inv).
  rewrite prepare_zip_within in Hd by done. injection Hd as <-.
  rewrite prepare_zip_nonempty by done. by rewrite stored_members.
Qed.

Lemma run_bar_agrees p ev w o w' :
  (∀ v, v ∈ video_list (session w) → 0 ∉ final_filename v) →
  Run.common_action_bar_ui p ev w = Run.Done (o, w') →
  common_action_bar_ui p ev w = (o, w').
Proof.
  intros Hnul. unfold Run.common_action_bar_ui, common_action_bar_ui.
  set (prepared := match ev with ClickPrepare _ => _ | _ => Run.Done w end).
  set (w1 := match ev with ClickPrepare _ => _ | _ => w end).
  assert (∀ wp, prepared = Run.Done wp → wp = w1) as Hp.
  { subst prepared w1. destruct ev; try (by intros wp [= <-]).
    destruct (_ && _); [|by intros wp [= <-]].
    intros wp Hd. apply prepare_zip_done_agrees in Hd; [done|].
    intros v [_ Hv]%list_elem_of_filter. by apply Hnul. }
  destruct prepared as [wp|wp]; [|done].
  rewrite (Hp wp eq_refl). by intros [= <- <-].
Qed.

Lemma on_event_set_user_id ev text w :
  with_session (Run.set_user_id text) (on_event ev w)
  = on_event ev (with_session (Run.set_user_id text) w).
Proof. by destruct ev. Qed.

End agreement.

(** X28. Within the limits of [allowZip64=False], and when no name of a
    selected video holds a null character, [prepare_zip] returns, and
    what it leaves is the process of the assembly without exceptions:
    the archive holds the members under their full names. *)
Theorem prepare_zip_agrees `{Env} `{Host} (sel : list video) (uid : pystr) (w : world) :
  (∀ v, v ∈ sel → 0 ∉ final_filename v) →
  within_zip32 (member <$> fetched_ok sel w) = true →
  Run.prepare_zip sel uid w = Run.Done (prepare_zip sel uid w).
Proof.
  intros Hnul Hw. destruct sel as [|v t]; [done|].
  rewrite prepare_zip_within, prepare_zip_nonempty by done.
  by rewrite stored_members.
Qed.

Lemma prepare_zip_agrees_witness :
  let sel := [clip_a; clip_b; clip_c] in
  @Run.prepare_zip sample_env sample_host sel jane (fetched jane sel)
  = Run.Done (@prepare_zip sample_env sel jane (fetched jane sel)).
Proof.
  apply (@prepare_zip_agrees sample_env sample_host).
  - intros v Hv. apply (bool_decide_unpack _).
    repeat (apply elem_of_cons in Hv as [->|Hv]; [by vm_compute|]).
    by apply elem_of_nil in Hv.
  - vm_compute. reflexivity.
Defined.

(** X29. A script run that gets to its end is the run without
    exceptions: for a catalogue whose names hold no null character, the
    process it leaves and the two download columns it shows are those of
    [script_run] started with the content of the text field as
    [user_id]. *)
Theorem script_run_agrees `{Env} `{Host}
    (app : app_choice) (ev : event) (text : pystr) (w : world) :
  (∀ v, v ∈ video_list (session w) → 0 ∉ final_filename v) →
  Run.completed (Run.script_run app ev text w) = true →
  let run := Run.script_run app ev text w in
  let plain := script_run app ev (with_session (Run.set_user_id text) w) in
  Run.after run = plain.2
  ∧ (video_list (session w) ≠ [] →
     Run.top_bar run = Some plain.1.1 ∧ Run.bottom_bar run = Some plain.1.2).
Proof.
  intros Hnul Hcomp run plain. subst run plain.
  unfold Run.script_run, script_run in *.
  rewrite <- on_event_set_user_id.
  pose proof (set_user_id_on_event ev text w) as Hvl.
  set (w1 := with_session (Run.set_user_id text) (on_event ev w)) in *.
  assert (∀ v, v ∈ video_list (session w1) → 0 ∉ final_filename v) as Hnul1
    by (by rewrite Hvl).
  destruct (video_list (session w1)) as [|v0 vs] eqn:E.
  { split; [done|]. intros Hne. congruence. }
  rewrite <- E in Hnul1. clear E. unfold Run.run_app, run_app in *.
  set (w0 := with_session run_app_check w1) in *.
  assert (video_list (session w0) = video_list (session w1)) as Hvl0.
  { destruct (run_app_check_keeps (session w1)) as (Hk & _).
    subst w0. unfold with_session at 1. cbn [session]. by rewrite Hk. }
  destruct (Run.common_action_bar_ui top ev w0) as [[o1 w2]|w2] eqn:Hb1;
    [|done].
  apply run_bar_agrees in Hb1; [|by rewrite Hvl0]. rewrite Hb1.
  pose proof (bar_cache top ev w0) as [_ Hvl2]. rewrite Hb1 in Hvl2.
  cbn [snd] in Hvl2.
  destruct (render_grid_cases app w2) as [[_ Hg]|(_ & k & _ & Hg)];
    rewrite Hg in *; [|done].
  pose proof (render_grid_frame app w2) as (Hs3 & _ & _).
  destruct (Run.common_action_bar_ui bottom ev (render_grid app w2))
    as [[o3 w4]|w4] eqn:Hb3; [|done].
  apply run_bar_agrees in Hb3; [|by rewrite Hs3, Hvl2, Hvl0].
  rewrite Hb3. done.
Qed.

Lemma script_run_agrees_witness :
  let w := @Run.script_runs sample_env sample_host app3
             [(ToggleVideo (u "1"), jane); (ToggleVideo (u "2"), jane)]
             (fetched jane [clip_a; clip_b]) in
  Run.after (@Run.script_run sample_env sample_host app3 (ClickPrepare bottom) jane w)
  = (@script_run sample_env app3 (ClickPrepare bottom)
       (with_session (Run.set_user_id jane) w)).2.
Proof.
  destruct (@script_run_agrees sample_env sample_host app3 (ClickPrepare bottom) jane
              (@Run.script_runs sample_env sample_host app3
                 [(ToggleVideo (u "1"), jane); (ToggleVideo (u "2"), jane)]
                 (fetched jane [clip_a; clip_b])))
    as [H1 _].
  - intros v Hv. apply (bool_decide_unpack _).
    assert (v ∈ [clip_a; clip_b]) as Hv' by exact Hv.
    repeat (apply elem_of_cons in Hv' as [->|Hv']; [by vm_compute|]).
    by apply elem_of_nil in Hv'.
  - vm_compute. reflexivity.
  - exact H1.
Defined.

(** X30. Every script run, whatever the interaction and also when it is
    cut short by an exception, leaves [user_id] equal to the content of
    the text field at that run: the owner of the listed catalogue is not
    remembered. *)
Theorem script_run_sets_user_id `{Env} `{Host}
    (app : app_choice) (ev : event) (text : pystr) (w : world) :
  user_id (session (Run.after (Run.script_run app ev text w))) = text
  ∧ video_list (session (Run.after (Run.script_run app ev text w)))
    = video_list (session w).
Proof.
  unfold Run.script_run.
  pose proof (set_user_id_on_event ev text w) as Hvl.
  set (w1 := with_session (Run.set_user_id text) (on_event ev w)) in *.
  assert (user_id (session w1) = text) as Hu by done.
  destruct (video_list (session w1)) eqn:E;
    [split; [exact Hu|by rewrite <- Hvl]|].
  rewrite <- E in Hvl. clear E.
  unfold Run.run_app. set (w0 := with_session run_app_check w1).
  assert (user_id (session w0) = text
          ∧ video_list (session w0) = video_list (session w)) as [Hu0 Hvl0].
  { destruct (run_app_check_keeps (session w1)) as (Hk1 & _ & _ & Hk & _).
    subst w0. unfold with_session at 1 2. cbn [session]. by rewrite Hk, Hk1. }
  pose proof (run_bar_outcome top ev w0) as Hb1.
  destruct (Run.common_action_bar_ui top ev w0) as [[o1 w2]|w2];
    [|cbn; destruct Hb1 as [_ ->]; done].
  destruct Hb1 as (_ & Hv2 & _ & Hu2 & _).
  pose proof (render_grid_session app w2) as Hg.
  destruct (Run.render_grid app w2) as [w3|w3];
    [|cbn; destruct Hg as [-> _]; split; congruence].
  destruct Hg as [Hs3 _].
  pose proof (run_bar_outcome bottom ev w3) as Hb3.
  destruct (Run.common_action_bar_ui bottom ev w3) as [[o3 w4]|w4]; cbn.
  - destruct Hb3 as (_ & -> & _ & -> & _). split; congruence.
  - destruct Hb3 as [_ ->]. split; congruence.
Qed.

(** ** The invariant under exceptions *)

Section exceptions_more.
Context `{Env} `{Host}.

(** An empty selection and a selection in which every download fails
    write no member: [prepare_zip] returns whatever the limits. *)
Lemma prepare_zip_all_failed_run sel uid w :
  Forall (fun o => ¬ succeeded o) (downloads sel w) →
  Run.prepare_zip sel uid w = Run.Done (prepare_zip sel uid w).
Proof.
  intros Hall.
  assert (fetched_ok sel w = []) as Hok.
  { unfold fetched_ok. induction Hall as [|o t Ho _ IH]; [done|].
    by rewrite filter_cons_False. }
  destruct sel as [|v t]; [done|].
  rewrite prepare_zip_within, prepare_zip_nonempty by (done || by rewrite Hok).
  by rewrite Hok.
Qed.

Lemma run_bar_raised p ev w w' :
  Run.common_action_bar_ui p ev w = Run.Raised w' →
  ev = ClickPrepare p ∧ session w' = session w.
Proof.
  unfold Run.common_action_bar_ui. destruct ev; try done.
  case_bool_decide as Hp; [subst p0|done]. cbn [andb].
  destruct (negb _); [|done].
  pose proof (prepare_zip_outcome (selected_videos (session w))
                (user_id (session w)) w) as Hout.
  destruct (Run.prepare_zip _ _ w) as [w1|w1]; [done|].
  intros [= <-]. by destruct Hout as [_ ->].
Qed.

Lemma artifact_ok_prepare_run videos sel uid w :
  sel ⊆ videos →
  artifact_ok videos (session w) →
  match Run.prepare_zip sel uid w with
  | Run.Done w' | Run.Raised w' => artifact_ok videos (session w')
  end.
Proof.
  intros Hsub Hok. destruct sel as [|v t]; [done|].
  destruct (within_zip32 (member <$> fetched_ok (v :: t) w)) eqn:Hw.
  - rewrite prepare_zip_within by done.
    destruct Hok as (H1 & H2 & H3 & H4 & H5).
    unfold artifact_ok. cbn [session video_list user_id zip_bytes
      zipped_selection_ids zip_filename failed_videos].
    split_and!; try done.
    + intros _. by exists uid.
    + intros i (v' & -> & [_ Hv']%list_elem_of_filter)%list_elem_of_fmap.
      apply list_elem_of_fmap_2, Hsub, Hv'.
    + etrans; [apply sublist_subseteq, fetch_failed_sublist|done].
  - destruct (prepare_zip_beyond (v :: t) uid w) as (k & _ & ->); done.
Qed.

Lemma artifact_ok_bar_run videos p ev w :
  artifact_ok videos (session w) →
  match Run.common_action_bar_ui p ev w with
  | Run.Done (o, w') =>
      artifact_ok videos (session w')
      ∧ ∀ a f, o = Some (a, f) →
               ∃ uid, f = Some (u "tiktok_download_" ++ uid ++ u ".zip")
  | Run.Raised w' => artifact_ok videos (session w')
  end.
Proof.
  intros Hok. unfold Run.common_action_bar_ui.
  set (prepared := match ev with ClickPrepare _ => _ | _ => Run.Done w end).
  assert (match prepared with
          | Run.Done w' | Run.Raised w' => artifact_ok videos (session w')
          end) as Hp.
  { subst prepared. destruct ev; try done. destruct (_ && _); [|done].
    apply artifact_ok_prepare_run; [|done].
    destruct Hok as (<- & _). apply list_subseteq_filter. }
  destruct prepared as [w1|w1]; [|done]. split.
  - by destruct (download_triggered (session w1)).
  - intros a f. unfold zip_download_button.
    destruct (truthy_zip _); [|done].
    destruct (zip_bytes (session w1)) as [a'|] eqn:Hz; [|done].
    intros [= _ <-]. destruct Hp as (_ & _ & Hname & _).
    apply Hname. rewrite Hz. by eexists.
Qed.

(** The invariant of the sessions between runs is kept by every run,
    also by one that an exception cuts short, and an archive offered by
    a run carries a file name of the expected form. *)
Lemma session_ok_script_run_run videos app ev text w :
  videos ≠ [] →
  session_ok videos (session w) →
  let run := Run.script_run app ev text w in
  session_ok videos (session (Run.after run))
  ∧ ∀ a f, Run.top_bar run = Some (Some (a, f))
           ∨ Run.bottom_bar run = Some (Some (a, f)) →
           ∃ uid, f = Some (u "tiktok_download_" ++ uid ++ u ".zip").
Proof.
  intros Hne [Hok Hflag] run. subst run.
  pose proof (artifact_ok_on_event videos ev w Hok) as Hok1.
  unfold Run.script_run.
  set (w1 := with_session (Run.set_user_id text) (on_event ev w)).
  assert (artifact_ok videos (session w1)) as Hok1' by exact Hok1.
  assert (video_list (session w1) ≠ []) as Hvl
    by (by destruct Hok1' as (-> & _)).
  destruct (video_list (session w1)) as [|v0 vs] eqn:E; [done|]. clear E Hvl.
  unfold Run.run_app. set (w0 := with_session run_app_check w1).
  assert (artifact_ok videos (session w0)) as Hok0
    by (by apply artifact_ok_check).
  pose proof (artifact_ok_bar_run videos top ev w0 Hok0) as Hb1.
  pose proof (run_bar_outcome top ev w0) as Hf1.
  destruct (Run.common_action_bar_ui top ev w0) as [[o1 w2]|w2] eqn:Hbar1.
  2:{ cbn [Run.top_bar Run.bottom_bar Run.after].
      apply run_bar_raised in Hbar1 as [-> Hs]. split; [|by intros a f [?|?]].
      split; [done|]. rewrite Hs. subst w0. cbn [with_session session].
      by rewrite run_app_check_flag. }
  destruct Hb1 as [Hok2 Hn1]. destruct Hf1 as (_ & _ & _ & _ & Hflag2).
  pose proof (render_grid_session app w2) as Hg.
  destruct (Run.render_grid app w2) as [w3|w3]; destruct Hg as [Hs3 _].
  2:{ cbn [Run.top_bar Run.bottom_bar Run.after]. rewrite Hs3. split; [by split|].
      intros a f [[= ->]|?]; [by eapply Hn1|done]. }
  pose proof (artifact_ok_bar_run videos bottom ev w3) as Hb3.
  pose proof (run_bar_outcome bottom ev w3) as Hf3.
  destruct (Run.common_action_bar_ui bottom ev w3) as [[o3 w4]|w4] eqn:Hbar3;
    cbn [Run.top_bar Run.bottom_bar Run.after].
  - destruct Hb3 as [Hok4 Hn3]; [by rewrite Hs3|].
    destruct Hf3 as (_ & _ & _ & _ & Hflag4). split; [by split|].
    intros a f [[= ->]|[= ->]]; [by eapply Hn1|by eapply Hn3].
  - apply run_bar_raised in Hbar3 as [_ Hs4]. rewrite Hs4, Hs3.
    split; [by split|]. intros a f [[= ->]|?]; [by eapply Hn1|done].
Qed.

Lemma session_ok_script_runs_run videos app evs w :
  videos ≠ [] →
  session_ok videos (session w) →
  session_ok videos (session (Run.script_runs app evs w)).
Proof.
  intros Hne. revert w. induction evs as [|[ev text] evs IH]; intros w Hok; [done|].
  cbn [Run.script_runs foldl fst snd]. apply IH.
  by apply session_ok_script_run_run.
Qed.

(** From a fetched catalogue, whatever the interactions and the contents
    of the text field, and whichever runs were cut short by an
    exception. *)
Lemma reachable_session_ok_run app evs uid videos :
  videos ≠ [] →
  session_ok videos (session (Run.script_runs app evs (fetched uid videos))).
Proof.
  intros Hne. apply session_ok_script_runs_run; [done|].
  unfold session_ok, artifact_ok. simpl.
  split_and!; try done; try apply list_subseteq_nil;
    try (intros Hs; by apply is_Some_None in Hs).
Qed.

End exceptions_more.
